(** * Wikiplay: the dartboard resolver, the narration player and the score board

    A shallow embedding of the logic of [components/Dartboard.tsx],
    [components/FactModal.tsx] and [App.tsx], and the properties of the
    specification that concern them.

    JavaScript numbers are IEEE-754 binary64 values.  The component code is
    written once, over an interface [Number] of the arithmetic it uses, and
    read under two semantics: [Exact] (rationals, no rounding) for the
    properties that hold of the formulas, and [Binary64] (Rocq's primitive
    floats, which evaluate in the kernel) for what the code yields on
    concrete inputs. *)

From Stdlib Require Import ZArith QArith Qround Lia Lqa Ascii.
From Stdlib Require Import Floats.PrimFloat Floats.FloatOps Floats.SpecFloat.
From Corelib Require Import Uint63Axioms.
From stdpp Require Import base option list strings gmap.

(* ===================================================================== *)
(** ** JavaScript numbers *)
(* ===================================================================== *)

Module JS.

(** The operations on numbers that the components use. *)
Class Number (N : Type) := {
  lit   : Z -> N;            (* an integer literal *)
  nadd  : N -> N -> N;       (* x + y *)
  nsub  : N -> N -> N;       (* x - y *)
  ndiv  : N -> N -> N;       (* x / y *)
  nrem  : N -> N -> N;       (* x % y: remainder with the dividend's sign *)
  nltb  : N -> N -> bool;    (* x < y *)
  nequal  : N -> N -> bool;    (* x === y *)
  nfloor : N -> option Z     (* Math.floor(x) read as an integer;
                                None when x is NaN or infinite *)
}.

Declare Scope js_scope.
Delimit Scope js_scope with js.
Infix "+" := nadd : js_scope.
Infix "-" := nsub : js_scope.
Infix "/" := ndiv : js_scope.
Infix "%%" := nrem (at level 40, left associativity) : js_scope.
Infix "<?" := nltb : js_scope.
Infix "=?" := nequal : js_scope.

(** *** Exact arithmetic *)

(** Truncation toward zero. *)
Definition Qtrunc (q : Q) : Z := Z.quot (Qnum q) (Z.pos (Qden q)).

(** [x % y] is [x - y * trunc (x / y)]. *)
Definition Qrem (x y : Q) : Q := (x - y * inject_Z (Qtrunc (x / y)))%Q.

Definition Qltb (x y : Q) : bool := negb (Qle_bool y x).

#[export] Instance Exact : Number Q := {|
  lit := inject_Z;
  nadd := Qplus;
  nsub := Qminus;
  ndiv := Qdiv;
  nrem := Qrem;
  nltb := Qltb;
  nequal := Qeq_bool;
  nfloor := fun x => Some (Qfloor x)
|}.

(** *** IEEE-754 binary64 *)

(** A binary64 value is [±m·2^e]; an integer below [2^53] converts
    exactly. *)
Definition of_int (z : Z) : float :=
  let f := of_uint63 (of_Z (Z.abs z)) in
  if (z <? 0)%Z then (- f)%float else f.

(** [x % y] on binary64 is exact: both operands are brought to the
    smaller exponent, the integer remainder is taken and scaled back. *)
Definition rem64 (x y : float) : float :=
  match Prim2SF x, Prim2SF y with
  | S754_nan, _ | _, S754_nan => nan
  | S754_infinity _, _ | _, S754_zero _ => nan
  | S754_zero _, _ | _, S754_infinity _ => x
  | S754_finite sx mx ex, S754_finite _ my ey =>
      let e := Z.min ex ey in
      let X := (Z.pos mx * 2 ^ (ex - e))%Z in
      let Y := (Z.pos my * 2 ^ (ey - e))%Z in
      let r := Z.ldexp (of_uint63 (of_Z (X mod Y))) e in
      if sx then (- r)%float else r
  end.

Definition floor64 (x : float) : option Z :=
  match Prim2SF x with
  | S754_zero _ => Some 0%Z
  | S754_finite s m e =>
      let v := cond_Zopp s (Z.pos m) in
      Some (if (0 <=? e)%Z then v * 2 ^ e else v / 2 ^ (- e))%Z
  | _ => None
  end.

#[export] Instance Binary64 : Number float := {|
  lit := of_int;
  nadd := PrimFloat.add;
  nsub := PrimFloat.sub;
  ndiv := PrimFloat.div;
  nrem := rem64;
  nltb := PrimFloat.ltb;
  nequal := PrimFloat.eqb;
  nfloor := floor64
|}.

(** [Math.PI] *)
Definition PI : float := 0x1.921fb54442d18p+1%float.

End JS.

Import JS.

(* ===================================================================== *)
(** ** types *)
(* ===================================================================== *)

Module Types.

(** [enum Category]: the string values, in declaration order. *)
Definition HISTORY : string := "Geschiedenis".
Definition SCIENCE : string := "Wetenschap".
Definition NATURE : string := "Natuur".
Definition SPORTS : string := "Sport".
Definition ART : string := "Kunst".
Definition TECH : string := "Technologie".
Definition GEOGRAPHY : string := "Geografie".
Definition ENTERTAINMENT : string := "Entertainment".

(** [Object.values(Category)] *)
Definition CATEGORIES : list string :=
  [HISTORY; SCIENCE; NATURE; SPORTS; ART; TECH; GEOGRAPHY; ENTERTAINMENT].

Inductive GameState := IDLE | SPINNING | THROWN | FETCHING | SHOWING_CONTENT.

Definition GameState_eqb (a b : GameState) : bool :=
  match a, b with
  | IDLE, IDLE | SPINNING, SPINNING | THROWN, THROWN
  | FETCHING, FETCHING | SHOWING_CONTENT, SHOWING_CONTENT => true
  | _, _ => false
  end.

Record QuizData := {
  question : string;
  options : list string;
  correctAnswer : string;
  explanation : string
}.

(** An entry of [ScoreBoard = Record<Category, {correct, wrong}>]. *)
Record Score := { correct : Z; wrong : Z }.

End Types.

Import Types.

(* ===================================================================== *)
(** ** components/Dartboard.tsx *)
(* ===================================================================== *)

Module Dartboard.

Section Component.
Context {N : Type} `{Number N}.
Local Open Scope js_scope.

(** Internal SVG units; throws land within 0.9 of it, a radius of 270. *)
Definition BOARD_RADIUS : N := lit 300.

(** [DartCoordinates] *)
Record Dart := { dart_x : N; dart_y : N; dart_rotation : N }.

(** The component's state and refs, its [gameState] prop, and the
    browser's queue of requested animation frames. *)
Record State := {
  rotation : N;                  (* useState(0) *)
  darts : list Dart;             (* useState([]) *)
  animationFrameRef : nat;       (* useRef(0): id of the last request *)
  lastTimeRef : N;               (* useRef(0) *)
  speedRef : N;                  (* useRef(0) *)
  gameState : GameState;         (* prop *)
  pendingFrames : list nat;      (* requested, neither run nor cancelled *)
  nextFrameId : nat              (* request ids are positive *)
}.

Definition init : State := {|
  rotation := lit 0; darts := []; animationFrameRef := 0;
  lastTimeRef := lit 0; speedRef := lit 0; gameState := IDLE;
  pendingFrames := []; nextFrameId := 1 |}.

(** [animationFrameRef.current = requestAnimationFrame(animate)] *)
Definition requestAnimationFrame (s : State) : State :=
  {| rotation := rotation s; darts := darts s;
     animationFrameRef := nextFrameId s;
     lastTimeRef := lastTimeRef s; speedRef := speedRef s;
     gameState := gameState s;
     pendingFrames := pendingFrames s ++ [nextFrameId s];
     nextFrameId := S (nextFrameId s) |}.

(** [if (animationFrameRef.current)
      cancelAnimationFrame(animationFrameRef.current)] *)
Definition cancelAnimationFrame (s : State) : State :=
  if Nat.eqb (animationFrameRef s) 0 then s
  else
    {| rotation := rotation s; darts := darts s;
       animationFrameRef := animationFrameRef s;
       lastTimeRef := lastTimeRef s; speedRef := speedRef s;
       gameState := gameState s;
       pendingFrames :=
         List.filter (fun id => negb (Nat.eqb id (animationFrameRef s)))
                     (pendingFrames s);
       nextFrameId := nextFrameId s |}.

Definition setRotation (f : N -> N) (s : State) : State :=
  {| rotation := f (rotation s); darts := darts s;
     animationFrameRef := animationFrameRef s;
     lastTimeRef := lastTimeRef s; speedRef := speedRef s;
     gameState := gameState s; pendingFrames := pendingFrames s;
     nextFrameId := nextFrameId s |}.

Definition setRefs (lastTime speed : N) (s : State) : State :=
  {| rotation := rotation s; darts := darts s;
     animationFrameRef := animationFrameRef s;
     lastTimeRef := lastTime; speedRef := speed;
     gameState := gameState s; pendingFrames := pendingFrames s;
     nextFrameId := nextFrameId s |}.

Definition setDarts (d : list Dart) (s : State) : State :=
  {| rotation := rotation s; darts := d;
     animationFrameRef := animationFrameRef s;
     lastTimeRef := lastTimeRef s; speedRef := speedRef s;
     gameState := gameState s; pendingFrames := pendingFrames s;
     nextFrameId := nextFrameId s |}.

Definition withGameState (g : GameState) (s : State) : State :=
  {| rotation := rotation s; darts := darts s;
     animationFrameRef := animationFrameRef s;
     lastTimeRef := lastTimeRef s; speedRef := speedRef s;
     gameState := g; pendingFrames := pendingFrames s;
     nextFrameId := nextFrameId s |}.

(** The spin step, the body of [animate(time)]. *)
Definition animate (time : N) (s : State) : State :=
  let s1 :=
    if negb (lastTimeRef s =? lit 0)
    then setRotation (fun prev => (prev + speedRef s) %% lit 360) s
    else s in
  let s2 := setRefs time (speedRef s1) s1 in
  if GameState_eqb (gameState s2) SPINNING
  then requestAnimationFrame s2
  else s2.

(** The effect on [gameState, animate]. *)
Definition spinEffect (s : State) : State :=
  if GameState_eqb (gameState s) SPINNING
  then requestAnimationFrame (setRefs (lit 0) (lit 8) s)
  else cancelAnimationFrame s.

(** The parent passes a new [gameState]: the previous effect is cleaned
    up and the effect runs again; an unchanged prop runs nothing. *)
Definition setGameState (g : GameState) (s : State) : State :=
  if GameState_eqb g (gameState s) then s
  else spinEffect (withGameState g (cancelAnimationFrame s)).

(** Lines 100-101; [deg] is [Math.atan2(hitY, hitX) * 180 / Math.PI]. *)
Definition hitAngleDeg (deg : N) : N :=
  let h := deg + lit 90 in
  if h <? lit 0 then h + lit 360 else h.

(** Lines 105-106. *)
Definition effectiveAngle (hitAngle rot : N) : N :=
  let e := (hitAngle - rot) %% lit 360 in
  if e <? lit 0 then e + lit 360 else e.

(** Line 109. *)
Definition segmentSize : N :=
  lit 360 / lit (Z.of_nat (length CATEGORIES)).

(** Line 110. *)
Definition index (effective : N) : option Z :=
  nfloor (effective / segmentSize).

(** Line 115, [CATEGORIES[index]]: [None] is [undefined]. *)
Definition hitCategory (idx : option Z) : option string :=
  match idx with
  | Some i => if (i <? 0)%Z then None else CATEGORIES !! Z.to_nat i
  | None => None
  end.

(** Lines 100-115 together. *)
Definition resolve (deg rot : N) : option string :=
  hitCategory (index (effectiveAngle (hitAngleDeg deg) rot)).

(** What the platform returned during one throw: the point, the value
    of [Math.atan2(hitY, hitX) * 180 / Math.PI], and the tilt drawn for
    the dart. *)
Record Throw := {
  hitX : N; hitY : N; atan2Deg : N; tilt : N
}.

(** What [handleThrow] asks of its surroundings: [setGameState(g)], the
    callback of the parent, which owns the game state, called at once; and
    [onHit(c)], handed to [setTimeout] and called 800 ms later.  No timer
    is ever cleared, so every [onHit] that is scheduled is called. *)
Inductive Call :=
| SetGameState (g : GameState)
| OnHit (hitCategory : option string).

(** [handleThrow]; the second component lists the calls it makes.  The
    hit is resolved against the rotation of the render in which the click
    arrives.  The handler itself changes the darts only: the [gameState]
    prop changes when the parent passes a new one, see [EvGameState]. *)
Definition handleThrow (t : Throw) (s : State) : State * list Call :=
  if negb (GameState_eqb (gameState s) SPINNING) then (s, [])
  else
    let hit := resolve (atan2Deg t) (rotation s) in
    (setDarts [ {| dart_x := hitX t; dart_y := hitY t;
                   dart_rotation := tilt t |} ] s,
     [SetGameState THROWN; OnHit hit]).

Inductive Event :=
| EvGameState (g : GameState)   (* the parent changes the prop *)
| EvFrame (time : N)            (* the browser runs a requested frame *)
| EvClick (t : Throw).          (* a click on the board *)

(** The browser takes the oldest requested frame off its queue. *)
Definition dequeued (s : State) : State :=
  {| rotation := rotation s; darts := darts s;
     animationFrameRef := animationFrameRef s;
     lastTimeRef := lastTimeRef s; speedRef := speedRef s;
     gameState := gameState s; pendingFrames := tail (pendingFrames s);
     nextFrameId := nextFrameId s |}.

Definition step (e : Event) (s : State) : State * list Call :=
  match e with
  | EvGameState g => (setGameState g s, [])
  | EvFrame time =>
      match pendingFrames s with
      | [] => (s, [])
      | _ :: _ => (animate time (dequeued s), [])
      end
  | EvClick t => handleThrow t s
  end.

Fixpoint run (evs : list Event) (s : State) : State :=
  match evs with
  | [] => s
  | e :: evs' => run evs' (fst (step e s))
  end.

End Component.

Arguments State N : clear implicits.
Arguments Event N : clear implicits.
Arguments Throw N : clear implicits.
Arguments Dart N : clear implicits.

(** The rotations that spinning can produce: the multiples of 8 in
    [0, 360). *)
Definition OnGrid {N} `{Number N} (r : N) : Prop :=
  exists z : Z, (0 <= z < 360)%Z /\ (8 | z)%Z /\ r = lit z.

(** What holds of every state the component reaches. *)
Record SpinInv {N} `{Number N} (s : State N) : Prop := {
  inv_rotation : OnGrid (rotation s);
  inv_frames :
    pendingFrames s = [] \/
    (pendingFrames s = [animationFrameRef s] /\
     animationFrameRef s <> 0%nat /\
     speedRef s = lit 8 /\ gameState s = SPINNING);
  inv_spinning : gameState s = SPINNING -> pendingFrames s <> [];
  inv_fresh : nextFrameId s <> 0%nat
}.

(** The behaviour of the rotation in every state the component reaches,
    for numbers on which [inRange] reads "at least 0 and below 360". *)
Definition SpinSpec (N : Type) `{Number N} (inRange : N -> Prop) : Prop :=
  forall evs : list (Event N),
    let s := run evs init in
    inRange (rotation s) /\
    OnGrid (rotation s) /\
    (forall time, gameState s = SPINNING ->
       rotation (fst (step (EvFrame time) s)) =
       if nequal (lastTimeRef s) (lit 0) then rotation s
       else nrem (nadd (rotation s) (lit 8)) (lit 360)) /\
    (forall e, gameState s <> SPINNING ->
       rotation (fst (step e s)) = rotation s).

(** [Math.atan2(hitY, hitX) * 180 / Math.PI], from the value [a] that
    [Math.atan2] returned. *)
Definition toDegrees (a : float) : float := (a * 180 / PI)%float.

End Dartboard.

(* ===================================================================== *)
(** ** Platform functions used by the player *)
(* ===================================================================== *)

Module Platform.

(** Exceptions that reach the component code. *)
Inductive Error :=
| InvalidCharacterError    (* atob on a string that is not base64 *)
| RangeError               (* a typed-array view that does not fit *)
| TypeError                (* a property read on undefined *)
| EngineError.             (* any failure of the playback engine *)

(** The result of running a piece of code: a value or an exception. *)
Inductive completion (A : Type) :=
| Normal (a : A)
| Throw (e : Error).
Arguments Normal {A} a.
Arguments Throw {A} e.

Definition code (c : ascii) : Z := Z.of_N (N_of_ascii c).

Definition is_whitespace (c : ascii) : bool :=
  let n := code c in
  ((n =? 9) || (n =? 10) || (n =? 12) || (n =? 13) || (n =? 32))%Z.

(** The value of a character of the base64 alphabet. *)
Definition sextet (c : ascii) : option Z :=
  let n := code c in
  if ((65 <=? n) && (n <=? 90))%Z then Some (n - 65)%Z
  else if ((97 <=? n) && (n <=? 122))%Z then Some (n - 71)%Z
  else if ((48 <=? n) && (n <=? 57))%Z then Some (n + 4)%Z
  else if (n =? 43)%Z then Some 62%Z
  else if (n =? 47)%Z then Some 63%Z
  else None.

Fixpoint octets (l : list Z) : list Z :=
  match l with
  | a :: b :: c :: d :: rest =>
      (a * 4 + b / 16)%Z :: ((b mod 16) * 16 + c / 4)%Z
        :: ((c mod 4) * 64 + d)%Z :: octets rest
  | [a; b; c] => [(a * 4 + b / 16)%Z; ((b mod 16) * 16 + c / 4)%Z]
  | [a; b] => [(a * 4 + b / 16)%Z]
  | _ => []
  end.

Definition is_pad (c : ascii) : bool := (code c =? 61)%Z.

(** Up to two trailing [=] are dropped when the length is a multiple
    of four. *)
Definition strip_padding (cs : list ascii) : list ascii :=
  if Nat.eqb (length cs mod 4) 0 then
    match rev cs with
    | p :: q :: r => if is_pad p then (if is_pad q then rev r else rev (q :: r))
                     else cs
    | _ => cs
    end
  else cs.

(** [window.atob]: forgiving base64 decoding to a binary string, one
    character per byte; [None] when it throws. *)
Definition atob (data : string) : option string :=
  let cs := strip_padding
              (List.filter (fun c => negb (is_whitespace c))
                           (String.list_ascii_of_string data)) in
  if Nat.eqb (length cs mod 4) 1 then None
  else
    match mapM sextet cs with
    | Some l =>
        Some (String.string_of_list_ascii
                (List.map (fun b => ascii_of_N (Z.to_N b)) (octets l)))
    | None => None
    end.

(** [new Int16Array(buffer)] over a whole buffer of bytes: the byte
    length must be a multiple of two; each pair of bytes, low byte first,
    is one signed 16-bit word. *)
Definition toInt16 (w : Z) : Z := if (w <? 32768)%Z then w else (w - 65536)%Z.

Fixpoint int16_words (bytes : list Z) : list Z :=
  match bytes with
  | lo :: hi :: rest => toInt16 (lo + 256 * hi) :: int16_words rest
  | _ => []
  end.

Definition Int16Array (buffer : list Z) : completion (list Z) :=
  if Nat.eqb (length buffer mod 2) 0 then Normal (int16_words buffer)
  else Throw RangeError.

(** A sample of a [Float32Array]. A 16-bit integer divided by 32768 is
    represented exactly in binary32, so finite samples are rationals. *)
Inductive Sample :=
| Val (q : Q)
| NaN.

(** An [AudioBuffer]: one array of samples per channel. *)
Record AudioBuffer := {
  numberOfChannels : nat;
  bufferLength : nat;
  sampleRate : Z;
  channels : list (list Sample)
}.

(** [ctx.createBuffer(numChannels, length, sampleRate)], when it returns:
    silent channels of the requested length. *)
Definition createBuffer (numChannels len : nat) (rate : Z) : AudioBuffer :=
  {| numberOfChannels := numChannels; bufferLength := len;
     sampleRate := rate;
     channels := replicate numChannels (replicate len (Val 0)) |}.

(** How the engine answers the calls made during one [playAudio] or
    [stopAudio]: whether each returns or throws (rejects), and whether the
    context reports itself suspended. *)
Record Engine := {
  contextOk : bool;         (* new AudioContext({sampleRate: 24000}) *)
  suspended : bool;         (* ctx.state === 'suspended' *)
  createBufferOk : bool;    (* ctx.createBuffer *)
  createSourceOk : bool;    (* ctx.createBufferSource *)
  connectOk : bool;         (* source.connect(ctx.destination) *)
  startOk : bool;           (* source.start() *)
  stopOk : bool             (* source.stop() *)
}.

(** The life of an [AudioBufferSourceNode]: created, playing after
    [start()], halted by [stop()] with its [ended] event still to come,
    and ended once that event has been delivered. *)
Inductive SourceStatus := Unstarted | Playing | Halted | Ended.

Record Source := { status : SourceStatus; buffer : AudioBuffer }.

Inductive EngineCall := CallStart (id : nat) | CallStop (id : nat).

End Platform.

Import Platform.

(* ===================================================================== *)
(** ** components/FactModal.tsx *)
(* ===================================================================== *)

Module FactModal.

(** [decode]: the characters of [atob(base64)] stored in a
    [Uint8Array]. *)
Definition decode (base64 : string) : completion (list Z) :=
  match atob base64 with
  | Some binaryString =>
      Normal (List.map (fun c => (code c mod 256)%Z)
                       (String.list_ascii_of_string binaryString))
  | None => Throw InvalidCharacterError
  end.

(** [channelData[i] = v], on the live array of channel [channel]; a
    write past the end of a typed array stores nothing. *)
Definition writeSample (channel i : nat) (v : Sample) (b : AudioBuffer)
  : AudioBuffer :=
  {| numberOfChannels := numberOfChannels b;
     bufferLength := bufferLength b;
     sampleRate := sampleRate b;
     channels :=
       match channels b !! channel with
       | Some channelData => <[channel := <[i := v]> channelData]> (channels b)
       | None => channels b
       end |}.

(** [dataInt16[k] / 32768.0]; reading past the end gives [undefined],
    and the quotient is then [NaN]. *)
Definition dequantize (dataInt16 : list Z) (k : nat) : Sample :=
  match dataInt16 !! k with
  | Some w => Val (w # 32768)
  | None => NaN
  end.

(** The inner loop of [decodeAudioData], over the frames of one
    channel. *)
Definition fillChannel (dataInt16 : list Z) (numChannels channel : nat)
    (frameCount : nat) (b : AudioBuffer) : AudioBuffer :=
  foldl (fun b' i =>
           writeSample channel i
             (dequantize dataInt16 (i * numChannels + channel)) b')
        b (seq 0 frameCount).

(** The outer loop, over the first [m] channels. *)
Definition fillChannels (dataInt16 : list Z) (numChannels : nat)
    (frameCount m : nat) (b : AudioBuffer) : AudioBuffer :=
  foldl (fun b' channel =>
           fillChannel dataInt16 numChannels channel frameCount b')
        b (seq 0 m).

(** [decodeAudioData(data, ctx, sampleRate, numChannels)].  [ctxOk] tells
    whether [ctx.createBuffer] returns.  [frameCount] is the quotient
    rounded down: [createBuffer] takes an integer length, and the writes
    of the loop beyond that length store nothing.  The component calls it
    with the defaults, 24000 and one channel. *)
Definition decodeAudioData (data : list Z) (ctxOk : bool)
    (rate : Z) (numChannels : nat) : completion AudioBuffer :=
  match Int16Array data with
  | Throw e => Throw e
  | Normal dataInt16 =>
      let frameCount := (length dataInt16 / numChannels)%nat in
      if negb ctxOk then Throw EngineError
      else
        Normal (fillChannels dataInt16 numChannels frameCount numChannels
                  (createBuffer numChannels frameCount rate))
  end.

(** [buffer.getChannelData(channel)[i]] *)
Definition sampleAt (b : AudioBuffer) (channel i : nat) : option Sample :=
  channels b !! channel ≫= fun channelData => channelData !! i.

Inductive Verdict := Correct | Wrong.

(** The component's state and refs, its [isOpen] prop, and the playback
    engine: the source nodes created so far (a node's id is its position),
    the calls that started or halted one, and the payloads of the
    [playAudio] calls waiting at [await resume()]. *)
Record State := {
  isPlaying : bool;                   (* useState(false) *)
  selectedOption : option string;     (* useState(null) *)
  quizResult : option Verdict;        (* useState(null) *)
  audioContextRef : bool;             (* useRef(null): a context exists *)
  sourceNodeRef : option nat;         (* useRef(null) *)
  isOpen : bool;                      (* prop *)
  sources : list Source;
  calls : list EngineCall;
  awaiting : list string
}.

Definition init : State := {|
  isPlaying := false; selectedOption := None; quizResult := None;
  audioContextRef := false; sourceNodeRef := None; isOpen := false;
  sources := []; calls := []; awaiting := [] |}.

Definition setIsPlaying (b : bool) (s : State) : State :=
  {| isPlaying := b; selectedOption := selectedOption s;
     quizResult := quizResult s; audioContextRef := audioContextRef s;
     sourceNodeRef := sourceNodeRef s; isOpen := isOpen s;
     sources := sources s; calls := calls s; awaiting := awaiting s |}.

Definition setQuiz (o : option string) (r : option Verdict) (s : State)
  : State :=
  {| isPlaying := isPlaying s; selectedOption := o;
     quizResult := r; audioContextRef := audioContextRef s;
     sourceNodeRef := sourceNodeRef s; isOpen := isOpen s;
     sources := sources s; calls := calls s; awaiting := awaiting s |}.

Definition setAudioContextRef (c : bool) (s : State) : State :=
  {| isPlaying := isPlaying s; selectedOption := selectedOption s;
     quizResult := quizResult s; audioContextRef := c;
     sourceNodeRef := sourceNodeRef s; isOpen := isOpen s;
     sources := sources s; calls := calls s; awaiting := awaiting s |}.

Definition setSourceNodeRef (r : option nat) (s : State) : State :=
  {| isPlaying := isPlaying s; selectedOption := selectedOption s;
     quizResult := quizResult s; audioContextRef := audioContextRef s;
     sourceNodeRef := r; isOpen := isOpen s;
     sources := sources s; calls := calls s; awaiting := awaiting s |}.

Definition withIsOpen (b : bool) (s : State) : State :=
  {| isPlaying := isPlaying s; selectedOption := selectedOption s;
     quizResult := quizResult s; audioContextRef := audioContextRef s;
     sourceNodeRef := sourceNodeRef s; isOpen := b;
     sources := sources s; calls := calls s; awaiting := awaiting s |}.

Definition withEngine (srcs : list Source) (cs : list EngineCall)
    (s : State) : State :=
  {| isPlaying := isPlaying s; selectedOption := selectedOption s;
     quizResult := quizResult s; audioContextRef := audioContextRef s;
     sourceNodeRef := sourceNodeRef s; isOpen := isOpen s;
     sources := srcs; calls := cs; awaiting := awaiting s |}.

Definition withAwaiting (a : list string) (s : State) : State :=
  {| isPlaying := isPlaying s; selectedOption := selectedOption s;
     quizResult := quizResult s; audioContextRef := audioContextRef s;
     sourceNodeRef := sourceNodeRef s; isOpen := isOpen s;
     sources := sources s; calls := calls s; awaiting := a |}.

Definition setStatus (id : nat) (st : SourceStatus) (srcs : list Source)
  : list Source :=
  match srcs !! id with
  | Some src => <[id := {| status := st; buffer := buffer src |}]> srcs
  | None => srcs
  end.

Definition statusOf (id : nat) (s : State) : option SourceStatus :=
  status <$> sources s !! id.

(** *** Code that may throw: state passing with exceptions *)

Definition M (A : Type) : Type := State -> State * completion A.

Definition ret {A} (a : A) : M A := fun s => (s, Normal a).

Definition throw {A} (e : Error) : M A := fun s => (s, Throw e).

Definition bind {A B} (m : M A) (k : A -> M B) : M B :=
  fun s =>
    match m s with
    | (s', Normal a) => k a s'
    | (s', Throw e) => (s', Throw e)
    end.

(** [try { m } catch (e) { h(e) }] *)
Definition try_catch {A} (m : M A) (h : Error -> M A) : M A :=
  fun s =>
    match m s with
    | (s', Throw e) => h e s'
    | r => r
    end.

Definition modify (f : State -> State) : M unit := fun s => (f s, Normal tt).

Definition gets {A} (f : State -> A) : M A := fun s => (s, Normal (f s)).

Definition lift {A} (c : completion A) : M A := fun s => (s, c).

#[export] Instance M_ret : MRet M := @ret.
#[export] Instance M_bind : MBind M := fun A B k m => bind m k.

(** *** The engine *)

(** [source.stop()]: a playing node is halted; its [ended] event
    follows. *)
Definition engineStop (ok : bool) (id : nat) : M unit :=
  if ok then
    modify (fun s =>
      withEngine
        (match statusOf id s with
         | Some Playing => setStatus id Halted (sources s)
         | _ => sources s
         end)
        (calls s ++ [CallStop id]) s)
  else throw EngineError.

(** [ctx.createBufferSource()] and [source.buffer = buffer] *)
Definition createBufferSource (ok : bool) (b : AudioBuffer) : M nat :=
  if ok then
    id ← gets (fun s => length (sources s));
    modify (fun s =>
      withEngine (sources s ++ [ {| status := Unstarted; buffer := b |} ])
                 (calls s) s);;
    ret id
  else throw EngineError.

Definition connect (ok : bool) : M unit :=
  if ok then ret tt else throw EngineError.

(** [source.start()] *)
Definition engineStart (ok : bool) (id : nat) : M unit :=
  if ok then
    modify (fun s =>
      withEngine (setStatus id Playing (sources s))
                 (calls s ++ [CallStart id]) s)
  else throw EngineError.

(** *** The component *)

Definition stopAudio (ok : bool) : M unit :=
  current ← gets sourceNodeRef;
  match current with
  | Some id =>
      try_catch (engineStop ok id) (fun _ => ret tt);;
      modify (setSourceNodeRef None)
  | None => ret tt
  end;;
  modify (setIsPlaying false).

(** [playAudio], from [stopAudio()] up to the test of the context's
    state; the result tells whether the call now waits at
    [await resume()]. *)
Definition playHead (env : Engine) : M bool :=
  stopAudio (stopOk env);;
  modify (setIsPlaying true);;
  ctx ← gets audioContextRef;
  (if ctx : bool then ret tt
   else if contextOk env then modify (setAudioContextRef true)
   else throw EngineError);;
  ret (suspended env).

(** [playAudio], from [decode(audioBase64)] to the end of the [try]
    block.  Every started node carries the handler
    [onended = () => setIsPlaying(false)], see [ended]. *)
Definition playTail (audioBase64 : string) (env : Engine) : M unit :=
  audioData ← lift (decode audioBase64);
  buffer ← lift (decodeAudioData audioData (createBufferOk env) 24000 1);
  source ← createBufferSource (createSourceOk env) buffer;
  connect (connectOk env);;
  engineStart (startOk env) source;;
  modify (setSourceNodeRef (Some source)).

(** The [catch] block of [playAudio]. *)
Definition playFailed (e : Error) : M unit := modify (setIsPlaying false).

(** The [try] block of [playAudio].  A call that finds the context
    suspended stops at [await resume()] and is continued by
    [resumeSettled]. *)
Definition playTry (b : string) (env : Engine) : M unit :=
  waits ← playHead env;
  if waits : bool
  then modify (fun s => withAwaiting (awaiting s ++ [b]) s)
  else playTail b env.

(** [playAudio].  [audioBase64] is the prop; [None] is [null]. *)
Definition playAudio (audioBase64 : option string) (env : Engine) : M unit :=
  match audioBase64 with
  | None => ret tt
  | Some b =>
      if String.eqb b "" then ret tt
      else try_catch (playTry b env) playFailed
  end.

(** What remains of the [try] block once [resume()] has settled:
    fulfilled ([ok]) or rejected. *)
Definition resumeTry (ok : bool) (b : string) (env : Engine) : M unit :=
  if ok then playTail b env else throw EngineError.

(** The oldest waiting [playAudio] continues. *)
Definition resumeSettled (ok : bool) (env : Engine) : M unit :=
  waiting ← gets awaiting;
  match waiting with
  | [] => ret tt
  | b :: rest =>
      modify (withAwaiting rest);;
      try_catch (resumeTry ok b env) playFailed
  end.

(** The engine delivers [ended] to node [id], which has finished or was
    halted: its handler runs. *)
Definition ended (id : nat) (s : State) : State :=
  match statusOf id s with
  | Some Playing | Some Halted =>
      setIsPlaying false
        (withEngine (setStatus id Ended (sources s)) (calls s) s)
  | _ => s
  end.

(** The effect on [isOpen]. *)
Definition openEffect (ok : bool) : M unit :=
  shown ← gets isOpen;
  if shown : bool then modify (setQuiz None None) else stopAudio ok.

(** The parent passes a new [isOpen]; an unchanged prop runs nothing. *)
Definition setIsOpen (b ok : bool) : M unit :=
  shown ← gets isOpen;
  if Bool.eqb b shown then ret tt
  else modify (withIsOpen b);; openEffect ok.

(** [handleOptionClick]; the second component lists the calls of
    [onAnswerQuiz]. *)
Definition handleOptionClick (opt : string) (quizData : option QuizData)
    (s : State) : State * list bool :=
  match quizResult s with
  | Some _ => (s, [])
  | None =>
      let isCorrect :=
        match quizData with
        | Some q => String.eqb opt (correctAnswer q)
        | None => false
        end in
      (setQuiz (Some opt) (Some (if isCorrect then Correct else Wrong)) s,
       [isCorrect])
  end.

Inductive Event :=
| EvSetOpen (b : bool) (ok : bool)
| EvPlay (audioBase64 : option string) (env : Engine)
| EvStop (ok : bool)
| EvResumeSettled (ok : bool) (env : Engine)
| EvEnded (id : nat)
| EvOption (opt : string) (quizData : option QuizData)
| EvUnmount (ok : bool).

(** One event: the state after it, the exception that left the handler
    if any, and the calls of [onAnswerQuiz]. *)
Definition step (e : Event) (s : State)
  : State * completion unit * list bool :=
  match e with
  | EvSetOpen b ok => (setIsOpen b ok s, [])
  | EvPlay a env => (playAudio a env s, [])
  | EvStop ok => (stopAudio ok s, [])
  | EvResumeSettled ok env => (resumeSettled ok env s, [])
  | EvEnded id => (ended id s, Normal tt, [])
  | EvOption o q =>
      let '(s', out) := handleOptionClick o q s in (s', Normal tt, out)
  | EvUnmount ok => (stopAudio ok s, [])
  end.

Fixpoint run (evs : list Event) (s : State) : State * list bool :=
  match evs with
  | [] => (s, [])
  | e :: evs' =>
      let '(s1, _, out) := step e s in
      let '(s2, out') := run evs' s1 in
      (s2, out ++ out')
  end.

(** *** Assertions on code that may throw *)

(** From a state satisfying [P], [m] ends in a state satisfying [Q] when
    it returns and [E] when it throws. *)
Definition hoare {A} (P : State -> Prop) (m : M A)
    (Q : A -> State -> Prop) (E : Error -> State -> Prop) : Prop :=
  forall s, P s ->
    match m s with
    | (s', Normal a) => Q a s'
    | (s', Throw e) => E e s'
    end.

(** Code that keeps an assertion, whether it returns or throws. *)
Definition keeps {A} (I : State -> Prop) (m : M A) : Prop :=
  hoare I m (fun _ => I) (fun _ => I).

(** The quiz fields have the given values. *)
Definition quizIs (o : option string) (r : option Verdict) (s : State)
  : Prop :=
  selectedOption s = o /\ quizResult s = r.

(** The state [stopAudio] leaves. *)
Definition stopped (ok : bool) (s : State) : State :=
  setIsPlaying false
    match sourceNodeRef s with
    | Some id =>
        setSourceNodeRef None
          (if ok then
             withEngine
               (match statusOf id s with
                | Some Playing => setStatus id Halted (sources s)
                | _ => sources s
                end)
               (calls s ++ [CallStop id]) s
           else s)
    | None => s
    end.

(** Every call of the engine returns, and the context is running. *)
Definition allOk (env : Engine) : Prop :=
  contextOk env = true /\ suspended env = false /\
  createBufferOk env = true /\ createSourceOk env = true /\
  connectOk env = true /\ startOk env = true /\ stopOk env = true.

(** Seen from the state [s1] that [stopAudio] left: one node with buffer
    [b] has been added and started, and the component holds it. *)
Definition started (s1 : State) (b : AudioBuffer) (s' : State) : Prop :=
  isPlaying s' = true /\
  sourceNodeRef s' = Some (length (sources s1)) /\
  calls s' = calls s1 ++ [CallStart (length (sources s1))] /\
  sources s' = sources s1 ++ [ {| status := Playing; buffer := b |} ] /\
  awaiting s' = awaiting s1.

(** No node is playing. *)
Definition Quiet (s : State) : Prop :=
  forall id, statusOf id s <> Some Playing.

(** No node is playing and no [playAudio] call is waiting. *)
Definition QuietIdle (s : State) : Prop := Quiet s /\ awaiting s = [].

(** The only node that may be playing is the one the component holds,
    and no [playAudio] call is waiting. *)
Definition Single (s : State) : Prop :=
  awaiting s = [] /\
  forall id, statusOf id s = Some Playing -> sourceNodeRef s = Some id.

(** Events during which no [stop()] throws and no context is found
    suspended. *)
Definition calm (e : Event) : Prop :=
  match e with
  | EvSetOpen _ ok | EvStop ok | EvUnmount ok => ok = true
  | EvPlay _ env => stopOk env = true /\ suspended env = false
  | _ => True
  end.

(** The event opens the modal. *)
Definition reopens (e : Event) : Prop :=
  match e with
  | EvSetOpen true _ => True
  | _ => False
  end.

End FactModal.

(* ===================================================================== *)
(** ** App.tsx *)
(* ===================================================================== *)

Module App.

(** The score board is an object keyed by category. *)
Record State := {
  currentCategory : option string;     (* useState(null) *)
  scores : gmap string Score
}.

(** The initial score board: every category at zero. *)
Definition initialScores : gmap string Score :=
  foldl (fun initial c => <[c := {| correct := 0; wrong := 0 |}]> initial)
        ∅ CATEGORIES.

Definition init : State :=
  {| currentCategory := None; scores := initialScores |}.

(** [setCurrentCategory(category)], as [handleCategorySelect] does. *)
Definition setCurrentCategory (category : string) (s : State) : State :=
  {| currentCategory := Some category; scores := scores s |}.

(** The updater passed to [setScores]; reading [.correct] of a missing
    entry throws. *)
Definition recordAnswer (category : string) (isCorrect : bool)
    (prev : gmap string Score) : completion (gmap string Score) :=
  match prev !! category with
  | Some entry =>
      Normal (<[category :=
                  {| correct := correct entry + (if isCorrect then 1 else 0);
                     wrong := wrong entry + (if isCorrect then 0 else 1) |}]>
                prev)
  | None => Throw TypeError
  end.

(** [handleQuizAnswer]: [!currentCategory] holds of [null] and of the
    empty string. *)
Definition handleQuizAnswer (isCorrect : bool) (s : State)
  : completion State :=
  match currentCategory s with
  | None => Normal s
  | Some c =>
      if String.eqb c "" then Normal s
      else
        match recordAnswer c isCorrect (scores s) with
        | Normal next =>
            Normal {| currentCategory := currentCategory s; scores := next |}
        | Throw e => Throw e
        end
  end.

End App.

(* ===================================================================== *)
(** ** components/Dartboard.tsx: the calls of a throw, and the labels *)
(* ===================================================================== *)

Module DartboardView.

Import Dartboard.

(** The [onHit] calls among the calls made. *)
Definition hits (calls : list Call) : list (option string) :=
  omap (fun c => match c with
                 | OnHit hitCategory => Some hitCategory
                 | SetGameState _ => None
                 end) calls.

(** [run], together with the calls made on the way.  Nobody answers
    them: the prop changes through [EvGameState] only. *)
Fixpoint runCalls {N : Type} `{Number N} (evs : list (Event N)) (s : State N)
  : State N * list Call :=
  match evs with
  | [] => (s, [])
  | e :: evs' =>
      let '(s1, out) := step e s in
      let '(s2, out') := runCalls evs' s1 in
      (s2, out ++ out')
  end.

(** The parent is not part of the sources.  It is taken as a parameter:
    [parent g] is the prop it passes in answer to [setGameState(g)], before
    the next event reaches the board. *)
Definition answer {N : Type} `{Number N} (parent : GameState -> GameState)
    (calls : list Call) (s : State N) : State N :=
  foldl (fun s' c => match c with
                     | SetGameState g => setGameState (parent g) s'
                     | OnHit _ => s'
                     end) s calls.

(** [runCalls] under such a parent. *)
Fixpoint runWith {N : Type} `{Number N} (parent : GameState -> GameState)
    (evs : list (Event N)) (s : State N) : State N * list Call :=
  match evs with
  | [] => (s, [])
  | e :: evs' =>
      let '(s1, out) := step e s in
      let '(s2, out') := runWith parent evs' (answer parent out s1) in
      (s2, out ++ out')
  end.

(** The event puts the board into the spinning state. *)
Definition startsSpin {N : Type} (e : Event N) : Prop :=
  match e with
  | EvGameState SPINNING => True
  | _ => False
  end.

(** What a click does in a state the component reaches while the board
    spins, and what follows once the parent passes a state [g] other than
    [SPINNING]. *)
Definition ThrowSpec (N : Type) `{Number N} : Prop :=
  forall (evs : list (Event N)) (t : Throw N),
    let s := run evs init in
    gameState s = SPINNING ->
    let s1 := fst (handleThrow t s) in
    snd (handleThrow t s)
    = [SetGameState THROWN; OnHit (resolve (atan2Deg t) (rotation s))] /\
    darts s1 = [ {| dart_x := hitX t; dart_y := hitY t;
                    dart_rotation := tilt t |} ] /\
    gameState s1 = SPINNING /\
    rotation s1 = rotation s /\
    pendingFrames s1 = pendingFrames s /\
    pendingFrames s1 <> [] /\
    (forall time,
       rotation (fst (step (EvFrame time) s1))
       = rotation (fst (step (EvFrame time) s))) /\
    (forall g, g <> SPINNING ->
       let s2 := setGameState g s1 in
       gameState s2 = g /\
       pendingFrames s2 = [] /\
       rotation s2 = rotation s /\
       forall evs', Forall (fun e => ~ startsSpin e) evs' ->
         rotation (run evs' s2) = rotation s /\
         darts (run evs' s2) = darts s1 /\
         pendingFrames (run evs' s2) = [] /\
         snd (runCalls evs' s2) = []).

(** The frame requests outstanding in a state the component reaches. *)
Definition FrameSpec (N : Type) `{Number N} : Prop :=
  forall evs : list (Event N),
    let s := run evs init in
    (length (pendingFrames s) <= 1)%nat /\
    (gameState s = SPINNING <-> pendingFrames s <> []) /\
    (gameState s = SPINNING ->
       pendingFrames s = [animationFrameRef s] /\ speedRef s = lit 8).

(** The label of a slice:
    [d.data.length > 10 ? d.data.substring(0, 8) + '..' : d.data]. *)
Definition sliceLabel (data : string) : string :=
  if (10 <? String.length data)%nat
  then String.append (String.substring 0 8 data) ".."
  else data.

End DartboardView.

(* ===================================================================== *)
(** ** components/FactModal.tsx: the buttons *)
(* ===================================================================== *)

Module FactModalView.

Import FactModal.

(** The classes appended to [btnClass] for one option of the quiz
    (lines 260-270). *)
Inductive OptionClass :=
| Unanswered     (* bg-white border-indigo-100 ... *)
| Green          (* border-green-500 bg-green-50 text-green-900 *)
| Red            (* border-red-500 bg-red-50 text-red-900 opacity-70 *)
| Gray.          (* border-transparent bg-gray-100 text-gray-400 *)

(** [option === selectedOption]; [selectedOption] may be [null]. *)
Definition isSelected (opt : string) (selected : option string) : bool :=
  match selected with
  | Some o => String.eqb opt o
  | None => false
  end.

Definition btnClass (s : State) (quizData : QuizData) (opt : string)
  : OptionClass :=
  match quizResult s with
  | None => Unanswered
  | Some _ =>
      if String.eqb opt (correctAnswer quizData) then Green
      else if isSelected opt (selectedOption s)
              && negb (String.eqb opt (correctAnswer quizData))
      then Red
      else Gray
  end.

(** [disabled={quizResult !== null}] *)
Definition disabled (s : State) : bool :=
  match quizResult s with
  | Some _ => true
  | None => false
  end.

(** The marks drawn inside an option button (lines 280-285): the check
    mark and the cross. *)
Definition checkMark (s : State) (quizData : QuizData) (opt : string) : bool :=
  disabled s && String.eqb opt (correctAnswer quizData).

Definition crossMark (s : State) (quizData : QuizData) (opt : string) : bool :=
  disabled s && isSelected opt (selectedOption s)
  && negb (String.eqb opt (correctAnswer quizData)).

(** The audio button, [onClick={isPlaying ? stopAudio : playAudio}]. *)
Definition audioButton (audioBase64 : option string) (env : Engine) : M unit :=
  playing ← gets isPlaying;
  if playing : bool then stopAudio (stopOk env) else playAudio audioBase64 env.

(** The event finds the audio context running, not suspended. *)
Definition running (e : Event) : Prop :=
  match e with
  | EvPlay _ env => suspended env = false
  | _ => True
  end.

(** While the component says it is playing, it holds a node and that
    node is playing. *)
Definition Audible (s : State) : Prop :=
  isPlaying s = true ->
  exists id, sourceNodeRef s = Some id /\ statusOf id s = Some Playing.

(** No [playAudio] call waits and the playing flag is backed by a playing
    node. *)
Definition Backed (s : State) : Prop := awaiting s = [] /\ Audible s.

End FactModalView.

(* ===================================================================== *)
(** ** App.tsx: topics, the modal and the score display *)
(* ===================================================================== *)

Module AppFlow.

(** ['fact' | 'quiz'] *)
Inductive ModalView := FactView | QuizView.

(** What [fetchTopicContent] resolves to when it is not [null]. *)
Record TopicContent := { fact : string; quiz : QuizData }.

(** The state of [App]: the category and the scores as in [App.State],
    the other [useState] cells, and the promises still pending: the
    [fetchTopicContent] calls, each with the [category] its continuation
    closes over, and the number of [Promise.all] pairs of assets. *)
Record State := {
  board : App.State;
  gameState : GameState;              (* useState(GameState.IDLE) *)
  currentFact : option string;        (* useState(null) *)
  currentQuiz : option QuizData;      (* useState(null) *)
  currentImage : option string;       (* useState(null) *)
  currentAudio : option string;       (* useState(null) *)
  modalOpen : bool;                   (* useState(false) *)
  initialModalView : ModalView;       (* useState('fact') *)
  isAssetsLoading : bool;             (* useState(false) *)
  isAmbientMode : bool;               (* useState(false) *)
  fetches : list (option string);
  assetLoads : nat
}.

Definition init : State := {|
  board := App.init; gameState := IDLE;
  currentFact := None; currentQuiz := None;
  currentImage := None; currentAudio := None;
  modalOpen := false; initialModalView := FactView;
  isAssetsLoading := false; isAmbientMode := false;
  fetches := []; assetLoads := 0 |}.

(** [handleCategorySelect(category, view)] up to its [await]: lines
    36-48 and the call of [fetchTopicContent].  A [category] of [None] is
    [undefined]. *)
Definition handleCategorySelect (category : option string) (view : ModalView)
    (s : State) : State :=
  {| board :=
       match category with
       | Some c => App.setCurrentCategory c (board s)
       | None => {| App.currentCategory := None;
                    App.scores := App.scores (board s) |}
       end;
     gameState := FETCHING;
     currentFact := None; currentQuiz := None;
     currentImage := None; currentAudio := None;
     modalOpen := true; initialModalView := view;
     isAssetsLoading := false; isAmbientMode := false;
     fetches := fetches s ++ [category]; assetLoads := assetLoads s |}.

(** The template literal of line 70. *)
Definition fallbackFact (category : option string) : string :=
  "Excuses, we konden geen informatie vinden over "
    +:+ default "undefined" category +:+ ". Probeer het nog eens.".

(** [handleCategorySelect] after its [await], lines 53-72: [content] is
    what [fetchTopicContent(category)] resolved to. *)
Definition contentArrived (category : option string)
    (content : option TopicContent) (s : State) : State :=
  match content with
  | Some c =>
      {| board := board s; gameState := SHOWING_CONTENT;
         currentFact := Some (fact c); currentQuiz := Some (quiz c);
         currentImage := currentImage s; currentAudio := currentAudio s;
         modalOpen := modalOpen s; initialModalView := initialModalView s;
         isAssetsLoading := true; isAmbientMode := isAmbientMode s;
         fetches := fetches s; assetLoads := S (assetLoads s) |}
  | None =>
      {| board := board s; gameState := SHOWING_CONTENT;
         currentFact := Some (fallbackFact category);
         currentQuiz := currentQuiz s;
         currentImage := currentImage s; currentAudio := currentAudio s;
         modalOpen := modalOpen s; initialModalView := initialModalView s;
         isAssetsLoading := isAssetsLoading s;
         isAmbientMode := isAmbientMode s;
         fetches := fetches s; assetLoads := assetLoads s |}
  end.

(** The callback of [Promise.all([...]).then], lines 63-67. *)
Definition assetsArrived (img audio : option string) (s : State) : State :=
  {| board := board s; gameState := gameState s;
     currentFact := currentFact s; currentQuiz := currentQuiz s;
     currentImage := img; currentAudio := audio;
     modalOpen := modalOpen s; initialModalView := initialModalView s;
     isAssetsLoading := false; isAmbientMode := isAmbientMode s;
     fetches := fetches s; assetLoads := pred (assetLoads s) |}.

(** [CATEGORIES[Math.floor(Math.random() * CATEGORIES.length)]], for the
    value [u] that [Math.random()] returned, in exact arithmetic. *)
Definition randomCat (u : Q) : option string :=
  let i := Qfloor (u * inject_Z (Z.of_nat (length CATEGORIES))) in
  if (i <? 0)%Z then None else CATEGORIES !! Z.to_nat i.

(** [handleRandom] *)
Definition handleRandom (u : Q) (s : State) : State :=
  handleCategorySelect (randomCat u) FactView s.

(** [handleCloseModal] *)
Definition handleCloseModal (s : State) : State :=
  {| board := board s; gameState := IDLE;
     currentFact := currentFact s; currentQuiz := currentQuiz s;
     currentImage := currentImage s; currentAudio := currentAudio s;
     modalOpen := false; initialModalView := initialModalView s;
     isAssetsLoading := isAssetsLoading s;
     isAmbientMode := isAmbientMode s;
     fetches := fetches s; assetLoads := assetLoads s |}.

Definition setIsAmbientMode (b : bool) (s : State) : State :=
  {| board := board s; gameState := gameState s;
     currentFact := currentFact s; currentQuiz := currentQuiz s;
     currentImage := currentImage s; currentAudio := currentAudio s;
     modalOpen := modalOpen s; initialModalView := initialModalView s;
     isAssetsLoading := isAssetsLoading s; isAmbientMode := b;
     fetches := fetches s; assetLoads := assetLoads s |}.

Definition withBoard (b : App.State) (s : State) : State :=
  {| board := b; gameState := gameState s;
     currentFact := currentFact s; currentQuiz := currentQuiz s;
     currentImage := currentImage s; currentAudio := currentAudio s;
     modalOpen := modalOpen s; initialModalView := initialModalView s;
     isAssetsLoading := isAssetsLoading s;
     isAmbientMode := isAmbientMode s;
     fetches := fetches s; assetLoads := assetLoads s |}.

(** A pending fetch has resolved and is no longer pending. *)
Definition withFetches (pending : list (option string)) (s : State) : State :=
  {| board := board s; gameState := gameState s;
     currentFact := currentFact s; currentQuiz := currentQuiz s;
     currentImage := currentImage s; currentAudio := currentAudio s;
     modalOpen := modalOpen s; initialModalView := initialModalView s;
     isAssetsLoading := isAssetsLoading s;
     isAmbientMode := isAmbientMode s;
     fetches := pending; assetLoads := assetLoads s |}.

(** [handleQuizAnswer] on the whole state. *)
Definition handleQuizAnswer (isCorrect : bool) (s : State)
  : completion State :=
  match App.handleQuizAnswer isCorrect (board s) with
  | Normal b => Normal (withBoard b s)
  | Throw e => Throw e
  end.

Inductive Event :=
| EvSelect (category : string) (view : ModalView)  (* a button of the grid *)
| EvRandom (u : Q)                                 (* the shuffle button *)
| EvContent (i : nat) (content : option TopicContent)
                                    (* pending fetch [i] resolves *)
| EvAssets (img audio : option string)  (* a pending pair of assets resolves *)
| EvAnswer (isCorrect : bool)           (* the modal calls [onAnswerQuiz] *)
| EvClose                               (* the modal calls [onClose] *)
| EvAmbient (b : bool).                 (* the ambient mode buttons *)

Definition step (e : Event) (s : State) : completion State :=
  match e with
  | EvSelect category view =>
      Normal (handleCategorySelect (Some category) view s)
  | EvRandom u => Normal (handleRandom u s)
  | EvContent i content =>
      match fetches s !! i with
      | Some category =>
          Normal (contentArrived category content
                    (withFetches (delete i (fetches s)) s))
      | None => Normal s
      end
  | EvAssets img audio =>
      match assetLoads s with
      | O => Normal s
      | S _ => Normal (assetsArrived img audio s)
      end
  | EvAnswer isCorrect => handleQuizAnswer isCorrect s
  | EvClose => Normal (handleCloseModal s)
  | EvAmbient b => Normal (setIsAmbientMode b s)
  end.

(** The events in order; an exception ends the run. *)
Fixpoint run (evs : list Event) (s : State) : completion State :=
  match evs with
  | [] => Normal s
  | e :: evs' =>
      match step e s with
      | Normal s' => run evs' s'
      | Throw err => Throw err
      end
  end.

(** Events as the page produces them: the grid offers the categories, and
    [Math.random()] is at least 0 and below 1. *)
Definition fromPage (e : Event) : Prop :=
  match e with
  | EvSelect category _ => category ∈ CATEGORIES
  | EvRandom u => (0 <= u /\ u < 1)%Q
  | _ => True
  end.

(** *** The score display *)

(** Line 207: the condition of the score badge. *)
Definition badge (entry : Score) : bool :=
  ((0 <? correct entry) || (0 <? wrong entry))%Z.

(** Line 245. *)
Definition total (entry : Score) : Z := (correct entry + wrong entry)%Z.

(** Line 246: a category has a card in the summary unless
    [total === 0]. *)
Definition card (entry : Score) : bool := negb (total entry =? 0)%Z.

(** Line 263:
    [Object.values(scores).every(s => s.correct === 0 && s.wrong === 0)]. *)
Definition noScoresYet (scores : gmap string Score) : bool :=
  forallb (fun entry => (correct entry =? 0)%Z && (wrong entry =? 0)%Z)
          (snd <$> map_to_list scores).

(** *** What holds of every state the page reaches *)

Record Sound (s : State) : Prop := {
  sound_keys : forall c, is_Some (App.scores (board s) !! c) <-> c ∈ CATEGORIES;
  sound_counts : forall c entry, App.scores (board s) !! c = Some entry ->
    (0 <= correct entry /\ 0 <= wrong entry)%Z;
  sound_category : forall c, App.currentCategory (board s) = Some c ->
    c ∈ CATEGORIES;
  sound_loading : gameState s = FETCHING ->
    currentFact s = None /\ currentQuiz s = None /\ modalOpen s = true;
  sound_quiz : currentQuiz s <> None -> currentFact s <> None;
  sound_open : modalOpen s = true -> gameState s <> IDLE;
  sound_states : gameState s = IDLE \/ gameState s = FETCHING \/
                 gameState s = SHOWING_CONTENT;
  sound_assets : isAssetsLoading s = true -> (0 < assetLoads s)%nat
}.

End AppFlow.

(* ===================================================================== *)
(** ** Concrete inputs *)
(* ===================================================================== *)

Module Scenario.

(** A board that has spun for three frames: the first frame only records
    its time, the next two advance the rotation to 16; after two frames it
    is at 8. *)
Definition spinTwo : list (Dartboard.Event float) :=
  [Dartboard.EvGameState SPINNING; Dartboard.EvFrame 16%float;
   Dartboard.EvFrame 32%float].

Definition spunTwice : Dartboard.State float :=
  Dartboard.run spinTwo Dartboard.init.

(** A board that has spun for five frames and stands at 32; after four
    frames it is at 24. *)
Definition spinFour : list (Dartboard.Event float) :=
  [Dartboard.EvGameState SPINNING; Dartboard.EvFrame 16%float;
   Dartboard.EvFrame 32%float; Dartboard.EvFrame 48%float;
   Dartboard.EvFrame 64%float].

Definition spunFourTimes : Dartboard.State float :=
  Dartboard.run spinFour Dartboard.init.

(** A value returned by [Math.atan2], about -82 degrees. *)
Definition atan2Result : float := (-0x1.6e6127ff9d972p+0)%float.

(** A throw at radius 48.2 whose angle is [atan2Result]. *)
Definition throwNear8 : Dartboard.Throw float :=
  {| Dartboard.hitX := 0x1.ad64b1389068bp+2%float;
     Dartboard.hitY := (-0x1.7de95a77bb69ep+5)%float;
     Dartboard.atan2Deg := Dartboard.toDegrees atan2Result;
     Dartboard.tilt := 0%float |}.

(** Another value returned by [Math.atan2], -1.151917306316258, about
    -66 degrees. *)
Definition atan2Near24 : float := (-0x1.26e40d7653225p+0)%float.

(** 359.9, read as a rational and as the nearest binary64 value. *)
Definition deg359_9 : Q := 3599 # 10.
Definition deg359_9_binary64 : float := 0x1.67e6666666666p+8%float.

(** An engine whose every call returns, with a running context. *)
Definition engineOk : Engine :=
  {| contextOk := true; suspended := false; createBufferOk := true;
     createSourceOk := true; connectOk := true; startOk := true;
     stopOk := true |}.

(** An engine whose context is suspended when [playAudio] looks at it. *)
Definition engineSuspended : Engine :=
  {| contextOk := true; suspended := true; createBufferOk := true;
     createSourceOk := true; connectOk := true; startOk := true;
     stopOk := true |}.

(** An engine that cannot create a context. *)
Definition engineNoContext : Engine :=
  {| contextOk := false; suspended := false; createBufferOk := true;
     createSourceOk := true; connectOk := true; startOk := true;
     stopOk := true |}.

(** Four bytes, two samples. *)
Definition payload : string := "AAECAw==".

(** Three bytes. *)
Definition oddPayload : string := "AAEC".

(** The modal is open and [payload] is playing. *)
Definition playing : FactModal.State :=
  fst (FactModal.run
         [FactModal.EvSetOpen true true;
          FactModal.EvPlay (Some payload) engineOk]
         FactModal.init).

End Scenario.

Import Scenario.

(* ===================================================================== *)
(** * Properties *)
(* ===================================================================== *)

Module DartboardFacts.

Import Dartboard.

(** ** Exact arithmetic *)

Section ExactArithmetic.
Local Open Scope Q_scope.

Lemma Qltb_true (x y : Q) : Qltb x y = true <-> x < y.
Proof.
  unfold Qltb. rewrite Bool.negb_true_iff.
  split; intros Hxy.
  - apply Qnot_le_lt. intros Hle. apply Qle_bool_iff in Hle. congruence.
  - destruct (Qle_bool y x) eqn:E; [|reflexivity].
    apply Qle_bool_iff in E. apply Qle_not_lt in E. contradiction.
Qed.

Lemma Qltb_false (x y : Q) : Qltb x y = false <-> y <= x.
Proof.
  unfold Qltb. rewrite Bool.negb_false_iff. apply Qle_bool_iff.
Qed.

(** Truncation is within one unit of its argument. *)
Lemma Qtrunc_near (q : Q) :
  -1 < q - inject_Z (Qtrunc q) /\ q - inject_Z (Qtrunc q) < 1.
Proof.
  destruct q as [n d]. unfold Qtrunc, Qlt, Qminus, Qplus, Qopp, inject_Z.
  simpl Qnum; simpl Qden.
  pose proof (Z.quot_rem' n (Z.pos d)) as Hqr.
  pose proof (Z.rem_bound_abs n (Z.pos d) ltac:(lia)) as Hb.
  set (k := Z.quot n (Z.pos d)) in *.
  set (r := Z.rem n (Z.pos d)) in *.
  rewrite !Pos2Z.inj_mul. lia.
Qed.

Lemma Qrem_360_range (x : Q) : -360 < Qrem x 360 /\ Qrem x 360 < 360.
Proof.
  unfold Qrem. pose proof (Qtrunc_near (x / 360)) as [Hlo Hhi].
  set (k := inject_Z (Qtrunc (x / 360))) in *.
  assert (Hx : x == 360 * (x / 360)) by (field).
  set (t := x / 360) in *. lra.
Qed.

Lemma Qrem_360_multiple (x : Q) :
  exists k : Z, Qrem x 360 == x - 360 * inject_Z k.
Proof. exists (Qtrunc (x / 360)). reflexivity. Qed.

(** The largest integer below [x] is the only integer within one unit
    below it. *)
Lemma Qfloor_unique (x : Q) (k : Z) :
  inject_Z k <= x -> x < inject_Z k + 1 -> Qfloor x = k.
Proof.
  intros Hlo Hhi.
  pose proof (Qfloor_le x) as H1. pose proof (Qlt_floor x) as H2.
  rewrite inject_Z_plus in H2. change (inject_Z 1) with 1 in H2.
  assert (Ha : inject_Z (Qfloor x) < inject_Z k + 1) by lra.
  assert (Hb : inject_Z k < inject_Z (Qfloor x) + 1) by lra.
  change 1 with (inject_Z 1) in Ha, Hb.
  rewrite <- inject_Z_plus in Ha, Hb.
  rewrite <- Zlt_Qlt in Ha, Hb. lia.
Qed.

Lemma effectiveAngle_range (h rot : Q) :
  0 <= effectiveAngle h rot /\ effectiveAngle h rot < 360.
Proof.
  unfold effectiveAngle. cbn [nrem nsub nltb nadd lit Exact].
  change (inject_Z 360) with 360. change (inject_Z 0) with 0.
  pose proof (Qrem_360_range (h - rot)) as [Hlo Hhi].
  destruct (Qltb (Qrem (h - rot) 360) 0) eqn:E.
  - apply Qltb_true in E. lra.
  - apply Qltb_false in E. lra.
Qed.

(** The code's two steps compute the remainder of the floored
    division. *)
Lemma effectiveAngle_floored (h rot : Q) :
  effectiveAngle h rot
  == (h - rot) - 360 * inject_Z (Qfloor ((h - rot) / 360)).
Proof.
  pose proof (effectiveAngle_range h rot) as [Hlo Hhi].
  assert (Hk : exists k : Z, effectiveAngle h rot == (h - rot) - 360 * inject_Z k).
  { unfold effectiveAngle. cbn [nrem nsub nltb nadd lit Exact].
    change (inject_Z 360) with 360. change (inject_Z 0) with 0.
    destruct (Qrem_360_multiple (h - rot)) as [k Hk].
    destruct (Qltb (Qrem (h - rot) 360) 0).
    - exists (k - 1)%Z. rewrite Hk. unfold Z.sub.
      rewrite inject_Z_plus, inject_Z_opp.
      change (inject_Z 1) with 1. ring.
    - exists k. exact Hk. }
  destruct Hk as [k Hk]. rewrite Hk in Hlo, Hhi.
  assert (Hd : h - rot == 360 * ((h - rot) / 360)) by field.
  set (t := (h - rot) / 360) in *.
  rewrite (Qfloor_unique t k); [exact Hk | lra | lra].
Qed.

Lemma segmentSize_exact : @segmentSize Q _ == 45.
Proof. reflexivity. Qed.

Lemma index_exact (e : Q) : index e = Some (Qfloor (e / 45)).
Proof.
  unfold index. cbn [nfloor ndiv Exact]. f_equal.
  apply Qfloor_comp. rewrite segmentSize_exact. reflexivity.
Qed.

Lemma index_range (e : Q) :
  0 <= e -> e < 360 -> (0 <= Qfloor (e / 45) <= 7)%Z.
Proof.
  intros Hlo Hhi.
  assert (He : e == 45 * (e / 45)) by field.
  set (t := e / 45) in *.
  pose proof (Qfloor_le t) as H1. pose proof (Qlt_floor t) as H2.
  rewrite inject_Z_plus in H2. change (inject_Z 1) with 1 in H2.
  assert (Ha : inject_Z (-1) < inject_Z (Qfloor t)) by (change (inject_Z (-1)) with (-1); lra).
  assert (Hb : inject_Z (Qfloor t) < inject_Z 8) by (change (inject_Z 8) with 8; lra).
  rewrite <- Zlt_Qlt in Ha, Hb. lia.
Qed.

End ExactArithmetic.

(** ** The spinning board *)

Lemma GameState_eqb_eq (a b : GameState) : GameState_eqb a b = true <-> a = b.
Proof. destruct a, b; simpl; split; intros E; congruence. Qed.

Lemma GameState_eqb_neq (a b : GameState) : GameState_eqb a b = false <-> a <> b.
Proof. destruct a, b; simpl; split; intros E; congruence. Qed.

(** Every multiple of 8 in [0, 360) is [8 * k] for some [k < 45]. *)
Ltac each_grid_point z Hlo Hdiv :=
  let k := fresh "k" in
  let Hk := fresh "Hk" in
  destruct Hdiv as [k Hk]; subst z;
  let n := fresh "n" in
  assert (Hn : exists n : nat, k = Z.of_nat n /\ (n < 45)%nat)
    by (exists (Z.to_nat k); lia);
  destruct Hn as [n [-> Hn]];
  do 45 (destruct n as [|n]; [vm_compute; first [reflexivity | split; reflexivity]|]);
  exfalso; lia.

Lemma grid_step_exact (z : Z) :
  (0 <= z < 360)%Z -> (8 | z)%Z ->
  @nrem Q _ (nadd (lit z) (lit 8)) (lit 360) = lit ((z + 8) mod 360).
Proof. intros Hlo Hdiv. each_grid_point z Hlo Hdiv. Qed.

Lemma grid_step_binary64 (z : Z) :
  (0 <= z < 360)%Z -> (8 | z)%Z ->
  @nrem float _ (nadd (lit z) (lit 8)) (lit 360) = lit ((z + 8) mod 360).
Proof. intros Hlo Hdiv. each_grid_point z Hlo Hdiv. Qed.

Lemma grid_range_binary64 (z : Z) :
  (0 <= z < 360)%Z -> (8 | z)%Z ->
  PrimFloat.leb 0 (of_int z) = true /\ PrimFloat.ltb (of_int z) 360 = true.
Proof. intros Hlo Hdiv. each_grid_point z Hlo Hdiv. Qed.

Section SpinInvariant.
Context {N : Type} `{Number N}.
Hypothesis grid_step : forall z : Z,
  (0 <= z < 360)%Z -> (8 | z)%Z ->
  nrem (nadd (lit z) (lit 8)) (lit 360) = lit ((z + 8) mod 360).

Lemma OnGrid_step (r : N) :
  OnGrid r -> OnGrid (nrem (nadd r (lit 8)) (lit 360)).
Proof.
  intros (z & Hz & Hdiv & ->). exists ((z + 8) mod 360)%Z.
  split; [apply Z.mod_pos_bound; lia|]. split.
  - destruct Hdiv as [k ->].
    replace (k * 8 + 8)%Z with ((k + 1) * 8)%Z by lia.
    change 360%Z with (45 * 8)%Z. rewrite Zmult_mod_distr_r.
    apply Z.divide_factor_r.
  - apply grid_step; assumption.
Qed.

Lemma init_SpinInv : SpinInv (init (N := N)).
Proof.
  constructor; simpl.
  - exists 0%Z. split; [lia|]. split; [apply Z.divide_0_r | reflexivity].
  - left; reflexivity.
  - discriminate.
  - discriminate.
Qed.

(** Cancelling the recorded request empties the queue. *)
Lemma cancel_pending (s : State N) :
  SpinInv s -> pendingFrames (cancelAnimationFrame s) = [].
Proof.
  intros [_ Hf _ _]. unfold cancelAnimationFrame.
  destruct Hf as [Hf | (Hf & Hne & _)].
  - destruct (Nat.eqb (animationFrameRef s) 0); simpl; rewrite Hf; reflexivity.
  - apply Nat.eqb_neq in Hne. rewrite Hne. simpl. rewrite Hf. simpl.
    rewrite Nat.eqb_refl. reflexivity.
Qed.

Lemma cancel_empty (s : State N) :
  pendingFrames s = [] -> pendingFrames (cancelAnimationFrame s) = [].
Proof.
  intros Hp. unfold cancelAnimationFrame.
  destruct (Nat.eqb (animationFrameRef s) 0); simpl; rewrite Hp; reflexivity.
Qed.

Lemma cancel_fields (s : State N) :
  rotation (cancelAnimationFrame s) = rotation s /\
  gameState (cancelAnimationFrame s) = gameState s /\
  nextFrameId (cancelAnimationFrame s) = nextFrameId s.
Proof.
  unfold cancelAnimationFrame.
  destruct (Nat.eqb (animationFrameRef s) 0); simpl; auto.
Qed.

Lemma setGameState_rotation (g : GameState) (s : State N) :
  rotation (setGameState g s) = rotation s.
Proof.
  unfold setGameState, spinEffect.
  destruct (GameState_eqb g (gameState s)); [reflexivity|].
  simpl. destruct (GameState_eqb g SPINNING); simpl.
  - apply cancel_fields.
  - unfold cancelAnimationFrame at 1. simpl.
    destruct (Nat.eqb _ 0); simpl; apply cancel_fields.
Qed.

Lemma setGameState_SpinInv (g : GameState) (s : State N) :
  SpinInv s -> SpinInv (setGameState g s).
Proof.
  intros Hs. unfold setGameState.
  destruct (GameState_eqb g (gameState s)) eqn:Eg; [exact Hs|].
  pose proof (cancel_pending s Hs) as Hp.
  pose proof (cancel_fields s) as (Hr & _ & Hn).
  destruct Hs as [Hrot _ _ Hfresh].
  unfold spinEffect. simpl.
  destruct (GameState_eqb g SPINNING) eqn:Es.
  - apply GameState_eqb_eq in Es. subst g.
    constructor; simpl.
    + rewrite Hr. exact Hrot.
    + right. rewrite Hp, Hn. simpl. auto.
    + intros _. rewrite Hp. discriminate.
    + discriminate.
  - apply GameState_eqb_neq in Es.
    set (s1 := withGameState g (cancelAnimationFrame s)).
    assert (Hp1 : pendingFrames (cancelAnimationFrame s1) = [])
      by (apply cancel_empty; exact Hp).
    pose proof (cancel_fields s1) as Hf1. subst s1. simpl in Hf1.
    rewrite Hr, Hn in Hf1.
    destruct Hf1 as (Hr1 & Hg1 & Hn1).
    constructor.
    + rewrite Hr1. exact Hrot.
    + left. exact Hp1.
    + rewrite Hg1. intros ->. contradiction.
    + rewrite Hn1. exact Hfresh.
Qed.

Lemma frame_step (time : N) (s : State N) :
  step (EvFrame time) s =
  match pendingFrames s with
  | [] => (s, [])
  | _ => (animate time (dequeued s), [])
  end.
Proof. unfold step, dequeued. destruct (pendingFrames s); reflexivity. Qed.

(** What a frame does to the rotation while the board spins. *)
Lemma frame_rotation (time : N) (s : State N) :
  SpinInv s -> gameState s = SPINNING ->
  rotation (fst (step (EvFrame time) s)) =
  if nequal (lastTimeRef s) (lit 0) then rotation s
  else nrem (nadd (rotation s) (lit 8)) (lit 360).
Proof.
  intros Hs Hg. pose proof (inv_spinning s Hs Hg) as Hne.
  destruct (inv_frames s Hs) as [Hf | (Hf & _ & Hsp & _)]; [contradiction|].
  rewrite frame_step, Hf. unfold animate. simpl.
  destruct (nequal (lastTimeRef s) (lit 0)); simpl; rewrite Hg; simpl;
    rewrite ?Hsp; reflexivity.
Qed.

Lemma frame_SpinInv (time : N) (s : State N) :
  SpinInv s -> SpinInv (fst (step (EvFrame time) s)).
Proof.
  intros Hs. rewrite frame_step.
  destruct (inv_frames s Hs) as [Hf | (Hf & Hne & Hsp & Hg)];
    rewrite Hf; [exact Hs|].
  destruct Hs as [Hrot _ _ Hfresh].
  unfold animate. simpl.
  destruct (nequal (lastTimeRef s) (lit 0)); simpl; rewrite Hg; simpl;
    (constructor; simpl;
     [ rewrite ?Hsp; auto using OnGrid_step
     | right; rewrite Hf; simpl; auto
     | intros _; rewrite Hf; discriminate
     | discriminate ]).
Qed.

Lemma step_SpinInv (e : Event N) (s : State N) :
  SpinInv s -> SpinInv (fst (step e s)).
Proof.
  intros Hs. destruct e as [g | time | t].
  - apply setGameState_SpinInv, Hs.
  - apply frame_SpinInv, Hs.
  - simpl. unfold handleThrow.
    destruct (negb (GameState_eqb (gameState s) SPINNING)); [exact Hs|].
    simpl.
    destruct Hs as [Hrot Hf Hsp Hfresh]. constructor; simpl; assumption.
Qed.

Lemma run_SpinInv (evs : list (Event N)) (s : State N) :
  SpinInv s -> SpinInv (run evs s).
Proof.
  revert s. induction evs as [|e evs IH]; intros s Hs; simpl; [exact Hs|].
  apply IH, step_SpinInv, Hs.
Qed.

(** Outside the spinning state no event changes the rotation. *)
Lemma rotation_frozen (e : Event N) (s : State N) :
  SpinInv s -> gameState s <> SPINNING ->
  rotation (fst (step e s)) = rotation s.
Proof.
  intros Hs Hg. destruct e as [g | time | t].
  - apply setGameState_rotation.
  - rewrite frame_step.
    destruct (inv_frames s Hs) as [Hf | (_ & _ & _ & Hg')];
      [rewrite Hf; reflexivity | contradiction].
  - simpl. unfold handleThrow.
    apply GameState_eqb_neq in Hg. rewrite Hg. reflexivity.
Qed.

End SpinInvariant.

(** ** The resolver *)

(** The scenarios of the specification, in both arithmetics: with the board
    rotated by 90 a hit at compass angle 90 has effective angle 0 and falls
    in the first slice; with the board at 0 a hit at 359.9 falls in the
    last slice. *)
Example scenario_rotation_90 :
  effectiveAngle 90%Q 90%Q = 0%Q /\
  hitCategory (index (effectiveAngle 90%Q 90%Q)) = Some HISTORY /\
  effectiveAngle 90%float 90%float = 0%float /\
  hitCategory (index (effectiveAngle 90%float 90%float)) = Some HISTORY.
Proof. vm_compute. repeat split. Qed.

Example scenario_last_slice :
  index (effectiveAngle deg359_9 0%Q) = Some 7%Z /\
  hitCategory (index (effectiveAngle deg359_9 0%Q)) = Some ENTERTAINMENT /\
  index (effectiveAngle deg359_9_binary64 0%float) = Some 7%Z /\
  hitCategory (index (effectiveAngle deg359_9_binary64 0%float))
    = Some ENTERTAINMENT.
Proof. vm_compute. repeat split. Qed.

(** A dead-centre hit: [Math.atan2(0, 0)] is 0, the compass angle 90. *)
Example centre_hit :
  resolve (N := float) (toDegrees 0%float) 0%float = Some NATURE /\
  resolve 0%Q 0%Q = Some NATURE.
Proof. vm_compute. repeat split. Qed.

(** C1: evaluation at the failing input, in binary64.  After two advancing
    frames the board is at rotation 8, inside [0, 360).  A throw that lands
    within the board at the angle [atan2Result] has compass angle 8 - 2^-46;
    the difference -2^-46 is negative, and adding 360 to it rounds to 360.
    The index is then 8, above 7: no clamp is applied, [CATEGORIES[8]] is
    undefined and [onHit(undefined)] is scheduled.  The same happens at
    rotation 24 for the angle [atan2Near24]. *)
Lemma resolve_reaches_index_8 :
  rotation spunTwice = 8%float /\
  PrimFloat.leb 0 (rotation spunTwice) = true /\
  PrimFloat.ltb (rotation spunTwice) 360 = true /\
  PrimFloat.leb (hitX throwNear8 * hitX throwNear8
                 + hitY throwNear8 * hitY throwNear8)%float
                (270 * 270)%float = true /\
  index (effectiveAngle (hitAngleDeg (atan2Deg throwNear8))
                        (rotation spunTwice)) = Some 8%Z /\
  CATEGORIES !! Z.to_nat 8 = None /\
  snd (handleThrow throwNear8 spunTwice) = [SetGameState THROWN; OnHit None] /\
  rotation spunFourTimes = 24%float /\
  index (effectiveAngle (hitAngleDeg (toDegrees atan2Near24))
                        (rotation spunFourTimes)) = Some 8%Z /\
  resolve (toDegrees atan2Near24) (rotation spunFourTimes) = None.
Proof. vm_compute. repeat split. Qed.

(** Were the arithmetic exact, the index would lie between 0 and 7 for
    every rotation and every hit angle, dead-centre and boundary hits
    included, and [CATEGORIES[index]] would be a category: the index 8 of
    [resolve_reaches_index_8] is produced by rounding alone. *)
Lemma resolve_exact_in_range (deg rot : Q) :
  exists (i : Z) (c : string),
    index (effectiveAngle (hitAngleDeg deg) rot) = Some i /\
    i = Qfloor (effectiveAngle (hitAngleDeg deg) rot / 45)%Q /\
    (0 <= i <= 7)%Z /\
    CATEGORIES !! Z.to_nat i = Some c /\
    resolve deg rot = Some c.
Proof.
  set (e := effectiveAngle (hitAngleDeg deg) rot).
  destruct (effectiveAngle_range (hitAngleDeg deg) rot) as [Hlo Hhi].
  fold e in Hlo, Hhi.
  pose proof (index_range e Hlo Hhi) as Hi.
  set (i := Qfloor (e / 45)%Q) in *.
  assert (Hn : (Z.to_nat i < length CATEGORIES)%nat) by (simpl; lia).
  destruct (lookup_lt_is_Some_2 CATEGORIES (Z.to_nat i) Hn) as [c Hc].
  exists i, c. unfold resolve. fold e. rewrite index_exact. fold i.
  repeat split; try assumption; try lia.
  unfold hitCategory. destruct (Z.ltb_spec i 0); [lia | exact Hc].
Qed.

(** C7: evaluation at the failing input.  For rotation 8 and the compass
    angle 8 - 2^-46 (the angle of [throwNear8]) the code yields the
    effective angle 360, which is not below 360, and the index 8. *)
Lemma effectiveAngle_rounds_to_360 :
  let h := hitAngleDeg (toDegrees atan2Result) in
  h = 0x1.ffffffffffff0p+2%float /\
  PrimFloat.leb 0 h = true /\ PrimFloat.ltb h 360 = true /\
  nrem (nsub h (lit 8)) (lit 360) = (-0x1p-46)%float /\
  effectiveAngle h 8%float = 360%float /\
  PrimFloat.ltb (effectiveAngle h 8%float) 360 = false /\
  index (effectiveAngle h 8%float) = Some 8%Z.
Proof. vm_compute. repeat split. Qed.

(** ** The rotation *)

Lemma exact_in_range (r : Q) : OnGrid r -> (0 <= r /\ r < 360)%Q.
Proof.
  intros (z & Hz & _ & ->). unfold lit, Exact.
  split.
  - change 0%Q with (inject_Z 0). rewrite <- Zle_Qle. lia.
  - change 360%Q with (inject_Z 360). rewrite <- Zlt_Qlt. lia.
Qed.

Lemma binary64_in_range (r : float) :
  OnGrid r -> PrimFloat.leb 0 r = true /\ PrimFloat.ltb r 360 = true.
Proof.
  intros (z & Hz & Hdiv & ->). apply grid_range_binary64; assumption.
Qed.

Lemma spin_spec (N : Type) `{Number N} (inRange : N -> Prop) :
  (forall z : Z, (0 <= z < 360)%Z -> (8 | z)%Z ->
     nrem (nadd (lit z) (lit 8)) (lit 360) = lit ((z + 8) mod 360)) ->
  (forall r, OnGrid r -> inRange r) ->
  SpinSpec N inRange.
Proof.
  intros Hgrid Hrange evs s.
  assert (Hs : SpinInv s) by (apply run_SpinInv, init_SpinInv; exact Hgrid).
  split; [apply Hrange, Hs|]. split; [apply Hs|]. split.
  - intros time Hg. apply frame_rotation; assumption.
  - intros e Hg. apply rotation_frozen; assumption.
Qed.

(** C8, as stated, fails at the first frame of a spin: [lastTimeRef] is
    still 0, so the frame leaves the rotation at 0 although the board spins
    and (0 + 8) % 360 is 8. *)
Lemma first_frame_keeps_rotation :
  let s := run [EvGameState SPINNING] (init (N := float)) in
  gameState s = SPINNING /\
  pendingFrames s = [1%nat] /\
  rotation s = 0%float /\
  rotation (fst (step (EvFrame 16%float) s)) = 0%float /\
  nrem (nadd (rotation s) (lit 8)) (lit 360) = 8%float /\
  PrimFloat.eqb 0 8 = false.
Proof. vm_compute. repeat split. Qed.

(** C8 (amended): starting from rotation 0, in every state the component
    reaches the rotation is a multiple of 8 in [0, 360).  A frame that runs
    while the board spins replaces the rotation by (rotation + 8) % 360,
    except when [lastTimeRef] is 0, as at the first frame of a spin, where
    it leaves the rotation unchanged.  Outside the spinning state no event
    changes the rotation.  This holds in exact arithmetic and in
    binary64. *)
Theorem spin_rotation :
  SpinSpec Q (fun r => 0 <= r /\ r < 360)%Q /\
  SpinSpec float
    (fun r => PrimFloat.leb 0 r = true /\ PrimFloat.ltb r 360 = true).
Proof.
  split.
  - apply spin_spec; [exact grid_step_exact | exact exact_in_range].
  - apply spin_spec; [exact grid_step_binary64 | exact binary64_in_range].
Qed.

Lemma spin_rotation_witness :
  gameState (run spinTwo init) = SPINNING /\
  rotation (fst (step (EvFrame 48%float) (run spinTwo init))) = 16%float /\
  gameState (run (spinTwo ++ [EvGameState THROWN]) init) <> SPINNING /\
  rotation (fst (step (EvFrame 64%float)
                   (run (spinTwo ++ [EvGameState THROWN]) init)))
  = rotation (run (spinTwo ++ [EvGameState THROWN]) init).
Proof.
  destruct spin_rotation as [_ H64].
  destruct (H64 spinTwo) as (_ & _ & Htick & _).
  destruct (H64 (spinTwo ++ [EvGameState THROWN])) as (_ & _ & _ & Hfrozen).
  assert (Hs : gameState (run spinTwo init) = SPINNING)
    by (vm_compute; reflexivity).
  assert (Ht : gameState (run (spinTwo ++ [EvGameState THROWN]) init) <> SPINNING)
    by (vm_compute; discriminate).
  split; [exact Hs|]. split.
  - etransitivity; [exact (Htick 48%float Hs)|]. vm_compute. reflexivity.
  - split; [exact Ht|]. exact (Hfrozen (EvFrame 64%float) Ht).
Defined.

End DartboardFacts.

Module FactModalFacts.

Import FactModal.

(** ** Decoding *)

Section Decoding.

(** Induction over a list two elements at a time. *)
Lemma list_pair_ind {A} (P : list A -> Prop) :
  P [] -> (forall x, P [x]) -> (forall x y l, P l -> P (x :: y :: l)) ->
  forall l, P l.
Proof.
  intros Hnil Hone Hstep l.
  assert (H : P l /\ forall x, P (x :: l)).
  { induction l as [|y l [IH1 IH2]]; [auto|]. split; [apply IH2|].
    intros x. apply Hstep, IH1. }
  apply H.
Qed.

Lemma int16_words_length (bytes : list Z) :
  length (int16_words bytes) = (length bytes / 2)%nat.
Proof.
  induction bytes as [| x | x y l IH] using list_pair_ind; [reflexivity..|].
  cbn [int16_words length]. rewrite IH.
  change (S (S (length l))) with (1 * 2 + length l)%nat.
  rewrite Nat.div_add_l by lia. reflexivity.
Qed.

Lemma toInt16_range (w : Z) :
  (0 <= w < 65536)%Z -> (-32768 <= toInt16 w <= 32767)%Z.
Proof. intros Hw. unfold toInt16. destruct (Z.ltb_spec w 32768); lia. Qed.

Lemma int16_words_range (bytes : list Z) :
  Forall (fun b => 0 <= b < 256)%Z bytes ->
  Forall (fun w => -32768 <= w <= 32767)%Z (int16_words bytes).
Proof.
  induction bytes as [| x | x y l IH] using list_pair_ind; intros Hb;
    cbn [int16_words]; [constructor..|].
  inversion Hb as [|? ? Hx Hb']; subst. inversion Hb' as [|? ? Hy Hl]; subst.
  constructor; [apply toInt16_range; lia | auto].
Qed.

Lemma decode_bytes (base64 : string) (data : list Z) :
  decode base64 = Normal data -> Forall (fun b => 0 <= b < 256)%Z data.
Proof.
  unfold decode. destruct (atob base64) as [bin|]; [|discriminate].
  intros [= <-]. apply Forall_forall. intros b Hin.
  apply list_elem_of_In, in_map_iff in Hin. destruct Hin as (c & <- & _).
  apply Z.mod_pos_bound. lia.
Qed.

(** A view of an odd number of bytes cannot be made. *)
Lemma Int16Array_odd (data : list Z) :
  Nat.Odd (length data) -> Int16Array data = Throw RangeError.
Proof.
  intros [k Hk]. unfold Int16Array. rewrite Hk.
  rewrite Nat.add_comm, Nat.mul_comm, Nat.Div0.mod_add. reflexivity.
Qed.

Lemma Int16Array_even (data : list Z) :
  Nat.Even (length data) -> Int16Array data = Normal (int16_words data).
Proof.
  intros [k Hk]. unfold Int16Array. rewrite Hk.
  rewrite Nat.mul_comm, Nat.Div0.mod_mul. reflexivity.
Qed.

(** *** The loops of [decodeAudioData] *)

Lemma writeSample_shape (c i : nat) (v : Sample) (b : AudioBuffer) :
  numberOfChannels (writeSample c i v b) = numberOfChannels b /\
  bufferLength (writeSample c i v b) = bufferLength b /\
  sampleRate (writeSample c i v b) = sampleRate b /\
  length <$> channels (writeSample c i v b) = length <$> channels b.
Proof.
  unfold writeSample. simpl. repeat split.
  destruct (channels b !! c) as [cd|] eqn:E; [|reflexivity].
  rewrite list_fmap_insert, length_insert.
  apply list_insert_id. rewrite list_lookup_fmap, E. reflexivity.
Qed.

Lemma sampleAt_write (c i : nat) (v : Sample) (b : AudioBuffer) (c' i' : nat) :
  sampleAt (writeSample c i v b) c' i' =
  if decide (c' = c /\ i' = i)
  then (fun _ => v) <$> sampleAt b c i
  else sampleAt b c' i'.
Proof.
  unfold sampleAt, writeSample. simpl.
  destruct (channels b !! c) as [cd|] eqn:E.
  - destruct (decide (c' = c)) as [->|Hc].
    + rewrite list_lookup_insert_eq by (eapply lookup_lt_Some; eauto).
      rewrite E. simpl.
      destruct (decide (i' = i)) as [->|Hi].
      * rewrite decide_True by auto.
        destruct (cd !! i) eqn:Ei.
        -- rewrite list_lookup_insert_eq by (eapply lookup_lt_Some; eauto).
           reflexivity.
        -- rewrite list_insert_ge by (apply lookup_ge_None; auto).
           rewrite Ei. reflexivity.
      * rewrite decide_False by tauto.
        rewrite list_lookup_insert_ne by auto. reflexivity.
    + rewrite decide_False by tauto.
      rewrite list_lookup_insert_ne by auto. reflexivity.
  - destruct (decide (c' = c /\ i' = i)) as [[-> ->]|]; [|reflexivity].
    rewrite E. reflexivity.
Qed.

Lemma fillChannel_S ws nc c n b :
  fillChannel ws nc c (S n) b =
  writeSample c n (dequantize ws (n * nc + c)) (fillChannel ws nc c n b).
Proof. unfold fillChannel. rewrite seq_S, foldl_app. reflexivity. Qed.

Lemma fillChannel_shape ws nc c n b :
  numberOfChannels (fillChannel ws nc c n b) = numberOfChannels b /\
  bufferLength (fillChannel ws nc c n b) = bufferLength b /\
  sampleRate (fillChannel ws nc c n b) = sampleRate b /\
  length <$> channels (fillChannel ws nc c n b) = length <$> channels b.
Proof.
  induction n as [|n (H1 & H2 & H3 & H4)]; [auto|].
  rewrite fillChannel_S.
  pose proof (writeSample_shape c n (dequantize ws (n * nc + c))
                (fillChannel ws nc c n b)) as (W1 & W2 & W3 & W4).
  rewrite W1, W2, W3, W4. auto.
Qed.

Lemma fillChannel_sample ws nc c n b c' i' :
  sampleAt (fillChannel ws nc c n b) c' i' =
  if decide (c' = c /\ i' < n)%nat
  then (fun _ => dequantize ws (i' * nc + c)) <$> sampleAt b c i'
  else sampleAt b c' i'.
Proof.
  induction n as [|n IH].
  - rewrite decide_False by lia. reflexivity.
  - rewrite fillChannel_S, sampleAt_write.
    destruct (decide (c' = c /\ i' = n)) as [[-> ->]|Hne].
    + rewrite decide_True by lia.
      rewrite IH. rewrite decide_False by lia. reflexivity.
    + rewrite IH.
      destruct (decide (c' = c /\ (i' < n)%nat)) as [[-> Hlt]|Hge].
      * rewrite decide_True by lia. reflexivity.
      * rewrite decide_False by lia. reflexivity.
Qed.

Lemma fillChannels_S ws nc n m b :
  fillChannels ws nc n (S m) b =
  fillChannel ws nc m n (fillChannels ws nc n m b).
Proof. unfold fillChannels. rewrite seq_S, foldl_app. reflexivity. Qed.

Lemma fillChannels_shape ws nc n m b :
  numberOfChannels (fillChannels ws nc n m b) = numberOfChannels b /\
  bufferLength (fillChannels ws nc n m b) = bufferLength b /\
  sampleRate (fillChannels ws nc n m b) = sampleRate b /\
  length <$> channels (fillChannels ws nc n m b) = length <$> channels b.
Proof.
  induction m as [|m (H1 & H2 & H3 & H4)]; [auto|].
  rewrite fillChannels_S.
  pose proof (fillChannel_shape ws nc m n (fillChannels ws nc n m b))
    as (W1 & W2 & W3 & W4).
  rewrite W1, W2, W3, W4. auto.
Qed.

Lemma fillChannels_sample ws nc n m b c i :
  sampleAt (fillChannels ws nc n m b) c i =
  if decide (c < m /\ i < n)%nat
  then (fun _ => dequantize ws (i * nc + c)) <$> sampleAt b c i
  else sampleAt b c i.
Proof.
  induction m as [|m IH].
  - rewrite decide_False by lia. reflexivity.
  - rewrite fillChannels_S, fillChannel_sample.
    destruct (decide (c = m /\ (i < n)%nat)) as [[-> Hlt]|Hne].
    + rewrite decide_True by lia. rewrite IH.
      rewrite decide_False by lia. reflexivity.
    + rewrite IH.
      destruct (decide ((c < m)%nat /\ (i < n)%nat)) as [[Hc Hlt]|Hge].
      * rewrite decide_True by lia. reflexivity.
      * rewrite decide_False by lia. reflexivity.
Qed.

Lemma createBuffer_sample nc n rate c i :
  (c < nc)%nat -> (i < n)%nat ->
  sampleAt (createBuffer nc n rate) c i = Some (Val 0).
Proof.
  intros Hc Hi. unfold sampleAt, createBuffer. simpl.
  rewrite lookup_replicate_2 by assumption. simpl.
  apply lookup_replicate_2. assumption.
Qed.

Lemma decodeAudioData_unfold data ok rate nc :
  decodeAudioData data ok rate nc =
  match Int16Array data with
  | Throw e => Throw e
  | Normal ws =>
      if negb ok then Throw EngineError
      else Normal (fillChannels ws nc (length ws / nc) nc
                     (createBuffer nc (length ws / nc) rate))
  end.
Proof. reflexivity. Qed.

End Decoding.

(** ** Reasoning about code that may throw *)

Section Rules.
Context {A B : Type}.
Implicit Types (P : State -> Prop) (E : Error -> State -> Prop).

Lemma hoare_ret P (a : A) (Q : A -> State -> Prop) E :
  (forall s, P s -> Q a s) -> hoare P (mret a) Q E.
Proof. intros H s Hs. apply H, Hs. Qed.

Lemma hoare_throw P (e : Error) (Q : A -> State -> Prop) E :
  (forall s, P s -> E e s) -> hoare P (throw e) Q E.
Proof. intros H s Hs. apply H, Hs. Qed.

Lemma hoare_lift P (c : completion A) (Q : A -> State -> Prop) E :
  (forall s, P s -> match c with Normal a => Q a s | Throw e => E e s end) ->
  hoare P (lift c) Q E.
Proof. intros H s Hs. unfold lift. destruct c; apply (H s Hs). Qed.

Lemma hoare_gets P (f : State -> A) (Q : A -> State -> Prop) E :
  (forall s, P s -> Q (f s) s) -> hoare P (gets f) Q E.
Proof. intros H s Hs. apply H, Hs. Qed.

Lemma hoare_bind P (m : M A) (k : A -> M B) (R : A -> State -> Prop)
    (Q : B -> State -> Prop) E :
  hoare P m R E -> (forall a, hoare (R a) (k a) Q E) ->
  hoare P (m ≫= k) Q E.
Proof.
  intros Hm Hk s Hs. specialize (Hm s Hs).
  unfold mbind, M_bind, bind. destruct (m s) as [s' [a|e]]; [|exact Hm].
  apply Hk, Hm.
Qed.

Lemma hoare_try P (m : M A) (h : Error -> M A) (R : Error -> State -> Prop)
    (Q : A -> State -> Prop) E :
  hoare P m Q R -> (forall e, hoare (R e) (h e) Q E) ->
  hoare P (try_catch m h) Q E.
Proof.
  intros Hm Hh s Hs. specialize (Hm s Hs).
  unfold try_catch. destruct (m s) as [s' [a|e]]; [exact Hm|].
  apply Hh, Hm.
Qed.

Lemma hoare_weaken P P' (m : M A) (Q Q' : A -> State -> Prop) E E' :
  hoare P' m Q' E' -> (forall s, P s -> P' s) ->
  (forall a s, Q' a s -> Q a s) -> (forall e s, E' e s -> E e s) ->
  hoare P m Q E.
Proof.
  intros Hm HP HQ HE s Hs. specialize (Hm s (HP s Hs)).
  destruct (m s) as [s' [a|e]]; auto.
Qed.
End Rules.

Lemma hoare_modify P (f : State -> State) (Q : unit -> State -> Prop) E :
  (forall s, P s -> Q tt (f s)) -> hoare P (modify f) Q E.
Proof. intros H s Hs. apply H, Hs. Qed.

Section Keeps.
Context (I : State -> Prop).

Lemma keeps_ret {A} (a : A) : keeps I (mret a).
Proof. apply hoare_ret; auto. Qed.
Lemma keeps_throw {A} e : keeps I (throw (A := A) e).
Proof. apply hoare_throw; auto. Qed.
Lemma keeps_lift {A} (c : completion A) : keeps I (lift c).
Proof. apply hoare_lift; destruct c; auto. Qed.
Lemma keeps_gets {A} (f : State -> A) : keeps I (gets f).
Proof. apply hoare_gets; auto. Qed.
Lemma keeps_modify f : (forall s, I s -> I (f s)) -> keeps I (modify f).
Proof. intros H. apply hoare_modify; auto. Qed.
Lemma keeps_bind {A B} (m : M A) (k : A -> M B) :
  keeps I m -> (forall a, keeps I (k a)) -> keeps I (m ≫= k).
Proof. intros Hm Hk. eapply hoare_bind; [exact Hm | exact Hk]. Qed.
Lemma keeps_try {A} (m : M A) h :
  keeps I m -> (forall e, keeps I (h e)) -> keeps I (try_catch m h).
Proof. intros Hm Hh. eapply hoare_try; [exact Hm | exact Hh]. Qed.
End Keeps.

Ltac keeps_step :=
  lazymatch goal with
  | |- keeps _ (mbind _ _) => apply keeps_bind; [|intros ?]
  | |- keeps _ (try_catch _ _) => apply keeps_try; [|intros ?]
  | |- keeps _ (mret _) => apply keeps_ret
  | |- keeps _ (ret _) => apply keeps_ret
  | |- keeps _ (throw _) => apply keeps_throw
  | |- keeps _ (lift _) => apply keeps_lift
  | |- keeps _ (gets _) => apply keeps_gets
  | |- keeps _ (modify _) => apply keeps_modify; intros ? ?
  | |- keeps _ (if ?b then _ else _) => destruct b
  | |- keeps _ (match ?x with _ => _ end) => destruct x
  end.

(** *** The quiz fields are touched by the quiz alone *)

Lemma stopAudio_keeps_quiz o r ok : keeps (quizIs o r) (stopAudio ok).
Proof.
  unfold stopAudio, engineStop. repeat keeps_step; assumption.
Qed.

Lemma playTail_keeps_quiz o r b env : keeps (quizIs o r) (playTail b env).
Proof.
  unfold playTail, createBufferSource, connect, engineStart.
  repeat keeps_step; assumption.
Qed.

Lemma playAudio_keeps_quiz o r a env : keeps (quizIs o r) (playAudio a env).
Proof.
  unfold playAudio, playTry, playHead, playFailed.
  repeat keeps_step;
    try assumption; try apply stopAudio_keeps_quiz; try apply playTail_keeps_quiz.
Qed.

Lemma resumeSettled_keeps_quiz o r ok env :
  keeps (quizIs o r) (resumeSettled ok env).
Proof.
  unfold resumeSettled, resumeTry, playFailed.
  repeat keeps_step; try assumption; try apply playTail_keeps_quiz.
Qed.

(** *** Node statuses *)

Lemma setStatus_length id st srcs : length (setStatus id st srcs) = length srcs.
Proof.
  unfold setStatus. destruct (srcs !! id); [apply length_insert | reflexivity].
Qed.

Lemma setStatus_lookup id st srcs j :
  status <$> setStatus id st srcs !! j =
  if decide (j = id) then (fun _ => st) <$> srcs !! id
  else status <$> srcs !! j.
Proof.
  unfold setStatus. destruct (srcs !! id) as [src|] eqn:E.
  - destruct (decide (j = id)) as [->|Hne].
    + rewrite list_lookup_insert_eq by (eapply lookup_lt_Some; eauto).
      reflexivity.
    + rewrite list_lookup_insert_ne by auto. reflexivity.
  - destruct (decide (j = id)) as [->|Hne]; [rewrite E|]; reflexivity.
Qed.

(** *** [stopAudio] *)

Lemma stopAudio_stopped ok s : stopAudio ok s = (stopped ok s, Normal tt).
Proof.
  unfold stopAudio, stopped, mbind, M_bind, bind, gets, try_catch,
    engineStop, modify, throw, ret.
  destruct (sourceNodeRef s); [destruct ok|]; reflexivity.
Qed.

Lemma stopped_fields ok s :
  isPlaying (stopped ok s) = false /\
  sourceNodeRef (stopped ok s) = None /\
  selectedOption (stopped ok s) = selectedOption s /\
  quizResult (stopped ok s) = quizResult s /\
  audioContextRef (stopped ok s) = audioContextRef s /\
  isOpen (stopped ok s) = isOpen s /\
  awaiting (stopped ok s) = awaiting s.
Proof.
  unfold stopped. destruct (sourceNodeRef s) eqn:E; [destruct ok|]; simpl;
    repeat split; try reflexivity; assumption.
Qed.

Lemma stopped_idempotent ok1 ok2 s :
  stopped ok2 (stopped ok1 s) = stopped ok1 s.
Proof.
  unfold stopped. destruct (sourceNodeRef s) eqn:E; [destruct ok1|]; simpl;
    rewrite ?E; reflexivity.
Qed.

(** Halting the held node leaves no node playing, when it is the only one
    that could be. *)
Lemma stopped_Quiet s : Single s -> Quiet (stopped true s).
Proof.
  intros [_ Hs] j Hj. unfold stopped in Hj.
  destruct (sourceNodeRef s) as [id|] eqn:Eref.
  - unfold statusOf in Hj. simpl in Hj. fold (statusOf id s) in Hj.
    assert (Hold : statusOf j s = Some Playing -> j = id /\ statusOf id s = Some Playing).
    { intros H. pose proof (Hs j H) as Hr. rewrite ?Eref in Hr.
      assert (j = id) by congruence. subst j. auto. }
    destruct (statusOf id s) as [st|] eqn:Est.
    + destruct st;
        try (destruct (Hold Hj) as [_ Hc]; discriminate).
      rewrite setStatus_lookup in Hj.
      destruct (decide (j = id)) as [->|Hne].
      * destruct (sources s !! id); discriminate.
      * destruct (Hold Hj) as [Hc _]. contradiction.
    + destruct (Hold Hj) as [_ Hc]. discriminate.
  - apply Hs in Hj. rewrite ?Eref in Hj. discriminate.
Qed.

Lemma Quiet_Single s : Quiet s -> awaiting s = [] -> Single s.
Proof. intros Hq Ha. split; [exact Ha|]. intros id Hid. destruct (Hq id Hid). Qed.

(** *** [playAudio] *)

Lemma playTail_Single b env :
  hoare QuietIdle (playTail b env) (fun _ => Single) (fun _ => QuietIdle).
Proof.
  unfold playTail.
  eapply hoare_bind with (R := fun _ => QuietIdle);
    [apply hoare_lift; intros s Hs; destruct (decode b); exact Hs|].
  intros data.
  eapply hoare_bind with (R := fun _ => QuietIdle);
    [apply hoare_lift; intros s Hs; destruct (decodeAudioData _ _ _ _); exact Hs|].
  intros buf.
  eapply hoare_bind with (R := fun id s => QuietIdle s).
  { unfold createBufferSource. destruct (createSourceOk env);
      [|apply hoare_throw; auto].
    eapply hoare_bind with (R := fun _ => QuietIdle);
      [apply hoare_gets; auto|]. intros id.
    eapply hoare_bind with (R := fun _ => QuietIdle);
      [|intros _; apply hoare_ret; auto].
    apply hoare_modify. intros s [Hq Ha]. split; [|exact Ha].
    intros j Hj. unfold statusOf in Hj. simpl in Hj.
    destruct (decide (j < length (sources s))%nat) as [Hlt|Hge].
    - rewrite lookup_app_l in Hj by assumption. exact (Hq j Hj).
    - rewrite lookup_app_r in Hj by lia.
      destruct (j - length (sources s))%nat as [|[|k]]; discriminate. }
  intros id.
  eapply hoare_bind with (R := fun _ => QuietIdle).
  { unfold connect. destruct (connectOk env);
      [apply hoare_ret | apply hoare_throw]; auto. }
  intros _.
  eapply hoare_bind with
    (R := fun _ s => awaiting s = [] /\
                     forall j, statusOf j s = Some Playing -> j = id).
  { unfold engineStart. destruct (startOk env); [|apply hoare_throw; auto].
    apply hoare_modify. intros s [Hq Ha]. split; [exact Ha|].
    intros j Hj. unfold statusOf in Hj. simpl in Hj.
    rewrite setStatus_lookup in Hj.
    destruct (decide (j = id)); [assumption | destruct (Hq j Hj)]. }
  intros _. apply hoare_modify. intros s [Ha Hs]. split; [exact Ha|].
  intros j Hj. simpl. f_equal. symmetry. apply Hs. exact Hj.
Qed.

Lemma playAudio_Single a env :
  stopOk env = true -> suspended env = false ->
  keeps Single (playAudio a env).
Proof.
  intros Hstop Hsus. unfold playAudio.
  destruct a as [b|]; [|apply keeps_ret].
  destruct (String.eqb b ""); [apply keeps_ret|].
  eapply hoare_try with (R := fun _ => QuietIdle).
  - unfold playTry.
    eapply hoare_bind with (R := fun waits s => waits = false /\ QuietIdle s).
    + unfold playHead. rewrite Hstop, Hsus.
      eapply hoare_bind with (R := fun _ => QuietIdle).
      { intros s Hs. rewrite stopAudio_stopped. split.
        - apply stopped_Quiet, Hs.
        - destruct (stopped_fields true s) as (_ & _ & _ & _ & _ & _ & ->).
          apply Hs. }
      intros _.
      eapply hoare_bind with (R := fun _ => QuietIdle);
        [apply hoare_modify; intros s Hs; exact Hs|].
      intros _.
      eapply hoare_bind with (R := fun _ => QuietIdle);
        [apply hoare_gets; auto|].
      intros ctx.
      eapply hoare_bind with (R := fun _ => QuietIdle);
        [|intros _; apply hoare_ret; auto].
      destruct ctx; [apply hoare_ret; auto|].
      destruct (contextOk env);
        [apply hoare_modify; intros s Hs; exact Hs | apply hoare_throw; auto].
    + intros waits. destruct waits.
      * apply hoare_modify. intros s [Hw _]. discriminate.
      * eapply hoare_weaken; [apply playTail_Single | | |]; simpl; tauto.
  - intros e. unfold playFailed. apply hoare_modify.
    intros s [Hq Ha]. apply Quiet_Single; assumption.
Qed.

Lemma resumeSettled_Single ok env : keeps Single (resumeSettled ok env).
Proof.
  unfold resumeSettled.
  eapply hoare_bind with (R := fun waiting s => waiting = [] /\ Single s).
  - apply hoare_gets. intros s Hs. split; [apply Hs | exact Hs].
  - intros waiting. destruct waiting as [|b rest].
    + apply hoare_ret. tauto.
    + intros s [Hw _]. discriminate.
Qed.

Lemma ended_Single id s : Single s -> Single (ended id s).
Proof.
  intros Hs. unfold ended.
  destruct (statusOf id s) as [[]|] eqn:Est; try exact Hs;
    (split; [apply Hs|]; intros j Hj; simpl;
     unfold statusOf in Hj; simpl in Hj; rewrite setStatus_lookup in Hj;
     destruct (decide (j = id)) as [->|Hne];
     [ destruct (sources s !! id); discriminate | apply Hs, Hj ]).
Qed.

Lemma stopAudio_Single : keeps Single (stopAudio true).
Proof.
  intros s Hs. rewrite stopAudio_stopped.
  apply Quiet_Single; [apply stopped_Quiet, Hs|].
  destruct (stopped_fields true s) as (_ & _ & _ & _ & _ & _ & ->). apply Hs.
Qed.

Lemma setIsOpen_Single b : keeps Single (setIsOpen b true).
Proof.
  unfold setIsOpen, openEffect.
  repeat keeps_step; try assumption; apply stopAudio_Single.
Qed.

Lemma step_Single e s :
  calm e -> Single s -> Single (fst (fst (step e s))).
Proof.
  intros Hcalm Hs. destruct e as [b ok | a env | ok | ok env | id | o q | ok];
    simpl in Hcalm; simpl.
  - subst ok. pose proof (setIsOpen_Single b s Hs) as H.
    destruct (setIsOpen b true s) as [s' [[]|e]]; exact H.
  - destruct Hcalm as [H1 H2].
    pose proof (playAudio_Single a env H1 H2 s Hs) as H.
    destruct (playAudio a env s) as [s' [[]|e]]; exact H.
  - subst ok. pose proof (stopAudio_Single s Hs) as H.
    destruct (stopAudio true s) as [s' [[]|e]]; exact H.
  - pose proof (resumeSettled_Single ok env s Hs) as H.
    destruct (resumeSettled ok env s) as [s' [[]|e]]; exact H.
  - apply ended_Single, Hs.
  - unfold handleOptionClick. destruct (quizResult s); simpl; exact Hs.
  - subst ok. pose proof (stopAudio_Single s Hs) as H.
    destruct (stopAudio true s) as [s' [[]|e]]; exact H.
Qed.

Lemma run_Single evs s :
  Forall calm evs -> Single s -> Single (fst (run evs s)).
Proof.
  revert s. induction evs as [|e evs IH]; intros s Hc Hs; [exact Hs|].
  inversion Hc as [|? ? He Hevs]; subst. simpl.
  pose proof (step_Single e s He Hs) as H1.
  destruct (step e s) as [[s1 r] out]. simpl in H1.
  specialize (IH s1 Hevs H1). destruct (run evs s1) as [s2 out']. exact IH.
Qed.

Lemma init_Single : Single init.
Proof.
  split; [reflexivity|]. intros id Hid. unfold statusOf in Hid. simpl in Hid.
  discriminate.
Qed.

Lemma decodeAudioData_returns data rate nc :
  Nat.Even (length data) ->
  decodeAudioData data true rate nc =
  Normal (fillChannels (int16_words data) nc (length (int16_words data) / nc) nc
            (createBuffer nc (length (int16_words data) / nc) rate)).
Proof.
  intros Hev. unfold decodeAudioData. rewrite Int16Array_even by assumption.
  reflexivity.
Qed.

Lemma hoare_assume {A} (F : Prop) P (m : M A) Q E :
  (F -> hoare P m Q E) -> hoare (fun s => F /\ P s) m Q E.
Proof. intros H s [HF Hs]. apply (H HF s Hs). Qed.

Lemma playAudio_success b data env s :
  b <> "" -> decode b = Normal data -> Nat.Even (length data) -> allOk env ->
  exists s' buf,
    decodeAudioData data true 24000 1 = Normal buf /\
    playAudio (Some b) env s = (s', Normal tt) /\
    started (stopped true s) buf s'.
Proof.
  intros Hb Hd Hev (H1 & H2 & H3 & H4 & H5 & H6 & H7).
  apply String.eqb_neq in Hb.
  pose proof (decodeAudioData_returns data 24000 1 Hev) as Hbuf.
  set (buf := fillChannels _ _ _ _ _) in Hbuf.
  set (s1 := stopped true s).
  pose (Mid := fun s' : State =>
          isPlaying s' = true /\ sourceNodeRef s' = None /\
          calls s' = calls s1 /\ sources s' = sources s1 /\
          awaiting s' = awaiting s1).
  assert (Hhoare : hoare (fun s0 => s0 = s) (playAudio (Some b) env)
                     (fun _ => started s1 buf) (fun _ _ => False)).
  { unfold playAudio. rewrite Hb.
    eapply hoare_try with (R := fun _ _ => False);
      [|intros e s0 []].
    unfold playTry.
    eapply hoare_bind with (R := fun waits s' => waits = false /\ Mid s').
    - unfold playHead. rewrite H7, H2.
      eapply hoare_bind with (R := fun _ s' => s' = s1).
      { intros s0 ->. rewrite stopAudio_stopped. reflexivity. }
      intros _.
      eapply hoare_bind with (R := fun _ => Mid).
      { apply hoare_modify. intros s0 ->. unfold Mid. simpl.
        destruct (stopped_fields true s) as (_ & Hr & _). fold s1 in Hr.
        auto. }
      intros _.
      eapply hoare_bind with (R := fun _ => Mid); [apply hoare_gets; auto|].
      intros ctx.
      eapply hoare_bind with (R := fun _ => Mid);
        [|intros _; apply hoare_ret; auto].
      destruct ctx; [apply hoare_ret; auto|]. rewrite H1.
      apply hoare_modify. intros s0 Hs0. exact Hs0.
    - intros waits. destruct waits;
        [apply hoare_modify; intros s0 [Hw _]; discriminate|].
      unfold playTail. rewrite Hd, H3, H4, H5, H6.
      eapply hoare_bind with (R := fun d s' => d = data /\ Mid s');
        [apply hoare_lift; tauto|].
      intros d. apply hoare_assume. intros ->. rewrite Hbuf.
      eapply hoare_bind with (R := fun b' s' => b' = buf /\ Mid s');
        [apply hoare_lift; tauto|]. intros b'.
      pose (Made := fun (id : nat) (s' : State) =>
                b' = buf /\ id = length (sources s1) /\
                isPlaying s' = true /\ sourceNodeRef s' = None /\
                calls s' = calls s1 /\
                sources s' = sources s1 ++ [ {| status := Unstarted; buffer := buf |} ] /\
                awaiting s' = awaiting s1).
      eapply hoare_bind with (R := Made).
      { unfold createBufferSource.
        eapply hoare_bind with
          (R := fun id s' => b' = buf /\ id = length (sources s1) /\ Mid s').
        - apply hoare_gets. intros s0 (-> & Hm). split; [reflexivity|].
          split; [|exact Hm]. destruct Hm as (_ & _ & _ & -> & _). reflexivity.
        - intros id.
          eapply hoare_bind with (R := fun _ => Made id).
          + apply hoare_modify.
            intros s0 (-> & -> & Hp & Hr & Hc & Hs & Ha). unfold Made. simpl.
            rewrite Hs. auto 10.
          + intros _. apply hoare_ret. auto. }
      intros id.
      eapply hoare_bind with (R := fun _ => Made id);
        [apply hoare_ret; auto|].
      intros _.
      eapply hoare_bind with
        (R := fun _ s' =>
                id = length (sources s1) /\
                isPlaying s' = true /\
                calls s' = calls s1 ++ [CallStart id] /\
                sources s' = sources s1 ++ [ {| status := Playing; buffer := buf |} ] /\
                awaiting s' = awaiting s1).
      { apply hoare_modify.
        intros s0 (-> & -> & Hp & Hr & Hc & Hs & Ha). simpl.
        rewrite Hs, Hc. repeat split; try assumption.
        unfold setStatus.
        rewrite lookup_app_r by reflexivity. rewrite Nat.sub_diag. simpl.
        rewrite insert_app_r_alt by reflexivity. rewrite Nat.sub_diag.
        reflexivity. }
      intros _. apply hoare_modify.
      intros s0 (-> & Hp & Hc & Hs & Ha). unfold started. simpl. auto 10. }
  specialize (Hhoare s eq_refl).
  destruct (playAudio (Some b) env s) as [s' [[]|e]]; [|destruct Hhoare].
  exists s', buf. auto.
Qed.

(** *** Errors inside [playAudio] *)

Lemma playAudio_returns a env s : snd (playAudio a env s) = Normal tt.
Proof.
  unfold playAudio. destruct a as [b|]; [|reflexivity].
  destruct (String.eqb b ""); [reflexivity|].
  unfold try_catch. destruct (playTry b env s) as [s1 [[]|e]]; reflexivity.
Qed.

Lemma playAudio_caught b env s s1 e :
  b <> "" -> playTry b env s = (s1, Throw e) ->
  playAudio (Some b) env s = (setIsPlaying false s1, Normal tt).
Proof.
  intros Hb Ht. apply String.eqb_neq in Hb.
  unfold playAudio. rewrite Hb. unfold try_catch. rewrite Ht. reflexivity.
Qed.

Lemma resumeSettled_returns ok env s : snd (resumeSettled ok env s) = Normal tt.
Proof.
  unfold resumeSettled, mbind, M_bind, bind, gets, modify.
  destruct (awaiting s) as [|b rest]; [reflexivity|].
  unfold try_catch.
  destruct (resumeTry ok b env (withAwaiting rest s)) as [s1 [[]|e]];
    reflexivity.
Qed.

Lemma resumeSettled_caught ok env s b rest s1 e :
  awaiting s = b :: rest ->
  resumeTry ok b env (withAwaiting rest s) = (s1, Throw e) ->
  resumeSettled ok env s = (setIsPlaying false s1, Normal tt).
Proof.
  intros Ha Ht. unfold resumeSettled, mbind, M_bind, bind, gets, modify.
  rewrite Ha. unfold try_catch. rewrite Ht. reflexivity.
Qed.

(** Acquisition fails: there is no context yet and none can be made. *)
Lemma playTry_acquisition_fails b env s :
  audioContextRef s = false -> contextOk env = false ->
  playTry b env s = (setIsPlaying true (stopped (stopOk env) s), Throw EngineError).
Proof.
  intros Hc Hk. unfold playTry, playHead, mbind, M_bind, bind.
  rewrite stopAudio_stopped. unfold modify, gets.
  destruct (stopped_fields (stopOk env) s) as (_ & _ & _ & _ & Hctx & _).
  cbn [audioContextRef setIsPlaying]. rewrite Hctx, Hc, Hk. reflexivity.
Qed.

Lemma decodeAudioData_needs_buffer data rate nc :
  forall b, decodeAudioData data false rate nc <> Normal b.
Proof.
  intros b. unfold decodeAudioData. destruct (Int16Array data); discriminate.
Qed.

(** Scheduling fails: one of the calls that build and start the node
    throws. *)
Lemma playTail_scheduling_fails b env s :
  createBufferOk env && createSourceOk env && connectOk env && startOk env
    = false ->
  exists s1 e, playTail b env s = (s1, Throw e) /\ isPlaying s1 = isPlaying s.
Proof.
  intros Hf. unfold playTail, mbind, M_bind, bind, lift.
  destruct (decode b) as [data|e]; [|eauto].
  destruct (decodeAudioData data (createBufferOk env) 24000 1) as [buf|e] eqn:Eb;
    [|eauto].
  destruct (createBufferOk env);
    [|destruct (decodeAudioData_needs_buffer _ _ _ _ Eb)].
  unfold createBufferSource, connect, engineStart, mbind, M_bind, bind,
    gets, modify, throw, mret, M_ret, ret.
  destruct (createSourceOk env); [|eauto].
  destruct (connectOk env); [|simpl; eauto].
  destruct (startOk env); [discriminate|simpl; eauto].
Qed.

(** *** The quiz *)

Lemma handleOptionClick_answered o q s v :
  quizResult s = Some v -> handleOptionClick o q s = (s, []).
Proof. intros H. unfold handleOptionClick. rewrite H. reflexivity. Qed.

Lemma handleOptionClick_first o q s :
  quizResult s = None ->
  exists v c, handleOptionClick o q s = (setQuiz (Some o) (Some v) s, [c]).
Proof. intros H. unfold handleOptionClick. rewrite H. eauto. Qed.

Lemma keeps_quiz_fst {A} (m : M A) s o r :
  keeps (quizIs o r) m -> quizIs o r s -> quizIs o r (fst (m s)).
Proof.
  intros Hk Hs. specialize (Hk s Hs). destruct (m s) as [s' [a|e]]; exact Hk.
Qed.

Lemma setIsOpen_close_keeps_quiz o r ok : keeps (quizIs o r) (setIsOpen false ok).
Proof.
  intros s Hs. unfold setIsOpen, openEffect, mbind, M_bind, bind, gets, modify.
  destruct (isOpen s); simpl; [|exact Hs].
  rewrite stopAudio_stopped.
  destruct (stopped_fields ok (withIsOpen false s)) as (_ & _ & Ho & Hr & _).
  split; [rewrite Ho | rewrite Hr]; apply Hs.
Qed.

(** An event that does not open the modal leaves an answered quiz
    answered, and records nothing. *)
Lemma step_answered e s v :
  quizResult s = Some v -> ~ reopens e ->
  quizResult (fst (fst (step e s))) = Some v /\ snd (step e s) = [].
Proof.
  intros Hv Hre.
  assert (Hq : quizIs (selectedOption s) (Some v) s) by (split; auto).
  destruct e as [b ok | a env | ok | ok env | id | o q | ok]; simpl.
  - destruct b; [destruct Hre; exact I|]. split; [|reflexivity].
    apply (keeps_quiz_fst _ _ _ _ (setIsOpen_close_keeps_quiz _ _ ok) Hq).
  - split; [|reflexivity].
    apply (keeps_quiz_fst _ _ _ _ (playAudio_keeps_quiz _ _ a env) Hq).
  - split; [|reflexivity].
    apply (keeps_quiz_fst _ _ _ _ (stopAudio_keeps_quiz _ _ ok) Hq).
  - split; [|reflexivity].
    apply (keeps_quiz_fst _ _ _ _ (resumeSettled_keeps_quiz _ _ ok env) Hq).
  - split; [|reflexivity]. unfold ended.
    destruct (statusOf id s) as [[]|]; exact Hv.
  - rewrite (handleOptionClick_answered o q s v Hv). auto.
  - split; [|reflexivity].
    apply (keeps_quiz_fst _ _ _ _ (stopAudio_keeps_quiz _ _ ok) Hq).
Qed.

Lemma run_answered evs s v :
  quizResult s = Some v -> Forall (fun e => ~ reopens e) evs ->
  snd (run evs s) = [].
Proof.
  revert s. induction evs as [|e evs IH]; intros s Hv Hall; [reflexivity|].
  inversion Hall as [|? ? He Hevs]; subst. simpl.
  destruct (step_answered e s v Hv He) as [H1 H2].
  destruct (step e s) as [[s1 r] out]. simpl in H1, H2. subst out.
  specialize (IH s1 H1 Hevs). destruct (run evs s1) as [s2 out'].
  simpl in IH. subst out'. reflexivity.
Qed.

(** An event other than a first answer leaves an unanswered quiz
    unanswered. *)
Lemma step_unanswered e s :
  quizResult s = None -> ~ reopens e ->
  (quizResult (fst (fst (step e s))) = None /\ snd (step e s) = []) \/
  (exists v c, quizResult (fst (fst (step e s))) = Some v /\ snd (step e s) = [c]).
Proof.
  intros Hv Hre.
  assert (Hq : quizIs (selectedOption s) None s) by (split; auto).
  destruct e as [b ok | a env | ok | ok env | id | o q | ok]; simpl.
  - left. destruct b; [destruct Hre; exact I|]. split; [|reflexivity].
    apply (keeps_quiz_fst _ _ _ _ (setIsOpen_close_keeps_quiz _ _ ok) Hq).
  - left. split; [|reflexivity].
    apply (keeps_quiz_fst _ _ _ _ (playAudio_keeps_quiz _ _ a env) Hq).
  - left. split; [|reflexivity].
    apply (keeps_quiz_fst _ _ _ _ (stopAudio_keeps_quiz _ _ ok) Hq).
  - left. split; [|reflexivity].
    apply (keeps_quiz_fst _ _ _ _ (resumeSettled_keeps_quiz _ _ ok env) Hq).
  - left. split; [|reflexivity]. unfold ended.
    destruct (statusOf id s) as [[]|]; exact Hv.
  - right. destruct (handleOptionClick_first o q s Hv) as (v & c & ->).
    exists v, c. auto.
  - left. split; [|reflexivity].
    apply (keeps_quiz_fst _ _ _ _ (stopAudio_keeps_quiz _ _ ok) Hq).
Qed.

Lemma run_at_most_one evs s :
  Forall (fun e => ~ reopens e) evs -> (length (snd (run evs s)) <= 1)%nat.
Proof.
  revert s. induction evs as [|e evs IH]; intros s Hall; [simpl; lia|].
  inversion Hall as [|? ? He Hevs]; subst.
  destruct (quizResult s) as [v|] eqn:Hv.
  - rewrite (run_answered (e :: evs) s v Hv Hall). simpl. lia.
  - simpl. destruct (step_unanswered e s Hv He) as [[H1 H2] | (v & c & H1 & H2)];
      destruct (step e s) as [[s1 r] out]; simpl in H1, H2; subst out.
    + specialize (IH s1 Hevs). destruct (run evs s1) as [s2 out']. exact IH.
    + pose proof (run_answered evs s1 v H1 Hevs) as Hr.
      destruct (run evs s1) as [s2 out']. simpl in Hr. subst out'.
      simpl. lia.
Qed.

Lemma reopen_resets ok s :
  isOpen s = false ->
  quizResult (fst (fst (step (EvSetOpen true ok) s))) = None /\
  selectedOption (fst (fst (step (EvSetOpen true ok) s))) = None.
Proof.
  intros Ho. simpl.
  unfold setIsOpen, openEffect, mbind, M_bind, bind, gets, modify.
  rewrite Ho. simpl. auto.
Qed.

(** ** The decoded samples *)

(** The frames of every channel are read inside the sample array. *)
Lemma frame_in_range (len nc c i : nat) :
  (c < nc)%nat -> (i < len / nc)%nat -> (i * nc + c < len)%nat.
Proof.
  intros Hc Hi.
  pose proof (Nat.Div0.mul_div_le len nc) as Hle.
  assert (Hs : (S i * nc <= len / nc * nc)%nat)
    by (apply Nat.mul_le_mono_r; lia).
  simpl in Hs. lia.
Qed.

Lemma decodeAudioData_channels data rate nc buf :
  Nat.Even (length data) ->
  decodeAudioData data true rate nc = Normal buf ->
  numberOfChannels buf = nc /\
  bufferLength buf = (length data / 2 / nc)%nat /\
  sampleRate buf = rate /\
  length <$> channels buf = replicate nc (length data / 2 / nc)%nat /\
  forall c i, (c < nc)%nat -> (i < length data / 2 / nc)%nat ->
    exists w, int16_words data !! (i * nc + c)%nat = Some w /\
              sampleAt buf c i = Some (Val (w # 32768)).
Proof.
  intros Hev Hdec. rewrite decodeAudioData_returns in Hdec by assumption.
  injection Hdec as <-. rewrite int16_words_length.
  set (n := (length data / 2 / nc)%nat).
  destruct (fillChannels_shape (int16_words data) nc n nc
              (createBuffer nc n rate)) as (H1 & H2 & H3 & H4).
  rewrite H1, H2, H3, H4. simpl.
  repeat split; try reflexivity.
  - rewrite fmap_replicate, length_replicate. reflexivity.
  - intros c i Hc Hi.
    assert (Hlt : (i * nc + c < length (int16_words data))%nat)
      by (rewrite int16_words_length; apply frame_in_range; assumption).
    destruct (lookup_lt_is_Some_2 _ _ Hlt) as [w Hw].
    exists w. split; [exact Hw|].
    rewrite fillChannels_sample, decide_True by auto.
    rewrite createBuffer_sample by assumption. simpl.
    unfold dequantize. rewrite Hw. reflexivity.
Qed.

Lemma sample_unit_range (w : Z) :
  (-32768 <= w <= 32767)%Z -> (-1 <= w # 32768 /\ w # 32768 <= 1)%Q.
Proof. intros Hw. unfold Qle. simpl. lia. Qed.

(** C3: for every even-length byte sequence decoded from base64,
    [decodeAudioData] with sample rate 24000 and one channel (while the
    engine's [createBuffer] returns) produces a buffer with
    [byteLength / 2 / numChannels] frames per channel; frame [i] of channel
    [c] is sample [i * numChannels + c] divided by 32768, a value between
    -1 and 1. *)
Theorem decodeAudioData_samples (base64 : string) (data : list Z) :
  decode base64 = Normal data -> Nat.Even (length data) ->
  exists buf,
    decodeAudioData data true 24000 1 = Normal buf /\
    numberOfChannels buf = 1%nat /\
    sampleRate buf = 24000%Z /\
    length <$> channels buf = [(length data / 2 / 1)%nat] /\
    forall c i, (c < 1)%nat -> (i < length data / 2 / 1)%nat ->
      exists w, int16_words data !! (i * 1 + c)%nat = Some w /\
                sampleAt buf c i = Some (Val (w # 32768)) /\
                (-1 <= w # 32768 /\ w # 32768 <= 1)%Q.
Proof.
  intros Hdec Hev.
  pose proof (decodeAudioData_returns data 24000 1 Hev) as Hbuf.
  destruct (decodeAudioData_channels data 24000 1 _ Hev Hbuf)
    as (H1 & _ & H3 & H4 & H5).
  eexists. split; [exact Hbuf|]. repeat split; try assumption.
  intros c i Hc Hi. destruct (H5 c i Hc Hi) as (w & Hw & Hs).
  exists w. repeat split; try assumption;
    apply sample_unit_range;
    pose proof (int16_words_range data (decode_bytes _ _ Hdec)) as Hr;
    rewrite Forall_lookup in Hr; apply (Hr _ _ Hw).
Qed.

Lemma decodeAudioData_samples_witness :
  decode payload = Normal [0; 1; 2; 3]%Z /\
  Nat.Even (length [0; 1; 2; 3]%Z) /\
  exists buf,
    decodeAudioData [0; 1; 2; 3]%Z true 24000 1 = Normal buf /\
    sampleAt buf 0 1 = Some (Val (770 # 32768)).
Proof.
  assert (Hd : decode payload = Normal [0; 1; 2; 3]%Z) by (vm_compute; reflexivity).
  assert (He : Nat.Even (length [0; 1; 2; 3]%Z)) by (exists 2%nat; reflexivity).
  split; [exact Hd|]. split; [exact He|].
  destruct (decodeAudioData_samples payload _ Hd He)
    as (buf & Hbuf & _ & _ & _ & Hs).
  exists buf. split; [exact Hbuf|].
  destruct (Hs 0%nat 1%nat ltac:(simpl; lia) ltac:(simpl; lia))
    as (w & Hw & Hv & _).
  vm_compute in Hw. injection Hw as <-. exact Hv.
Defined.

(** ** Odd payloads *)

(** C2, as stated, fails: [oddPayload] decodes to three bytes, and the
    decode-to-samples step does not drop the last one; it throws a
    [RangeError].  A string that is not base64 makes [decode] itself
    throw. *)
Lemma odd_payload_throws :
  decode oddPayload = Normal [0; 1; 2]%Z /\
  Nat.Odd (length [0; 1; 2]%Z) /\
  decodeAudioData [0; 1; 2]%Z true 24000 1 = Throw RangeError /\
  decode "A" = Throw InvalidCharacterError.
Proof.
  split; [vm_compute; reflexivity|]. split; [exists 1%nat; reflexivity|].
  split; vm_compute; reflexivity.
Qed.

Lemma decode_empty : decode "" = Normal [].
Proof. reflexivity. Qed.

(** C2 (amended): for every base64 payload whose decoded byte length is
    odd, the decode-to-samples step throws a [RangeError] and produces no
    samples.  The error leaves [decodeAudioData] but not [playAudio]: a
    call that reaches the decoding (the context exists or can be created
    and is not suspended) returns normally with the playing state false,
    holds no node, and has created and started none. *)
Theorem odd_payload_rejected (base64 : string) (data : list Z) :
  decode base64 = Normal data -> Nat.Odd (length data) ->
  (forall ok rate numChannels,
     decodeAudioData data ok rate numChannels = Throw RangeError) /\
  (forall env s,
     suspended env = false ->
     audioContextRef s || contextOk env = true ->
     exists s',
       playAudio (Some base64) env s = (s', Normal tt) /\
       isPlaying s' = false /\
       sourceNodeRef s' = None /\
       sources s' = sources (stopped (stopOk env) s) /\
       calls s' = calls (stopped (stopOk env) s)).
Proof.
  intros Hdec Hodd. split.
  - intros ok rate nc. unfold decodeAudioData.
    rewrite Int16Array_odd by assumption. reflexivity.
  - intros env s Hsus Hctx.
    assert (Hb : base64 <> "").
    { intros ->. rewrite decode_empty in Hdec. injection Hdec as <-.
      destruct Hodd as [k Hk]. simpl in Hk. lia. }
    destruct (stopped_fields (stopOk env) s) as (_ & Hr & _ & _ & Hc & _).
    assert (Ht : exists s1,
               playTry base64 env s = (s1, Throw RangeError) /\
               sourceNodeRef s1 = None /\
               sources s1 = sources (stopped (stopOk env) s) /\
               calls s1 = calls (stopped (stopOk env) s)).
    { unfold playTry, playHead, mbind, M_bind, bind.
      rewrite stopAudio_stopped. unfold modify, gets.
      cbn [audioContextRef setIsPlaying]. rewrite Hc, Hsus.
      destruct (audioContextRef s); simpl in Hctx.
      - unfold mret, M_ret, ret, playTail, mbind, M_bind, bind, lift.
        rewrite Hdec. unfold decodeAudioData.
        rewrite Int16Array_odd by assumption.
        eexists. split; [reflexivity|]. simpl. auto.
      - rewrite Hctx. unfold playTail, mbind, M_bind, bind, lift.
        rewrite Hdec. unfold decodeAudioData.
        rewrite Int16Array_odd by assumption.
        eexists. split; [reflexivity|]. simpl. auto. }
    destruct Ht as (s1 & Ht & H1 & H2 & H3).
    exists (setIsPlaying false s1).
    split; [apply (playAudio_caught _ _ _ _ RangeError); assumption|].
    simpl. auto.
Qed.

Lemma odd_payload_rejected_witness :
  decode oddPayload = Normal [0; 1; 2]%Z /\
  Nat.Odd (length [0; 1; 2]%Z) /\
  decodeAudioData [0; 1; 2]%Z true 24000 1 = Throw RangeError /\
  exists s',
    playAudio (Some oddPayload) engineOk playing = (s', Normal tt) /\
    isPlaying s' = false.
Proof.
  assert (Hd : decode oddPayload = Normal [0; 1; 2]%Z) by (vm_compute; reflexivity).
  assert (Ho : Nat.Odd (length [0; 1; 2]%Z)) by (exists 1%nat; reflexivity).
  destruct (odd_payload_rejected oddPayload _ Hd Ho) as [H1 H2].
  split; [exact Hd|]. split; [exact Ho|]. split; [apply H1|].
  destruct (H2 engineOk playing eq_refl eq_refl) as (s' & Hp & Hf & _).
  exists s'. auto.
Defined.

(** ** Superseding a session *)

(** C4: evaluation at the failing input.  The modal is open and the user
    clicks the audio button, bound to [isPlaying ? stopAudio : playAudio].
    First run: three clicks start node 0, halt it and start node 1; then
    the engine delivers the [ended] event that follows the halt of node 0,
    and its handler, still attached, sets [isPlaying] to false while node 1,
    the newest session, plays and is held.  The button now shows the play
    icon; a fourth click calls [playAudio] while that session is active,
    and the [ended] event of node 1 again clears the flag of node 2.
    Second run: the context is suspended; a first click waits at
    [await resume()], a second click stops, a third click waits as well,
    and when both calls continue nodes 0 and 1 play at once. *)
Lemma superseded_session_interferes :
  let opened := fst (run [EvSetOpen true true] init) in
  let click := fun env s =>
    fst (FactModalView.audioButton (Some payload) env s) in
  let s1 := click engineOk opened in
  let s2 := click engineOk s1 in
  let s3 := click engineOk s2 in
  let s4 := ended 0 s3 in
  let s5 := click engineOk s4 in
  let s6 := ended 1 s5 in
  let t1 := click engineSuspended opened in
  let t2 := click engineSuspended t1 in
  let t3 := click engineSuspended t2 in
  let t5 := fst (resumeSettled true engineOk
                   (fst (resumeSettled true engineOk t3))) in
  (isPlaying s1 = true /\ statusOf 0 s1 = Some Playing) /\
  (isPlaying s2 = false /\ statusOf 0 s2 = Some Halted) /\
  (isPlaying s3 = true /\ statusOf 1 s3 = Some Playing /\
   sourceNodeRef s3 = Some 1%nat) /\
  (isPlaying s4 = false /\ statusOf 1 s4 = Some Playing /\
   sourceNodeRef s4 = Some 1%nat) /\
  (calls s5 = [CallStart 0; CallStop 0; CallStart 1; CallStop 1; CallStart 2] /\
   isPlaying s5 = true /\ statusOf 2 s5 = Some Playing) /\
  (isPlaying s6 = false /\ statusOf 2 s6 = Some Playing /\
   sourceNodeRef s6 = Some 2%nat) /\
  (isPlaying t1 = true /\ isPlaying t2 = false /\ isPlaying t3 = true /\
   awaiting t3 = [payload; payload]) /\
  (calls t5 = [CallStart 0; CallStart 1] /\
   statusOf 0 t5 = Some Playing /\ statusOf 1 t5 = Some Playing).
Proof. vm_compute. repeat split. Qed.

(** When a call waits at [await resume()], two sessions can come to play
    at once: a first [playAudio] waits, the user stops and plays again, and
    both calls continue. *)
Example suspended_calls_overlap :
  let s := fst (run [EvPlay (Some payload) engineSuspended; EvStop true;
                     EvPlay (Some payload) engineSuspended;
                     EvResumeSettled true engineOk;
                     EvResumeSettled true engineOk] init) in
  statusOf 0 s = Some Playing /\ statusOf 1 s = Some Playing.
Proof. vm_compute. split; reflexivity. Qed.

Lemma statusOf_app_old (s s' : State) (src : Source) (j : nat) :
  sources s' = sources s ++ [src] -> (j < length (sources s))%nat ->
  statusOf j s' = statusOf j s.
Proof.
  intros Hs Hj. unfold statusOf. rewrite Hs, lookup_app_l by assumption.
  reflexivity.
Qed.

Lemma statusOf_app_new (s s' : State) (src : Source) :
  sources s' = sources s ++ [src] ->
  statusOf (length (sources s)) s' = Some (status src).
Proof.
  intros Hs. unfold statusOf. rewrite Hs, lookup_app_r by reflexivity.
  rewrite Nat.sub_diag. reflexivity.
Qed.

Lemma statusOf_lt (s : State) (j : nat) (st : SourceStatus) :
  statusOf j s = Some st -> (j < length (sources s))%nat.
Proof.
  unfold statusOf. intros H. destruct (sources s !! j) eqn:E; [|discriminate].
  eapply lookup_lt_Some; eauto.
Qed.

Lemma playing_Single : Single playing.
Proof.
  apply (run_Single [EvSetOpen true true; EvPlay (Some payload) engineOk]);
    [|exact init_Single].
  repeat constructor.
Defined.

(** ** Errors stay inside [playAudio] *)

(** C5: [playAudio], and its continuation after [await resume()], return
    normally from every state and for every behaviour of the engine.  An
    exception raised in the [try] block is caught and the playing state is
    set to false.  The [try] block does raise when the context cannot be
    acquired, when [resume()] is rejected, and when one of the calls that
    build and start the node throws. *)
Theorem playAudio_contains_errors :
  (forall a env s, snd (playAudio a env s) = Normal tt) /\
  (forall ok env s, snd (resumeSettled ok env s) = Normal tt) /\
  (forall b env s s1 e,
     b <> "" -> playTry b env s = (s1, Throw e) ->
     playAudio (Some b) env s = (setIsPlaying false s1, Normal tt) /\
     isPlaying (fst (playAudio (Some b) env s)) = false) /\
  (forall ok env s b rest s1 e,
     awaiting s = b :: rest ->
     resumeTry ok b env (withAwaiting rest s) = (s1, Throw e) ->
     resumeSettled ok env s = (setIsPlaying false s1, Normal tt) /\
     isPlaying (fst (resumeSettled ok env s)) = false) /\
  (forall b env s,
     audioContextRef s = false -> contextOk env = false ->
     exists s1, playTry b env s = (s1, Throw EngineError)) /\
  (forall b env s, resumeTry false b env s = (s, Throw EngineError)) /\
  (forall b env s,
     createBufferOk env && createSourceOk env && connectOk env && startOk env
       = false ->
     exists s1 e, playTail b env s = (s1, Throw e)).
Proof.
  split; [exact playAudio_returns|].
  split; [exact resumeSettled_returns|].
  split.
  { intros b env s s1 e Hb Ht.
    rewrite (playAudio_caught b env s s1 e Hb Ht). auto. }
  split.
  { intros ok env s b rest s1 e Ha Ht.
    rewrite (resumeSettled_caught ok env s b rest s1 e Ha Ht). auto. }
  split.
  { intros b env s Hc Hk. eexists.
    apply playTry_acquisition_fails; assumption. }
  split; [reflexivity|].
  intros b env s Hf.
  destruct (playTail_scheduling_fails b env s Hf) as (s1 & e & H & _).
  eauto.
Qed.

Lemma playAudio_contains_errors_witness :
  payload <> "" /\
  playTry payload engineNoContext init
    = (setIsPlaying true init, Throw EngineError) /\
  playAudio (Some payload) engineNoContext init = (init, Normal tt) /\
  isPlaying (fst (playAudio (Some payload) engineNoContext init)) = false.
Proof.
  assert (Hb : payload <> "") by discriminate.
  assert (Ht : playTry payload engineNoContext init
               = (setIsPlaying true init, Throw EngineError))
    by (vm_compute; reflexivity).
  destruct playAudio_contains_errors as (_ & _ & Hcaught & _).
  destruct (Hcaught payload engineNoContext init _ _ Hb Ht) as [H1 H2].
  split; [exact Hb|]. split; [exact Ht|]. split; [exact H1 | exact H2].
Defined.

(** ** Stopping *)

(** C6: from any state, [stopAudio] returns normally, whether or not the
    engine's [stop()] throws; the playing state is then false and no node
    is held; and a second call changes nothing. *)
Theorem stopAudio_idempotent (ok ok' : bool) (s : State) :
  stopAudio ok s = (stopped ok s, Normal tt) /\
  isPlaying (stopped ok s) = false /\
  sourceNodeRef (stopped ok s) = None /\
  stopAudio ok' (stopped ok s) = (stopped ok s, Normal tt).
Proof.
  destruct (stopped_fields ok s) as (H1 & H2 & _).
  split; [apply stopAudio_stopped|]. split; [exact H1|]. split; [exact H2|].
  rewrite stopAudio_stopped, stopped_idempotent. reflexivity.
Qed.

(** [stopAudio] in a component that never played, and in one that is
    playing while [stop()] throws. *)
Example stopAudio_never_played :
  stopAudio true init = (init, Normal tt) /\
  snd (stopAudio false playing) = Normal tt /\
  isPlaying (fst (stopAudio false playing)) = false.
Proof. vm_compute. repeat split. Qed.

(** ** One answer per opening *)

(** C10: once a quiz result is set, an option click changes nothing and
    calls nothing; every event that does not open the modal leaves the
    result as it is and records no answer; in any sequence of events that
    does not open the modal at most one answer is recorded; and opening the
    modal resets the result. *)
Theorem quiz_answered_once :
  (forall o q s v,
     quizResult s = Some v -> handleOptionClick o q s = (s, [])) /\
  (forall e s v,
     quizResult s = Some v -> ~ reopens e ->
     quizResult (fst (fst (step e s))) = Some v /\ snd (step e s) = []) /\
  (forall evs s,
     Forall (fun e => ~ reopens e) evs ->
     (length (snd (run evs s)) <= 1)%nat) /\
  (forall ok s,
     isOpen s = false ->
     quizResult (fst (fst (step (EvSetOpen true ok) s))) = None).
Proof.
  split; [exact handleOptionClick_answered|].
  split; [exact step_answered|].
  split; [exact run_at_most_one|].
  intros ok s Ho. apply reopen_resets, Ho.
Qed.

Lemma quiz_answered_once_witness :
  let clicks := [EvOption "a" None; EvOption "b" None; EvStop true;
                 EvOption "a" None] in
  Forall (fun e => ~ reopens e) clicks /\
  (length (snd (run clicks playing)) <= 1)%nat /\
  snd (run clicks playing) = [false].
Proof.
  intros clicks.
  assert (Hc : Forall (fun e => ~ reopens e) clicks)
    by (repeat constructor; intros []).
  destruct quiz_answered_once as (_ & _ & Hone & _).
  split; [exact Hc|]. split; [exact (Hone clicks playing Hc)|].
  vm_compute. reflexivity.
Defined.

End FactModalFacts.

Module AppFacts.

Import App.

Lemma initialScores_lookup (c : string) :
  c ∈ CATEGORIES -> initialScores !! c = Some {| correct := 0; wrong := 0 |}.
Proof.
  intros Hc. unfold CATEGORIES in Hc.
  repeat (apply elem_of_cons in Hc as [-> | Hc]; [vm_compute; reflexivity|]).
  apply elem_of_nil in Hc. destruct Hc.
Qed.

(** Recording an answer keeps the categories of the score board. *)
Lemma recordAnswer_dom (c : string) (b : bool) (prev next : gmap string Score) :
  recordAnswer c b prev = Normal next -> dom next = dom prev.
Proof.
  unfold recordAnswer. destruct (prev !! c) as [e|] eqn:E; [|discriminate].
  intros Hn. injection Hn as <-. rewrite dom_insert_L.
  apply elem_of_dom_2 in E. apply subseteq_union_1_L, singleton_subseteq_l, E.
Qed.

(** C9: recording an answer for the current category replaces that
    category's entry by one in which exactly one of the two counters is
    larger by 1: [correct] for a correct answer, [wrong] otherwise.  The
    entries of all other categories and the current category itself are
    unchanged.  With no current category nothing changes. *)
Theorem handleQuizAnswer_frame :
  (forall (s : State) (c : string) (isCorrect : bool) (entry : Score),
     currentCategory s = Some c -> c <> "" -> scores s !! c = Some entry ->
     exists s' entry',
       handleQuizAnswer isCorrect s = Normal s' /\
       currentCategory s' = Some c /\
       scores s' !! c = Some entry' /\
       (if isCorrect
        then correct entry' = correct entry + 1 /\ wrong entry' = wrong entry
        else correct entry' = correct entry /\ wrong entry' = wrong entry + 1)%Z /\
       forall c', c' <> c -> scores s' !! c' = scores s !! c') /\
  (forall (s : State) (isCorrect : bool),
     currentCategory s = None -> handleQuizAnswer isCorrect s = Normal s).
Proof.
  split.
  - intros s c isCorrect entry Hc Hne He.
    apply String.eqb_neq in Hne.
    unfold handleQuizAnswer, recordAnswer. rewrite Hc, Hne, He.
    eexists. eexists. split; [reflexivity|]. simpl.
    split; [first [exact Hc | reflexivity]|].
    split; [apply lookup_insert_eq|]. split.
    + destruct isCorrect; simpl; lia.
    + intros c' Hc'. apply lookup_insert_ne. congruence.
  - intros s isCorrect Hc. unfold handleQuizAnswer. rewrite Hc. reflexivity.
Qed.

Lemma handleQuizAnswer_frame_witness :
  let s := setCurrentCategory SCIENCE init in
  currentCategory s = Some SCIENCE /\ SCIENCE <> "" /\
  scores s !! SCIENCE = Some {| correct := 0; wrong := 0 |} /\
  exists s',
    handleQuizAnswer false s = Normal s' /\
    scores s' !! SCIENCE = Some {| correct := 0; wrong := 1 |} /\
    scores s' !! HISTORY = Some {| correct := 0; wrong := 0 |}.
Proof.
  intros s.
  assert (H1 : currentCategory s = Some SCIENCE) by reflexivity.
  assert (H2 : SCIENCE <> "") by discriminate.
  assert (H3 : scores s !! SCIENCE = Some {| correct := 0; wrong := 0 |})
    by (vm_compute; reflexivity).
  destruct handleQuizAnswer_frame as [Hset _].
  destruct (Hset s SCIENCE false _ H1 H2 H3)
    as (s' & entry' & Hs & _ & He & [Hc Hw] & Hother).
  repeat (split; [assumption|]).
  exists s'. split; [exact Hs|]. split.
  - rewrite He. destruct entry' as [c w]. simpl in Hc, Hw. subst. reflexivity.
  - rewrite (Hother HISTORY) by discriminate. vm_compute. reflexivity.
Defined.

End AppFacts.

Module DartboardViewFacts.

Import Dartboard DartboardView DartboardFacts.

Section ExactAngles.
Local Open Scope Q_scope.

(** Shifting by whole turns does not change the remainder of the floored
    division by 360. *)
Lemma floored_turns (x : Q) (k : Z) :
  (x + 360 * inject_Z k)
    - 360 * inject_Z (Qfloor ((x + 360 * inject_Z k) / 360))
  == x - 360 * inject_Z (Qfloor (x / 360)).
Proof.
  assert (E : Qfloor ((x + 360 * inject_Z k) / 360) = (Qfloor (x / 360) + k)%Z).
  { apply Qfloor_unique.
    - rewrite inject_Z_plus. pose proof (Qfloor_le (x / 360)) as Hl.
      assert (Hx : (x + 360 * inject_Z k) / 360 == x / 360 + inject_Z k) by field.
      rewrite Hx. lra.
    - rewrite inject_Z_plus. pose proof (Qlt_floor (x / 360)) as Hl.
      rewrite inject_Z_plus in Hl. change (inject_Z 1) with 1 in Hl.
      assert (Hx : (x + 360 * inject_Z k) / 360 == x / 360 + inject_Z k) by field.
      rewrite Hx. lra. }
  rewrite E, inject_Z_plus. ring.
Qed.

Lemma hitAngleDeg_cases (deg : Q) :
  (deg + 90 < 0 /\ hitAngleDeg deg = deg + 90 + 360) \/
  (0 <= deg + 90 /\ hitAngleDeg deg = deg + 90).
Proof.
  unfold hitAngleDeg. cbn [nadd nltb lit Exact].
  change (inject_Z 90) with 90. change (inject_Z 0) with 0.
  change (inject_Z 360) with 360.
  destruct (Qltb (deg + 90) 0) eqn:E.
  - left. apply Qltb_true in E. auto.
  - right. apply Qltb_false in E. auto.
Qed.

Lemma effectiveAngle_turns (h h' rot rot' : Q) (k : Z) :
  h' - rot' == h - rot + 360 * inject_Z k ->
  effectiveAngle h' rot' == effectiveAngle h rot.
Proof.
  intros E. rewrite !effectiveAngle_floored.
  rewrite <- (floored_turns (h - rot) k).
  assert (F : Qfloor ((h' - rot') / 360)
              = Qfloor ((h - rot + 360 * inject_Z k) / 360)).
  { apply Qfloor_comp. rewrite E. reflexivity. }
  rewrite F, E. reflexivity.
Qed.

Lemma index_comp (e e' : Q) : e == e' -> index e = index e'.
Proof.
  intros E. rewrite !index_exact. f_equal. apply Qfloor_comp.
  rewrite E. reflexivity.
Qed.

End ExactAngles.

(** ** Compass angle and slices *)

Lemma CATEGORIES_NoDup : NoDup CATEGORIES.
Proof. apply (bool_decide_unpack _). vm_compute. exact I. Qed.

(** X1: for every value in the range of [Math.atan2], in degrees, the
    compass angle computed at lines 100-101 is the value plus 90 brought
    into [0, 360) in exact arithmetic: a quarter turn is added, and a whole
    turn where that is negative.  In binary64 the sum with 360 can round up,
    and the compass angle is then 360 itself. *)
Theorem hitAngleDeg_compass :
  (forall deg : Q, (-180 <= deg)%Q -> (deg <= 180)%Q ->
     (0 <= hitAngleDeg deg)%Q /\ (hitAngleDeg deg < 360)%Q /\
     ((deg < -90)%Q -> (hitAngleDeg deg == deg + 450)%Q) /\
     ((-90 <= deg)%Q -> (hitAngleDeg deg == deg + 90)%Q)) /\
  (exists deg : float,
     PrimFloat.leb (-180) deg = true /\ PrimFloat.leb deg 180 = true /\
     hitAngleDeg deg = 360%float).
Proof.
  split.
  - intros deg Hlo Hhi.
    destruct (hitAngleDeg_cases deg) as [[Hc ->] | [Hc ->]];
      repeat split; try lra; intros; try lra; ring.
  - exists (-0x1.6800000000001p+6)%float. vm_compute. repeat split.
Qed.

Lemma hitAngleDeg_compass_witness :
  (0 <= hitAngleDeg (-135)%Q)%Q /\ (hitAngleDeg (-135)%Q < 360)%Q /\
  (hitAngleDeg (-135) == 315)%Q.
Proof.
  destruct hitAngleDeg_compass as [H _].
  destruct (H (-135)%Q) as (H0 & H1 & H2 & _); [lra | lra |].
  split; [exact H0|]. split; [exact H1|].
  rewrite H2; [reflexivity | lra].
Defined.

(** X2: in exact arithmetic the slice of an effective angle is the one
    whose 45 degree sector contains it, the lower boundary included and the
    upper one excluded; an angle outside [0, 360) has no category. *)
Theorem slice_bounds (e : Q) (i : nat) (c : string) :
  CATEGORIES !! i = Some c ->
  (hitCategory (index e) = Some c <->
   (45 * inject_Z (Z.of_nat i) <= e /\ e < 45 * inject_Z (Z.of_nat i) + 45)%Q).
Proof.
  intros Hc. rewrite index_exact. unfold hitCategory.
  assert (He : (e == 45 * (e / 45))%Q) by field.
  pose proof (Qfloor_le (e / 45)) as Hl. pose proof (Qlt_floor (e / 45)) as Hu.
  rewrite inject_Z_plus in Hu. change (inject_Z 1) with 1%Q in Hu.
  split.
  - destruct (Z.ltb_spec (Qfloor (e / 45)) 0) as [|Hk]; [discriminate|].
    intros Hl'.
    assert (Hi : Z.to_nat (Qfloor (e / 45)) = i)
      by (eapply NoDup_lookup; eauto using CATEGORIES_NoDup).
    assert (Hz : Qfloor (e / 45) = Z.of_nat i) by lia.
    rewrite Hz in Hl, Hu. set (t := (e / 45)%Q) in *. lra.
  - intros [Hlo Hhi].
    assert (Hz : Qfloor (e / 45) = Z.of_nat i).
    { apply Qfloor_unique; set (t := (e / 45)%Q) in *; lra. }
    rewrite Hz. destruct (Z.ltb_spec (Z.of_nat i) 0); [lia|].
    rewrite Nat2Z.id. exact Hc.
Qed.

Lemma slice_bounds_witness :
  hitCategory (index 100%Q) = Some NATURE <->
  (45 * inject_Z (Z.of_nat 2) <= 100 /\ 100 < 45 * inject_Z (Z.of_nat 2) + 45)%Q.
Proof. apply (slice_bounds 100%Q 2 NATURE). reflexivity. Defined.

(** X3: in exact arithmetic the resolved category depends only on the
    angle of the hit relative to the board, up to whole turns: two throws
    whose difference between [Math.atan2] angle and rotation agrees modulo
    360 resolve to the same category, and the whole turn added at line 101
    has no effect on the result.  In binary64 this fails: the throw at
    [atan2Result] with rotation 8 and a throw 8 degrees further round with
    rotation 0 have the same difference, computed without rounding, and
    resolve to no category and to the first category. *)
Theorem resolve_relative :
  (forall (deg rot deg' rot' : Q) (k : Z),
     (deg' - rot' == deg - rot + 360 * inject_Z k)%Q ->
     (effectiveAngle (hitAngleDeg deg') rot'
        == effectiveAngle (deg + 90) rot)%Q /\
     resolve deg' rot' = resolve deg rot) /\
  (exists deg rot deg' rot' : float,
     deg = toDegrees atan2Result /\ rot = rotation spunTwice /\
     (deg' - rot')%float = (deg - rot)%float /\
     (deg' - rot')%float = (-0x1.6800000000001p+6)%float /\
     resolve deg rot = None /\
     resolve deg' rot' = Some HISTORY).
Proof.
  split.
  - intros deg rot deg' rot' k E.
    assert (A : forall d r : Q,
               (effectiveAngle (hitAngleDeg d) r == effectiveAngle (d + 90) r)%Q).
    { intros d r. destruct (hitAngleDeg_cases d) as [[_ ->] | [_ ->]].
      - apply (effectiveAngle_turns _ _ _ _ 1). change (inject_Z 1) with 1%Q. ring.
      - reflexivity. }
    assert (B : (effectiveAngle (hitAngleDeg deg') rot'
                   == effectiveAngle (deg + 90) rot)%Q).
    { rewrite A. apply (effectiveAngle_turns _ _ _ _ k).
      transitivity (deg' - rot' + 90)%Q; [ring|]. rewrite E. ring. }
    split; [exact B|].
    unfold resolve. f_equal. apply index_comp. rewrite B, A. reflexivity.
  - exists (toDegrees atan2Result), (rotation spunTwice),
           (-0x1.6800000000001p+6)%float, 0%float.
    vm_compute. repeat split.
Qed.

Lemma resolve_relative_witness :
  resolve 370%Q 10%Q = resolve 0%Q 0%Q.
Proof.
  destruct resolve_relative as [H _].
  destruct (H 0%Q 0%Q 370%Q 10%Q 1%Z) as [_ E]; [reflexivity | exact E].
Defined.

(** ** Throws and frames *)

Section Throws.
Context {N : Type} `{Number N}.

Lemma cancel_darts (s : State N) :
  darts (cancelAnimationFrame s) = darts s.
Proof.
  unfold cancelAnimationFrame.
  destruct (Nat.eqb (animationFrameRef s) 0); reflexivity.
Qed.

Lemma setGameState_gameState (g : GameState) (s : State N) :
  gameState (setGameState g s) = g.
Proof.
  unfold setGameState.
  destruct (GameState_eqb g (gameState s)) eqn:E.
  - apply GameState_eqb_eq in E. auto.
  - unfold spinEffect. simpl. destruct (GameState_eqb g SPINNING); simpl.
    + reflexivity.
    + pose proof (cancel_fields (withGameState g (cancelAnimationFrame s)))
        as (_ & Hg & _). rewrite Hg. reflexivity.
Qed.

Lemma animate_gameState (time : N) (s : State N) :
  gameState (animate time s) = gameState s.
Proof.
  unfold animate.
  destruct (negb (nequal (lastTimeRef s) (lit 0))); simpl;
    destruct (GameState_eqb (gameState s) SPINNING); reflexivity.
Qed.

Lemma setGameState_darts (g : GameState) (s : State N) :
  darts (setGameState g s) = darts s.
Proof.
  unfold setGameState, spinEffect.
  destruct (GameState_eqb g (gameState s)); [reflexivity|]. simpl.
  destruct (GameState_eqb g SPINNING); simpl.
  - apply cancel_darts.
  - rewrite cancel_darts. simpl. apply cancel_darts.
Qed.

Lemma hits_app (a b : list Call) : hits (a ++ b) = hits a ++ hits b.
Proof. apply omap_app. Qed.

Lemma runCalls_run (evs : list (Event N)) (s : State N) :
  fst (runCalls evs s) = run evs s.
Proof.
  revert s. induction evs as [|e evs IH]; intros s; [reflexivity|].
  simpl. rewrite <- IH. destruct (step e s) as [s1 out]. simpl.
  destruct (runCalls evs s1). reflexivity.
Qed.

(** Outside the spinning state no call is made, and only the parent can
    start a spin. *)
Lemma idle_step (e : Event N) (s : State N) :
  gameState s <> SPINNING -> ~ startsSpin e ->
  gameState (fst (step e s)) <> SPINNING /\ snd (step e s) = [].
Proof.
  intros Hg He. destruct e as [g | time | t].
  - simpl. rewrite setGameState_gameState. split; [|reflexivity].
    intros ->. apply He. exact I.
  - rewrite frame_step. destruct (pendingFrames s); simpl; [auto|].
    rewrite animate_gameState. auto.
  - simpl. unfold handleThrow. apply GameState_eqb_neq in Hg. rewrite Hg.
    simpl. apply GameState_eqb_neq in Hg. auto.
Qed.

(** A step makes calls only for an accepted click: the request to the
    parent and one scheduled [onHit]. *)
Lemma step_calls (e : Event N) (s : State N) :
  snd (step e s) = [] \/
  exists h, snd (step e s) = [SetGameState THROWN; OnHit h].
Proof.
  destruct e as [g | time | t].
  - left. reflexivity.
  - left. rewrite frame_step. destruct (pendingFrames s); reflexivity.
  - simpl. unfold handleThrow.
    destruct (negb (GameState_eqb (gameState s) SPINNING)); simpl; eauto.
Qed.

Lemma runCalls_idle (evs : list (Event N)) (s : State N) :
  Forall (fun e => ~ startsSpin e) evs ->
  gameState s <> SPINNING -> snd (runCalls evs s) = [].
Proof.
  intros Hev. revert s. induction Hev as [|e evs He _ IH]; intros s Hg.
  - reflexivity.
  - simpl. destruct (idle_step e s Hg He) as [Hg' Ho].
    destruct (step e s) as [s1 out]. simpl in *. subst out.
    specialize (IH s1 Hg'). destruct (runCalls evs s1). simpl in *. exact IH.
Qed.

Lemma runWith_idle (parent : GameState -> GameState)
    (evs : list (Event N)) (s : State N) :
  Forall (fun e => ~ startsSpin e) evs ->
  gameState s <> SPINNING -> snd (runWith parent evs s) = [].
Proof.
  intros Hev. revert s. induction Hev as [|e evs He _ IH]; intros s Hg.
  - reflexivity.
  - simpl. destruct (idle_step e s Hg He) as [Hg' Ho].
    destruct (step e s) as [s1 out]. simpl in *. subst out.
    specialize (IH s1 Hg'). simpl.
    destruct (runWith parent evs s1). simpl in *. exact IH.
Qed.

Lemma runWith_once (parent : GameState -> GameState)
    (evs : list (Event N)) (s : State N) :
  parent THROWN <> SPINNING ->
  Forall (fun e => ~ startsSpin e) evs ->
  (length (hits (snd (runWith parent evs s))) <= 1)%nat.
Proof.
  intros Hp Hev. revert s. induction Hev as [|e evs He Hev IH]; intros s.
  - simpl. lia.
  - simpl. destruct (step_calls e s) as [Ho | [h Ho]];
      destruct (step e s) as [s1 out]; simpl in Ho; subst out.
    + specialize (IH s1). simpl.
      destruct (runWith parent evs s1). simpl in *. exact IH.
    + assert (Hg : gameState (answer parent [SetGameState THROWN; OnHit h] s1)
                   <> SPINNING)
        by (simpl; rewrite setGameState_gameState; exact Hp).
      pose proof (runWith_idle parent evs _ Hev Hg) as Hi.
      destruct (runWith parent evs _). simpl in *. subst.
      simpl. lia.
Qed.

(** While the prop stays [SPINNING], every click is accepted. *)
Lemma clicks_all_hit (ts : list (Throw N)) (s : State N) :
  gameState s = SPINNING ->
  hits (snd (runCalls (EvClick <$> ts) s))
  = (fun t => resolve (atan2Deg t) (rotation s)) <$> ts.
Proof.
  revert s. induction ts as [|t ts IH]; intros s Hg; [reflexivity|].
  cbn [fmap list_fmap runCalls step].
  unfold handleThrow at 1. rewrite Hg. cbn [GameState_eqb negb].
  set (s1 := setDarts _ s).
  specialize (IH s1 Hg). destruct (runCalls (EvClick <$> ts) s1) as [s2 out].
  cbn [snd] in *. rewrite hits_app, IH. reflexivity.
Qed.

Lemma frame_after_click (t : Throw N) (time : N) (s : State N) :
  gameState s = SPINNING ->
  rotation (fst (step (EvFrame time) (fst (handleThrow t s))))
  = rotation (fst (step (EvFrame time) s)).
Proof.
  intros Hg. unfold handleThrow. rewrite Hg. cbn [GameState_eqb negb fst].
  rewrite !frame_step. cbn [pendingFrames setDarts].
  destruct (pendingFrames s); [reflexivity|].
  unfold animate. cbn.
  destruct (nequal (lastTimeRef s) (lit 0)); cbn;
    destruct (GameState_eqb (gameState s) SPINNING); reflexivity.
Qed.

Hypothesis grid_step : forall z : Z,
  (0 <= z < 360)%Z -> (8 | z)%Z ->
  nrem (nadd (lit z) (lit 8)) (lit 360) = lit ((z + 8) mod 360).

(** Outside the spinning state the board is frozen until the parent starts
    a spin. *)
Lemma frozen (evs : list (Event N)) (s : State N) :
  SpinInv s -> gameState s <> SPINNING ->
  Forall (fun e => ~ startsSpin e) evs ->
  rotation (run evs s) = rotation s /\
  darts (run evs s) = darts s /\
  pendingFrames (run evs s) = [].
Proof.
  intros Hs Hg Hev. revert s Hs Hg.
  induction Hev as [|e evs He _ IH]; intros s Hs Hg.
  - simpl. repeat split.
    destruct (inv_frames s Hs) as [Hf | (_ & _ & _ & Hg')];
      [exact Hf | contradiction].
  - simpl.
    pose proof (step_SpinInv grid_step e s Hs) as Hs1.
    destruct (idle_step e s Hg He) as [Hg1 _].
    pose proof (rotation_frozen e s Hs Hg) as Hr.
    assert (Hd : darts (fst (step e s)) = darts s).
    { destruct e as [g | time | t].
      - apply setGameState_darts.
      - rewrite frame_step.
        destruct (inv_frames s Hs) as [Hf | (_ & _ & _ & Hg')];
          [rewrite Hf; reflexivity | contradiction].
      - simpl. unfold handleThrow. apply GameState_eqb_neq in Hg.
        rewrite Hg. reflexivity. }
    destruct (IH _ Hs1 Hg1) as (E1 & E2 & E3).
    rewrite E1, E2, Hr, Hd. auto.
Qed.

Lemma throw_spec : ThrowSpec N.
Proof.
  intros evs t s Hg s1.
  assert (Hs : SpinInv s) by (apply run_SpinInv, init_SpinInv; exact grid_step).
  assert (E : handleThrow t s =
              (setDarts [ {| dart_x := hitX t; dart_y := hitY t;
                             dart_rotation := tilt t |} ] s,
               [SetGameState THROWN; OnHit (resolve (atan2Deg t) (rotation s))])).
  { unfold handleThrow. rewrite Hg. reflexivity. }
  assert (Hs1 : SpinInv s1).
  { subst s1. rewrite E. destruct Hs. constructor; assumption. }
  assert (Hfr : forall time,
            rotation (fst (step (EvFrame time) s1))
            = rotation (fst (step (EvFrame time) s)))
    by (intros time; apply frame_after_click; exact Hg).
  subst s1. rewrite E in *. cbn [fst snd] in *.
  set (s1 := setDarts _ s) in *.
  split; [reflexivity|]. split; [reflexivity|]. split; [exact Hg|].
  split; [reflexivity|]. split; [reflexivity|].
  split; [exact (inv_spinning s Hs Hg)|].
  split; [exact Hfr|].
  intros g Hne. set (s2 := setGameState g s1).
  assert (Hs2 : SpinInv s2) by (apply setGameState_SpinInv; assumption).
  assert (Hg2 : gameState s2 = g) by apply setGameState_gameState.
  assert (Hr2 : rotation s2 = rotation s)
    by (subst s2; rewrite setGameState_rotation; reflexivity).
  assert (Hd2 : darts s2 = darts s1) by apply setGameState_darts.
  assert (Hn2 : gameState s2 <> SPINNING) by (rewrite Hg2; exact Hne).
  split; [exact Hg2|]. split.
  { destruct (inv_frames s2 Hs2) as [Hf | (_ & _ & _ & Hg')];
      [exact Hf | contradiction]. }
  split; [exact Hr2|].
  intros evs' Hev.
  destruct (frozen evs' s2 Hs2 Hn2 Hev) as (E1 & E2 & E3).
  rewrite E1, E2, Hr2, Hd2.
  split; [reflexivity|]. split; [reflexivity|]. split; [exact E3|].
  apply runCalls_idle; assumption.
Qed.

Lemma frame_spec : FrameSpec N.
Proof.
  intros evs s.
  assert (Hs : SpinInv s) by (apply run_SpinInv, init_SpinInv; exact grid_step).
  destruct (inv_frames s Hs) as [Hf | (Hf & Hne & Hsp & Hg)].
  - rewrite Hf. split; [simpl; lia|]. split.
    + split; [|congruence]. intros Hg. apply (inv_spinning s Hs) in Hg.
      congruence.
    + intros Hg. apply (inv_spinning s Hs) in Hg. congruence.
  - rewrite Hf. split; [simpl; lia|]. split.
    + split; [discriminate | auto].
    + auto.
Qed.

End Throws.

(** X4: the board does not end a spin by itself; it asks the parent to.
    Under a parent that answers [setGameState(THROWN)] by passing a state
    other than [SPINNING] before the next event, at most one [onHit] is
    scheduled between two starts of a spin, whatever clicks, frames and
    other state changes arrive, and no call is made while the board does not
    spin.  Without an answer from the parent every click that arrives while
    the board spins schedules an [onHit] of its own. *)
Theorem throw_once_per_spin {N : Type} `{Number N}
    (parent : GameState -> GameState) (evs : list (Event N)) (s : State N) :
  parent THROWN <> SPINNING ->
  Forall (fun e => ~ startsSpin e) evs ->
  (length (hits (snd (runWith parent evs s))) <= 1)%nat /\
  (gameState s <> SPINNING -> snd (runWith parent evs s) = []) /\
  (forall ts : list (Throw N), gameState s = SPINNING ->
     hits (snd (runCalls (EvClick <$> ts) s))
     = (fun t => resolve (atan2Deg t) (rotation s)) <$> ts).
Proof.
  intros Hp Hev. split; [apply runWith_once; assumption|].
  split; [apply runWith_idle, Hev | intros ts; apply clicks_all_hit].
Qed.

Lemma throw_once_per_spin_witness :
  let evs := [EvClick throwNear8; EvFrame 80%float; EvClick throwNear8] in
  (length (hits (snd (runWith (fun g => g) evs spunTwice))) <= 1)%nat /\
  hits (snd (runWith (fun g => g) evs spunTwice)) = [None] /\
  hits (snd (runCalls evs spunTwice)) = [None; Some ENTERTAINMENT].
Proof.
  intros evs.
  assert (Hp : (fun g : GameState => g) THROWN <> SPINNING) by discriminate.
  assert (Hev : Forall (fun e : Event float => ~ startsSpin e) evs)
    by (repeat constructor; simpl; tauto).
  split.
  - exact (proj1 (throw_once_per_spin (fun g => g) evs spunTwice Hp Hev)).
  - vm_compute. split; reflexivity.
Defined.

(** X5: in every state the component reaches while the board spins, a
    click asks the parent for the thrown state, schedules one [onHit] with
    the category resolved against the rotation then shown, and shows one
    dart at the hit point; by itself it stops nothing: the frame request
    stays pending and the next frame turns the board as if there had been
    no click.  Once the parent passes any state other than [SPINNING], no
    frame request is left, the rotation is the one the hit was resolved
    against, and until the next start of a spin the rotation and the dart
    stay and no call is made.  This holds in exact arithmetic and in
    binary64. *)
Theorem throw_leaves_spin_to_parent : ThrowSpec Q /\ ThrowSpec float.
Proof.
  split; apply throw_spec; [exact grid_step_exact | exact grid_step_binary64].
Qed.

Lemma throw_leaves_spin_to_parent_witness :
  gameState (run spinTwo init) = SPINNING /\
  gameState (fst (handleThrow throwNear8 (run spinTwo init))) = SPINNING /\
  pendingFrames
    (setGameState THROWN (fst (handleThrow throwNear8 (run spinTwo init)))) = [] /\
  rotation
    (setGameState THROWN (fst (handleThrow throwNear8 (run spinTwo init))))
  = rotation (run spinTwo init).
Proof.
  destruct throw_leaves_spin_to_parent as [_ H64].
  assert (Hs : gameState (run spinTwo init) = SPINNING)
    by (vm_compute; reflexivity).
  destruct (H64 spinTwo throwNear8 Hs) as (_ & _ & Hg & _ & _ & _ & _ & Hp).
  assert (Hne : THROWN <> SPINNING) by discriminate.
  destruct (Hp THROWN Hne) as (_ & Hf & Hr & _).
  split; [exact Hs|]. split; [exact Hg|]. split; [exact Hf | exact Hr].
Defined.

(** X6: in every state the component reaches at most one animation frame
    is requested and not yet run; one is outstanding exactly while the board
    spins, it is the request recorded in [animationFrameRef], and the speed
    is then 8. *)
Theorem one_frame_outstanding : FrameSpec Q /\ FrameSpec float.
Proof.
  split; apply frame_spec; [exact grid_step_exact | exact grid_step_binary64].
Qed.

Lemma one_frame_outstanding_witness :
  gameState (run spinTwo init) = SPINNING /\
  pendingFrames (run spinTwo init) = [animationFrameRef (run spinTwo init)] /\
  speedRef (run spinTwo init) = 8%float.
Proof.
  destruct one_frame_outstanding as [_ H64].
  assert (Hs : gameState (run spinTwo init) = SPINNING)
    by (vm_compute; reflexivity).
  destruct (H64 spinTwo) as (_ & _ & Hf).
  split; [exact Hs|]. exact (Hf Hs).
Defined.

(** ** Labels *)

Lemma length_append (a b : string) :
  String.length (a +:+ b) = (String.length a + String.length b)%nat.
Proof. induction a as [|c a IH]; simpl; [reflexivity | rewrite IH; reflexivity]. Qed.

Lemma length_substring_0 (n : nat) (s : string) :
  String.length (String.substring 0 n s) = Nat.min n (String.length s).
Proof.
  revert s. induction n as [|n IH]; intros [|c s]; simpl; try reflexivity.
  rewrite IH. reflexivity.
Qed.

Lemma substring_0_append (n : nat) (s t : string) :
  (n <= String.length s)%nat ->
  String.substring 0 n (String.substring 0 n s +:+ t) = String.substring 0 n s.
Proof.
  revert s. induction n as [|n IH]; intros [|c s] Hn; simpl in *; try lia.
  - destruct t; reflexivity.
  - destruct t; reflexivity.
  - rewrite IH by lia. reflexivity.
Qed.

(** X23: the label drawn on a slice never has more than 10 characters.  A
    name of at most 10 characters is drawn in full; a longer one is cut to
    10 characters that begin with its first 8.  The labels of the eight
    categories remain pairwise different. *)
Theorem sliceLabel_fits (data : string) :
  (String.length (sliceLabel data) <= 10)%nat /\
  ((String.length data <= 10)%nat -> sliceLabel data = data) /\
  ((10 < String.length data)%nat ->
     String.length (sliceLabel data) = 10%nat /\
     String.substring 0 8 (sliceLabel data) = String.substring 0 8 data) /\
  NoDup (sliceLabel <$> CATEGORIES).
Proof.
  unfold sliceLabel.
  destruct (Nat.ltb_spec 10 (String.length data)) as [Hlong | Hshort].
  - assert (Hl : String.length (String.substring 0 8 data +:+ "..") = 10%nat).
    { rewrite length_append, length_substring_0, Nat.min_l by lia.
      reflexivity. }
    split; [rewrite Hl; lia|]. split; [intros; lia|]. split.
    + intros _. split; [exact Hl|]. apply substring_0_append. lia.
    + apply (bool_decide_unpack _). vm_compute. exact I.
  - split; [exact Hshort|]. split; [reflexivity|]. split; [lia|].
    apply (bool_decide_unpack _). vm_compute. exact I.
Qed.

Lemma sliceLabel_fits_witness :
  sliceLabel ENTERTAINMENT = "Entertai.." /\
  String.length (sliceLabel ENTERTAINMENT) = 10%nat.
Proof.
  destruct (sliceLabel_fits ENTERTAINMENT) as (_ & _ & H & _).
  assert (Hl : (10 < String.length ENTERTAINMENT)%nat) by (vm_compute; lia).
  split; [reflexivity|]. exact (proj1 (H Hl)).
Defined.

End DartboardViewFacts.

Module FactModalViewFacts.

Import FactModal FactModalView FactModalFacts.

(** ** Decoding with several channels *)

Lemma sample_below_one (w : Z) :
  (-32768 <= w <= 32767)%Z -> (-1 <= w # 32768 /\ w # 32768 < 1)%Q.
Proof. intros Hw. unfold Qle, Qlt. simpl. lia. Qed.

(** Word [k] of the view is made of bytes [2k] and [2k + 1], low byte
    first. *)
Lemma int16_words_lookup (bytes : list Z) (k : nat) (w : Z) :
  int16_words bytes !! k = Some w ->
  exists lo hi,
    bytes !! (2 * k)%nat = Some lo /\ bytes !! (2 * k + 1)%nat = Some hi /\
    w = toInt16 (lo + 256 * hi).
Proof.
  revert k. induction bytes as [| x | x y l IH] using list_pair_ind;
    intros k Hk; try discriminate.
  destruct k as [|k]; simpl in Hk.
  - injection Hk as <-. exists x, y. auto.
  - destruct (IH k Hk) as (lo & hi & H1 & H2 & ->).
    exists lo, hi. repeat split.
    + replace (2 * S k)%nat with (S (S (2 * k))) by lia. exact H1.
    + replace (2 * S k + 1)%nat with (S (S (2 * k + 1))) by lia. exact H2.
Qed.

(** X8: for bytes of even length and any positive number of channels,
    [decodeAudioData] (while [createBuffer] returns) de-interleaves the
    16-bit samples: the buffer has [numChannels] channels of
    [byteLength / 2 / numChannels] frames, rounded down; frame [i] of
    channel [c] is sample [k = i * numChannels + c], the signed 16-bit
    value of bytes [2k] (low) and [2k + 1] (high), divided by 32768, at
    least -1 and strictly below 1; there is no sample outside these
    channels and frames, so the samples of an incomplete last frame are
    dropped. *)
Theorem decodeAudioData_deinterleaves (data : list Z) (rate : Z)
    (numChannels : nat) (buf : AudioBuffer) :
  Forall (fun b => 0 <= b < 256)%Z data ->
  Nat.Even (length data) -> (0 < numChannels)%nat ->
  decodeAudioData data true rate numChannels = Normal buf ->
  let frameCount := (length data / 2 / numChannels)%nat in
  numberOfChannels buf = numChannels /\
  sampleRate buf = rate /\
  (forall c i, (c < numChannels)%nat -> (i < frameCount)%nat ->
     exists lo hi,
       data !! (2 * (i * numChannels + c))%nat = Some lo /\
       data !! (2 * (i * numChannels + c) + 1)%nat = Some hi /\
       sampleAt buf c i = Some (Val (toInt16 (lo + 256 * hi) # 32768)) /\
       (-1 <= toInt16 (lo + 256 * hi) # 32768 /\
        toInt16 (lo + 256 * hi) # 32768 < 1)%Q) /\
  (forall c i, (numChannels <= c)%nat \/ (frameCount <= i)%nat ->
     sampleAt buf c i = None).
Proof.
  intros Hbytes Hev Hnc Hdec frameCount.
  destruct (decodeAudioData_channels data rate numChannels buf Hev Hdec)
    as (H1 & _ & H3 & H4 & H5).
  split; [exact H1|]. split; [exact H3|]. split.
  - intros c i Hc Hi. destruct (H5 c i Hc Hi) as (w & Hw & Hs).
    destruct (int16_words_lookup data _ w Hw) as (lo & hi & Hlo & Hhi & ->).
    exists lo, hi. split; [exact Hlo|]. split; [exact Hhi|].
    split; [exact Hs|].
    apply sample_below_one.
    pose proof (int16_words_range data Hbytes) as Hr.
    rewrite Forall_lookup in Hr. exact (Hr _ _ Hw).
  - intros c i Hout. unfold sampleAt.
    destruct (channels buf !! c) as [channelData|] eqn:Ec; [|reflexivity].
    simpl.
    assert (Hl : (length <$> channels buf) !! c = Some (length channelData))
      by (rewrite list_lookup_fmap, Ec; reflexivity).
    rewrite H4 in Hl. apply lookup_replicate in Hl as [Hl Hc].
    destruct Hout as [Hout | Hout]; [lia|].
    apply lookup_ge_None. fold frameCount in Hl. lia.
Qed.

Lemma decodeAudioData_deinterleaves_witness :
  exists buf,
    decodeAudioData [0; 1; 2; 3; 4; 5; 6; 7; 8; 9]%Z true 24000 2 = Normal buf /\
    sampleAt buf 1 1 = Some (Val (1798 # 32768)) /\
    sampleAt buf 0 2 = None.
Proof.
  set (data := [0; 1; 2; 3; 4; 5; 6; 7; 8; 9]%Z).
  assert (Hb : Forall (fun b => 0 <= b < 256)%Z data)
    by (repeat constructor; lia).
  assert (He : Nat.Even (length data)) by (exists 5%nat; reflexivity).
  assert (Hn : (0 < 2)%nat) by lia.
  destruct (decodeAudioData data true 24000 2) as [buf|e] eqn:E;
    [|vm_compute in E; discriminate].
  exists buf. split; [reflexivity|].
  destruct (decodeAudioData_deinterleaves data 24000 2 buf Hb He Hn E)
    as (_ & _ & Hin & Hout).
  split.
  - destruct (Hin 1%nat 1%nat) as (lo & hi & Hlo & Hhi & Hs & _);
      [lia | vm_compute; lia |].
    vm_compute in Hlo, Hhi. injection Hlo as <-. injection Hhi as <-. exact Hs.
  - apply Hout. right. vm_compute. lia.
Defined.

(** ** Stopping and ending *)

Lemma statusOf_setStatus id st s srcs' cs j :
  srcs' = setStatus id st (sources s) ->
  statusOf j (withEngine srcs' cs s) =
  if decide (j = id) then (fun _ => st) <$> sources s !! id
  else statusOf j s.
Proof.
  intros ->. unfold statusOf. simpl. apply setStatus_lookup.
Qed.

Lemma stopped_status ok s id :
  statusOf id (stopped ok s) =
  match sourceNodeRef s, ok, statusOf id s with
  | Some held, true, Some Playing =>
      if decide (id = held) then Some Halted else Some Playing
  | _, _, st => st
  end.
Proof.
  unfold stopped. destruct (sourceNodeRef s) as [held|].
  2: { change (statusOf id (setIsPlaying false s)) with (statusOf id s).
       destruct ok, (statusOf id s) as [[]|]; reflexivity. }
  destruct ok.
  2: { change (statusOf id (setIsPlaying false (setSourceNodeRef None s)))
         with (statusOf id s).
       destruct (statusOf id s) as [[]|]; reflexivity. }
  change (statusOf id (setIsPlaying false (setSourceNodeRef None ?x)))
    with (statusOf id x).
  destruct (statusOf held s) as [[]|] eqn:Eh;
    try (change (statusOf id (withEngine (sources s) ?c s)) with (statusOf id s);
         destruct (statusOf id s) as [[]|] eqn:Ei; try reflexivity;
         destruct (decide (id = held)) as [->|]; [congruence | reflexivity]).
  rewrite (statusOf_setStatus held Halted s _ _ id eq_refl).
  destruct (decide (id = held)) as [->|Hne].
  - rewrite Eh. unfold statusOf in Eh.
    destruct (sources s !! held); [reflexivity | discriminate].
  - destruct (statusOf id s) as [[]|]; reflexivity.
Qed.

(** X9: [stopAudio] calls the engine at most once, to stop the node the
    component holds, and not at all when it holds none.  It starts and
    creates no node, changes the status of no other node, and leaves the
    quiz, the [isOpen] prop, the audio context and the waiting calls as
    they were. *)
Theorem stopAudio_footprint (ok : bool) (s : State) :
  let s' := fst (stopAudio ok s) in
  length (sources s') = length (sources s) /\
  (forall id, statusOf id s' = Some Playing -> statusOf id s = Some Playing) /\
  (forall id, sourceNodeRef s <> Some id -> statusOf id s' = statusOf id s) /\
  (sourceNodeRef s = None -> sources s' = sources s /\ calls s' = calls s) /\
  (forall id, sourceNodeRef s = Some id ->
     calls s' = (if ok then calls s ++ [CallStop id] else calls s) /\
     (ok = true -> statusOf id s' <> Some Playing)) /\
  selectedOption s' = selectedOption s /\ quizResult s' = quizResult s /\
  isOpen s' = isOpen s /\ audioContextRef s' = audioContextRef s /\
  awaiting s' = awaiting s.
Proof.
  intros s'. subst s'. rewrite stopAudio_stopped. simpl fst.
  destruct (stopped_fields ok s) as (_ & _ & Hso & Hq & Hc & Ho & Ha).
  repeat split; try assumption.
  - unfold stopped. destruct (sourceNodeRef s) as [held|]; [|reflexivity].
    destruct ok; [|reflexivity]. simpl.
    destruct (statusOf held s) as [[]|]; try reflexivity.
    apply setStatus_length.
  - intros id. rewrite stopped_status.
    destruct (sourceNodeRef s) as [held|], ok, (statusOf id s) as [[]|];
      try discriminate; auto.
  - intros id Hne. rewrite stopped_status.
    destruct (sourceNodeRef s) as [held|], ok, (statusOf id s) as [[]|];
      try reflexivity.
    rewrite decide_False by congruence. reflexivity.
  - unfold stopped. rewrite H. reflexivity.
  - unfold stopped. rewrite H. reflexivity.
  - unfold stopped. rewrite H. destruct ok; reflexivity.
  - intros -> Hp. rewrite stopped_status, H in Hp.
    destruct (statusOf id s) as [[]|]; try discriminate.
    rewrite decide_True in Hp by reflexivity. discriminate.
Qed.

(** X10: the [ended] event of a node takes effect once: delivered again
    it changes nothing.  It never starts or stops a node, leaves
    [sourceNodeRef] as it was, so the component keeps holding a node that
    has finished, and sets [isPlaying] to false only if the node was
    playing or halted.  When the node that ends is the held one and no
    other node is playing, nothing is playing afterwards. *)
Theorem ended_once (id : nat) (s : State) :
  ended id (ended id s) = ended id s /\
  statusOf id (ended id s) <> Some Playing /\
  (forall j, j <> id -> statusOf j (ended id s) = statusOf j s) /\
  calls (ended id s) = calls s /\
  sourceNodeRef (ended id s) = sourceNodeRef s /\
  (isPlaying (ended id s) = isPlaying s \/
   (isPlaying (ended id s) = false /\
    (statusOf id s = Some Playing \/ statusOf id s = Some Halted))) /\
  (Single s -> sourceNodeRef s = Some id -> Quiet (ended id s)).
Proof.
  assert (Hst : forall j,
            statusOf j (ended id s) =
            if decide (j = id) then
              match statusOf id s with
              | Some Playing | Some Halted => Some Ended
              | other => other
              end
            else statusOf j s).
  { intros j. unfold ended.
    destruct (statusOf id s) as [[]|] eqn:E;
      try (destruct (decide (j = id)) as [->|]; [exact E | reflexivity]);
      change (statusOf j (setIsPlaying false ?x)) with (statusOf j x);
      rewrite (statusOf_setStatus id Ended s _ _ j eq_refl);
      destruct (decide (j = id)); try reflexivity;
      unfold statusOf in E; destruct (sources s !! id); try discriminate;
      reflexivity. }
  split; [|split; [|split; [|split; [|split; [|split]]]]].
  - unfold ended at 1. rewrite Hst, decide_True by reflexivity.
    destruct (statusOf id s) as [[]|]; reflexivity.
  - rewrite Hst, decide_True by reflexivity.
    destruct (statusOf id s) as [[]|]; discriminate.
  - intros j Hne. rewrite Hst, decide_False by assumption. reflexivity.
  - unfold ended. destruct (statusOf id s) as [[]|]; reflexivity.
  - unfold ended. destruct (statusOf id s) as [[]|]; reflexivity.
  - unfold ended. destruct (statusOf id s) as [[]|]; simpl; auto.
  - intros [_ Hs] Href j Hj. rewrite Hst in Hj.
    destruct (decide (j = id)) as [->|Hne].
    + destruct (statusOf id s) as [[]|]; discriminate.
    + apply Hs in Hj. congruence.
Qed.

Lemma ended_once_witness :
  ended 0 (ended 0 playing) = ended 0 playing /\ Quiet (ended 0 playing).
Proof.
  destruct (ended_once 0 playing) as (H1 & _ & _ & _ & _ & _ & H7).
  split; [exact H1|]. apply H7; [exact playing_Single | reflexivity].
Defined.

(** X11: when the only node that may be playing is the held one, closing
    the modal or unmounting the component (with a [stop()] that returns)
    leaves no node playing, [isPlaying] false and no node held; the quiz
    selection and result stay as they were until the modal is opened
    again. *)
Theorem close_silences (s : State) :
  Single s ->
  (isOpen s = true ->
   let s' := fst (fst (step (EvSetOpen false true) s)) in
   isOpen s' = false /\ Quiet s' /\ isPlaying s' = false /\
   sourceNodeRef s' = None /\
   selectedOption s' = selectedOption s /\ quizResult s' = quizResult s) /\
  (let s' := fst (fst (step (EvUnmount true) s)) in
   Quiet s' /\ isPlaying s' = false /\ sourceNodeRef s' = None).
Proof.
  intros Hs.
  destruct (stopped_fields true s) as (Hp & Hr & Hso & Hq & _ & _ & _).
  split.
  - intros Ho. simpl.
    unfold setIsOpen, openEffect, mbind, M_bind, bind, gets, modify.
    rewrite Ho. simpl. rewrite stopAudio_stopped. simpl.
    assert (Hs' : Single (withIsOpen false s)) by exact Hs.
    destruct (stopped_fields true (withIsOpen false s))
      as (Hp' & Hr' & Hso' & Hq' & _ & Ho' & _).
    repeat split; try assumption.
    apply stopped_Quiet, Hs'.
  - simpl. rewrite stopAudio_stopped. simpl.
    repeat split; try assumption. apply stopped_Quiet, Hs.
Qed.

Lemma close_silences_witness :
  isOpen playing = true /\
  Quiet (fst (fst (step (EvSetOpen false true) playing))) /\
  isPlaying (fst (fst (step (EvSetOpen false true) playing))) = false.
Proof.
  destruct (close_silences playing playing_Single) as [H _].
  assert (Ho : isOpen playing = true) by (vm_compute; reflexivity).
  destruct (H Ho) as (_ & Hq & Hp & _).
  split; [exact Ho|]. split; [exact Hq | exact Hp].
Defined.

(** ** The playing flag *)

Lemma idle_Backed (s : State) :
  awaiting s = [] -> isPlaying s = false -> Backed s.
Proof. intros Ha Hp. split; [exact Ha|]. intros H. congruence. Qed.

Lemma playTail_holds b env :
  hoare (fun s => awaiting s = []) (playTail b env)
    (fun _ s => awaiting s = [] /\
                exists id, sourceNodeRef s = Some id /\
                           statusOf id s = Some Playing)
    (fun _ s => awaiting s = []).
Proof.
  unfold playTail.
  eapply hoare_bind with (R := fun _ s => awaiting s = []);
    [apply hoare_lift; intros s Hs; destruct (decode b); exact Hs|].
  intros data.
  eapply hoare_bind with (R := fun _ s => awaiting s = []);
    [apply hoare_lift; intros s Hs; destruct (decodeAudioData _ _ _ _); exact Hs|].
  intros buf.
  eapply hoare_bind with
    (R := fun id s => awaiting s = [] /\ is_Some (sources s !! id)).
  { unfold createBufferSource. destruct (createSourceOk env);
      [|apply hoare_throw; auto].
    eapply hoare_bind with
      (R := fun id s => awaiting s = [] /\ id = length (sources s));
      [apply hoare_gets; auto|]. intros id.
    eapply hoare_bind with
      (R := fun _ s => awaiting s = [] /\ is_Some (sources s !! id));
      [|intros _; apply hoare_ret; auto].
    apply hoare_modify. intros s [Ha ->]. split; [exact Ha|]. simpl.
    rewrite lookup_app_r by reflexivity. rewrite Nat.sub_diag. eauto. }
  intros id.
  eapply hoare_bind with
    (R := fun _ s => awaiting s = [] /\ is_Some (sources s !! id)).
  { unfold connect. destruct (connectOk env);
      [apply hoare_ret | apply hoare_throw]; tauto. }
  intros _.
  eapply hoare_bind with
    (R := fun _ s => awaiting s = [] /\ statusOf id s = Some Playing).
  { unfold engineStart. destruct (startOk env); [|apply hoare_throw; tauto].
    apply hoare_modify. intros s [Ha [src Hsrc]]. split; [exact Ha|].
    rewrite (statusOf_setStatus id Playing s _ _ id eq_refl).
    rewrite decide_True by reflexivity. rewrite Hsrc. reflexivity. }
  intros _. apply hoare_modify. intros s [Ha Hs]. split; [exact Ha|].
  exists id. split; [reflexivity | exact Hs].
Qed.

Lemma playAudio_Backed a env :
  suspended env = false -> keeps Backed (playAudio a env).
Proof.
  intros Hsus. unfold playAudio.
  destruct a as [b|]; [|apply keeps_ret].
  destruct (String.eqb b ""); [apply keeps_ret|].
  eapply hoare_try with (R := fun _ s => awaiting s = []).
  - unfold playTry.
    eapply hoare_bind with
      (R := fun waits s => waits = false /\ awaiting s = []).
    + unfold playHead. rewrite Hsus.
      eapply hoare_bind with (R := fun _ s => awaiting s = []).
      { intros s Hs. rewrite stopAudio_stopped.
        destruct (stopped_fields (stopOk env) s) as (_ & _ & _ & _ & _ & _ & ->).
        apply Hs. }
      intros _.
      eapply hoare_bind with (R := fun _ s => awaiting s = []);
        [apply hoare_modify; intros s Hs; exact Hs|].
      intros _.
      eapply hoare_bind with (R := fun _ s => awaiting s = []);
        [apply hoare_gets; auto|].
      intros ctx.
      eapply hoare_bind with (R := fun _ s => awaiting s = []);
        [|intros _; apply hoare_ret; auto].
      destruct ctx; [apply hoare_ret; auto|].
      destruct (contextOk env);
        [apply hoare_modify; intros s Hs; exact Hs | apply hoare_throw; auto].
    + intros waits. destruct waits.
      * apply hoare_modify. intros s [Hw _]. discriminate.
      * eapply hoare_weaken; [apply playTail_holds | | |]; simpl.
        -- tauto.
        -- intros _ s [Ha Hn]. split; [exact Ha|]. intros _. exact Hn.
        -- tauto.
  - intros e. unfold playFailed. apply hoare_modify.
    intros s Ha. apply idle_Backed; [exact Ha | reflexivity].
Qed.

Lemma stopAudio_Backed ok : keeps Backed (stopAudio ok).
Proof.
  intros s Hs. rewrite stopAudio_stopped.
  destruct (stopped_fields ok s) as (Hp & _ & _ & _ & _ & _ & Ha).
  apply idle_Backed; [rewrite Ha; apply Hs | exact Hp].
Qed.

Lemma resumeSettled_Backed ok env : keeps Backed (resumeSettled ok env).
Proof.
  unfold resumeSettled.
  eapply hoare_bind with (R := fun waiting s => waiting = [] /\ Backed s).
  - apply hoare_gets. intros s Hs. split; [apply Hs | exact Hs].
  - intros waiting. destruct waiting as [|b rest].
    + apply hoare_ret. tauto.
    + intros s [Hw _]. discriminate.
Qed.

Lemma setQuiz_Backed o r s : Backed s -> Backed (setQuiz o r s).
Proof. intros Hs. exact Hs. Qed.

Lemma setIsOpen_Backed b ok : keeps Backed (setIsOpen b ok).
Proof.
  unfold setIsOpen, openEffect.
  repeat keeps_step; try assumption; apply stopAudio_Backed.
Qed.

Lemma ended_Backed id s : Backed s -> Backed (ended id s).
Proof.
  intros Hs. unfold ended.
  destruct (statusOf id s) as [[]|]; try exact Hs;
    (apply idle_Backed; [apply Hs | reflexivity]).
Qed.

Lemma step_Backed e s :
  running e -> Backed s -> Backed (fst (fst (step e s))).
Proof.
  intros Hrun Hs. destruct e as [b ok | a env | ok | ok env | id | o q | ok];
    simpl in Hrun; simpl.
  - pose proof (setIsOpen_Backed b ok s Hs) as H.
    destruct (setIsOpen b ok s) as [s' [[]|e]]; exact H.
  - pose proof (playAudio_Backed a env Hrun s Hs) as H.
    destruct (playAudio a env s) as [s' [[]|e]]; exact H.
  - pose proof (stopAudio_Backed ok s Hs) as H.
    destruct (stopAudio ok s) as [s' [[]|e]]; exact H.
  - pose proof (resumeSettled_Backed ok env s Hs) as H.
    destruct (resumeSettled ok env s) as [s' [[]|e]]; exact H.
  - apply ended_Backed, Hs.
  - unfold handleOptionClick. destruct (quizResult s); simpl; exact Hs.
  - pose proof (stopAudio_Backed ok s Hs) as H.
    destruct (stopAudio ok s) as [s' [[]|e]]; exact H.
Qed.

Lemma run_Backed evs s :
  Forall running evs -> Backed s -> Backed (fst (run evs s)).
Proof.
  revert s. induction evs as [|e evs IH]; intros s Hc Hs; [exact Hs|].
  inversion Hc as [|? ? He Hevs]; subst. simpl.
  pose proof (step_Backed e s He Hs) as H1.
  destruct (step e s) as [[s1 r] out]. simpl in H1.
  specialize (IH s1 Hevs H1). destruct (run evs s1) as [s2 out']. exact IH.
Qed.

(** X12: as long as no [playAudio] call finds the audio context suspended,
    in every state the component reaches the playing flag is backed by the
    engine: when [isPlaying] is true the component holds a node and that
    node is playing.  This holds whether or not the calls of the engine
    throw. *)
Theorem playing_flag_backed (evs : list Event) :
  Forall running evs ->
  Audible (fst (run evs init)) /\ awaiting (fst (run evs init)) = [].
Proof.
  intros Hev.
  destruct (run_Backed evs init Hev) as [Ha Hb].
  - apply idle_Backed; reflexivity.
  - split; assumption.
Qed.

Lemma playing_flag_backed_witness :
  sourceNodeRef playing = Some 0%nat /\ statusOf 0 playing = Some Playing.
Proof.
  assert (Hev : Forall running [EvSetOpen true true; EvPlay (Some payload) engineOk])
    by (repeat constructor).
  destruct (playing_flag_backed _ Hev) as [Hb _].
  assert (Hp : isPlaying playing = true) by (vm_compute; reflexivity).
  destruct (Hb Hp) as (id & Hr & Hs).
  assert (Hr0 : sourceNodeRef playing = Some 0%nat) by (vm_compute; reflexivity).
  split; [exact Hr0|].
  assert (E : id = 0%nat) by (unfold playing in Hr0; congruence).
  rewrite <- E. exact Hs.
Defined.

(** X13: a [playAudio] call that finds the context suspended returns with
    [isPlaying] true although nothing plays yet: it has stopped the held
    node, holds none, has created and started no node, and waits.  When
    [resume()] is then rejected the call ends with [isPlaying] false and
    still no node created; meanwhile the playing flag is not backed by any
    node. *)
Theorem suspended_play_waits (b : string) (env : Engine) (s : State) :
  b <> "" -> suspended env = true ->
  audioContextRef s || contextOk env = true ->
  let s1 := fst (playAudio (Some b) env s) in
  isPlaying s1 = true /\ sourceNodeRef s1 = None /\
  awaiting s1 = awaiting s ++ [b] /\
  sources s1 = sources (stopped (stopOk env) s) /\
  calls s1 = calls (stopped (stopOk env) s) /\
  ~ Audible s1 /\
  (awaiting s = [] ->
   forall env',
     let s2 := fst (resumeSettled false env' s1) in
     isPlaying s2 = false /\ awaiting s2 = [] /\
     sources s2 = sources s1 /\ calls s2 = calls s1).
Proof.
  intros Hb Hsus Hctx s1.
  assert (E : playAudio (Some b) env s =
              (withAwaiting (awaiting s ++ [b])
                 (setAudioContextRef true
                    (setIsPlaying true (stopped (stopOk env) s))),
               Normal tt) \/
              playAudio (Some b) env s =
              (withAwaiting (awaiting s ++ [b])
                 (setIsPlaying true (stopped (stopOk env) s)),
               Normal tt)).
  { unfold playAudio. apply String.eqb_neq in Hb. rewrite Hb.
    unfold try_catch, playTry, playHead, mbind, M_bind, bind.
    rewrite stopAudio_stopped.
    destruct (stopped_fields (stopOk env) s) as (_ & _ & _ & _ & Hc & _ & Ha).
    remember (stopped (stopOk env) s) as st eqn:Est.
    unfold modify, gets, ret, mret, M_ret, ret, throw. rewrite Hsus.
    cbn [audioContextRef setIsPlaying awaiting]. rewrite Hc.
    destruct (audioContextRef s).
    - right. cbn [awaiting setIsPlaying]. rewrite Ha. reflexivity.
    - simpl in Hctx. rewrite Hctx. left.
      cbn [awaiting setIsPlaying setAudioContextRef]. rewrite Ha. reflexivity. }
  destruct (stopped_fields (stopOk env) s) as (_ & Hr & _ & _ & _ & _ & Ha).
  assert (F : isPlaying s1 = true /\ sourceNodeRef s1 = None /\
              awaiting s1 = awaiting s ++ [b] /\
              sources s1 = sources (stopped (stopOk env) s) /\
              calls s1 = calls (stopped (stopOk env) s)).
  { subst s1.
    destruct E as [-> | ->];
      cbn [fst isPlaying sourceNodeRef awaiting sources calls withAwaiting
           setAudioContextRef setIsPlaying];
      rewrite Hr; auto. }
  destruct F as (F1 & F2 & F3 & F4 & F5).
  split; [exact F1|]. split; [exact F2|]. split; [exact F3|].
  split; [exact F4|]. split; [exact F5|]. split.
  - intros Hau. destruct (Hau F1) as (id & Hid & _). congruence.
  - intros Hw env' s2. subst s2.
    unfold resumeSettled, mbind, M_bind, bind, gets.
    rewrite F3, Hw. repeat split; reflexivity.
Qed.

Lemma suspended_play_waits_witness :
  isPlaying (fst (playAudio (Some payload) engineSuspended init)) = true /\
  sourceNodeRef (fst (playAudio (Some payload) engineSuspended init)) = None /\
  awaiting (fst (playAudio (Some payload) engineSuspended init)) = [payload].
Proof.
  assert (Hb : payload <> "") by discriminate.
  destruct (suspended_play_waits payload engineSuspended init Hb eq_refl eq_refl)
    as (H1 & H2 & H3 & _).
  split; [exact H1|]. split; [exact H2 | exact H3].
Defined.

(** ** The option buttons *)

(** X14: the first click on an option of the quiz shown colours the
    buttons in agreement with the verdict that is recorded and reported:
    the correct answer turns green and carries the check mark whichever
    option was clicked; the clicked option turns red and carries the cross
    exactly when it is not the correct answer, and then the verdict is
    wrong and [onAnswerQuiz(false)] is called; every other option turns
    gray; all buttons are disabled. *)
Theorem verdict_matches_colours (opt : string) (q : QuizData) (s : State) :
  quizResult s = None ->
  let s' := fst (handleOptionClick opt (Some q) s) in
  let isCorrect := String.eqb opt (correctAnswer q) in
  (forall o, btnClass s q o = Unanswered) /\ disabled s = false /\
  snd (handleOptionClick opt (Some q) s) = [isCorrect] /\
  quizResult s' = Some (if isCorrect then Correct else Wrong) /\
  disabled s' = true /\
  btnClass s' q (correctAnswer q) = Green /\
  checkMark s' q (correctAnswer q) = true /\
  btnClass s' q opt = (if isCorrect then Green else Red) /\
  crossMark s' q opt = negb isCorrect /\
  (forall o, o <> correctAnswer q -> o <> opt ->
     btnClass s' q o = Gray /\ checkMark s' q o = false /\
     crossMark s' q o = false).
Proof.
  intros Hq s' isCorrect. subst s'.
  unfold handleOptionClick. rewrite Hq. cbn [fst snd].
  unfold btnClass, checkMark, crossMark, disabled. rewrite Hq.
  cbn [quizResult selectedOption setQuiz isSelected].
  rewrite !String.eqb_refl. fold isCorrect.
  split; [reflexivity|]. split; [reflexivity|]. split; [reflexivity|].
  split; [reflexivity|]. split; [reflexivity|]. split; [reflexivity|].
  split; [reflexivity|].
  split; [destruct isCorrect; reflexivity|].
  split; [destruct isCorrect; reflexivity|].
  intros o Hc Ho. apply String.eqb_neq in Hc, Ho. rewrite Hc, Ho. auto.
Qed.

Lemma verdict_matches_colours_witness :
  btnClass (fst (handleOptionClick "b" (Some {| question := "q";
              options := ["a"; "b"; "c"]; correctAnswer := "a";
              explanation := "e" |}) init))
           {| question := "q"; options := ["a"; "b"; "c"];
              correctAnswer := "a"; explanation := "e" |} "b" = Red /\
  snd (handleOptionClick "b" (Some {| question := "q";
              options := ["a"; "b"; "c"]; correctAnswer := "a";
              explanation := "e" |}) init) = [false].
Proof.
  destruct (verdict_matches_colours "b"
              {| question := "q"; options := ["a"; "b"; "c"];
                 correctAnswer := "a"; explanation := "e" |} init eq_refl)
    as (_ & _ & H3 & _ & _ & _ & _ & H8 & _).
  split; [exact H8 | exact H3].
Defined.

(** ** The audio button *)

(** X15: in every state reached while no [stop()] throws and no context
    is found suspended, a click on the audio button returns normally and
    toggles: when the component says it is playing, the click halts the
    held node, and afterwards nothing plays and [isPlaying] is false; when
    it says it is not, and the payload decodes to an even number of bytes
    with an engine whose calls all return, the click leaves [isPlaying]
    true with the newly held node playing.  In both cases at most the held
    node plays afterwards. *)
Theorem audioButton_toggles (evs : list Event) (a : option string)
    (env : Engine) :
  Forall calm evs -> stopOk env = true -> suspended env = false ->
  let s := fst (run evs init) in
  let s' := fst (audioButton a env s) in
  snd (audioButton a env s) = Normal tt /\
  Single s' /\
  (isPlaying s = true -> isPlaying s' = false /\ Quiet s') /\
  (isPlaying s = false ->
   forall b data,
     a = Some b -> b <> "" -> decode b = Normal data ->
     Nat.Even (length data) -> allOk env ->
     isPlaying s' = true /\
     exists id, sourceNodeRef s' = Some id /\ statusOf id s' = Some Playing).
Proof.
  intros Hev Hstop Hsus s s'.
  assert (Hs : Single s) by (apply run_Single; [exact Hev | exact init_Single]).
  assert (E : audioButton a env s =
              if isPlaying s then stopAudio (stopOk env) s
              else playAudio a env s).
  { unfold audioButton, mbind, M_bind, bind, gets.
    destruct (isPlaying s); reflexivity. }
  subst s'. rewrite E. clear E.
  destruct (isPlaying s) eqn:Ep.
  - rewrite Hstop, stopAudio_stopped. cbn [fst snd].
    pose proof (stopped_Quiet s Hs) as Hq.
    destruct (stopped_fields true s) as (Hp & _ & _ & _ & _ & _ & Ha).
    split; [reflexivity|]. split.
    + apply Quiet_Single; [exact Hq | rewrite Ha; apply Hs].
    + split; [auto | discriminate].
  - split; [apply playAudio_returns|]. split.
    + pose proof (playAudio_Single a env Hstop Hsus s Hs) as H.
      destruct (playAudio a env s) as [s1 [[]|e]]; exact H.
    + split; [discriminate|].
      intros _ b data -> Hb Hd Hevn Hok.
      destruct (playAudio_success b data env s Hb Hd Hevn Hok)
        as (s1 & buf & _ & Hrun & Hst).
      rewrite Hrun. cbn [fst].
      destruct Hst as (H1 & H2 & _ & H4 & _).
      split; [exact H1|].
      exists (length (sources (stopped true s))). split; [exact H2|].
      rewrite (statusOf_app_new _ _ _ H4). reflexivity.
Qed.

Lemma audioButton_toggles_witness :
  isPlaying playing = true /\
  isPlaying (fst (audioButton (Some payload) engineOk playing)) = false /\
  Quiet (fst (audioButton (Some payload) engineOk playing)).
Proof.
  assert (Hev : Forall calm [EvSetOpen true true; EvPlay (Some payload) engineOk])
    by (repeat constructor).
  destruct (audioButton_toggles _ (Some payload) engineOk Hev eq_refl eq_refl)
    as (_ & _ & Hon & _).
  assert (Hp : isPlaying playing = true) by (vm_compute; reflexivity).
  split; [exact Hp|]. exact (Hon Hp).
Defined.

Lemma stopAudio_footprint_witness :
  calls (fst (stopAudio true playing)) = [CallStart 0; CallStop 0] /\
  statusOf 0 (fst (stopAudio true playing)) <> Some Playing.
Proof.
  destruct (stopAudio_footprint true playing) as (_ & _ & _ & _ & H & _).
  assert (Hr : sourceNodeRef playing = Some 0%nat) by (vm_compute; reflexivity).
  destruct (H 0%nat Hr) as [Hc Hs].
  split; [|exact (Hs eq_refl)].
  etransitivity; [exact Hc|]. vm_compute. reflexivity.
Defined.

End FactModalViewFacts.

Module AppFlowFacts.

Import AppFlow.

(** ** The categories *)

Lemma CATEGORIES_elem (c : string) :
  c ∈ CATEGORIES <->
  c = HISTORY \/ c = SCIENCE \/ c = NATURE \/ c = SPORTS \/
  c = ART \/ c = TECH \/ c = GEOGRAPHY \/ c = ENTERTAINMENT.
Proof.
  unfold CATEGORIES. rewrite !elem_of_cons, elem_of_nil. tauto.
Qed.

Lemma CATEGORIES_nonempty (c : string) : c ∈ CATEGORIES -> c <> "".
Proof.
  rewrite CATEGORIES_elem. intros H ->.
  repeat (destruct H as [H | H]; [discriminate|]). discriminate.
Qed.

Lemma initialScores_keys (c : string) :
  is_Some (App.initialScores !! c) <-> c ∈ CATEGORIES.
Proof.
  split.
  - unfold App.initialScores, CATEGORIES. simpl foldl. intros Hc.
    rewrite CATEGORIES_elem.
    repeat (match type of Hc with
            | is_Some (<[?k := _]> _ !! _) =>
                destruct (decide (k = c)) as [<- | ?];
                [repeat first [reflexivity | left; reflexivity | right]
                | rewrite lookup_insert_ne in Hc by assumption]
            end).
    rewrite lookup_empty in Hc. destruct Hc as [x Hx]. discriminate.
  - intros Hc. rewrite (AppFacts.initialScores_lookup c Hc). eauto.
Qed.

(** ** [handleRandom] *)

Lemma randomCat_index (u : Q) :
  (0 <= u)%Q -> (u < 1)%Q ->
  (0 <= Qfloor (u * inject_Z (Z.of_nat (length CATEGORIES))) <= 7)%Z.
Proof.
  intros Hlo Hhi. change (inject_Z (Z.of_nat (length CATEGORIES))) with 8%Q.
  pose proof (Qfloor_le (u * 8)) as H1. pose proof (Qlt_floor (u * 8)) as H2.
  rewrite inject_Z_plus in H2. change (inject_Z 1) with 1%Q in H2.
  set (k := Qfloor (u * 8)) in *.
  assert (Ha : (inject_Z (-1) < inject_Z k)%Q)
    by (change (inject_Z (-1)) with (-1)%Q; lra).
  assert (Hb : (inject_Z k < inject_Z 8)%Q)
    by (change (inject_Z 8) with 8%Q; lra).
  rewrite <- Zlt_Qlt in Ha, Hb. lia.
Qed.

Lemma randomCat_defined (u : Q) :
  (0 <= u)%Q -> (u < 1)%Q ->
  exists c, randomCat u = Some c /\ c ∈ CATEGORIES.
Proof.
  intros Hlo Hhi. pose proof (randomCat_index u Hlo Hhi) as Hi.
  unfold randomCat. cbv zeta.
  set (k := Qfloor (u * inject_Z (Z.of_nat (length CATEGORIES)))) in *.
  destruct (Z.ltb_spec k 0) as [|_]; [lia|].
  assert (Hn : (Z.to_nat k < length CATEGORIES)%nat) by (simpl; lia).
  destruct (lookup_lt_is_Some_2 CATEGORIES _ Hn) as [c Hc].
  exists c. split; [exact Hc|]. eapply list_elem_of_lookup_2, Hc.
Qed.

(** X16: in exact arithmetic, for every value of [Math.random()], at least
    0 and below 1, the shuffle button selects a category of the list, never
    [undefined]; category [i] is selected exactly for the values from
    [i / 8] up to, not including, [(i + 1) / 8]. *)
Theorem random_category_defined (u : Q) :
  (0 <= u)%Q -> (u < 1)%Q ->
  (exists c, randomCat u = Some c /\ c ∈ CATEGORIES) /\
  (forall (i : nat) (c : string), CATEGORIES !! i = Some c ->
     (randomCat u = Some c <->
      (inject_Z (Z.of_nat i) <= u * 8 /\ u * 8 < inject_Z (Z.of_nat i) + 1)%Q)).
Proof.
  intros Hlo Hhi. pose proof (randomCat_index u Hlo Hhi) as Hi.
  unfold randomCat.
  change (inject_Z (Z.of_nat (length CATEGORIES))) with 8%Q in *.
  pose proof (Qfloor_le (u * 8)) as H1. pose proof (Qlt_floor (u * 8)) as H2.
  rewrite inject_Z_plus in H2. change (inject_Z 1) with 1%Q in H2.
  set (k := Qfloor (u * 8)) in *.
  destruct (Z.ltb_spec k 0) as [|_]; [lia|].
  split.
  - assert (Hn : (Z.to_nat k < length CATEGORIES)%nat) by (simpl; lia).
    destruct (lookup_lt_is_Some_2 CATEGORIES (Z.to_nat k) Hn) as [c Hc].
    exists c. split; [exact Hc|]. eapply list_elem_of_lookup_2, Hc.
  - intros i c Hc. split.
    + intros Hk.
      assert (E : Z.to_nat k = i)
        by (eapply NoDup_lookup; eauto using DartboardViewFacts.CATEGORIES_NoDup).
      assert (Ek : k = Z.of_nat i) by lia. rewrite <- Ek. lra.
    + intros [Ha Hb].
      assert (Ek : k = Z.of_nat i).
      { assert (Hx : (inject_Z k < inject_Z (Z.of_nat i) + 1)%Q) by lra.
        assert (Hy : (inject_Z (Z.of_nat i) < inject_Z k + 1)%Q) by lra.
        change 1%Q with (inject_Z 1) in Hx, Hy.
        rewrite <- inject_Z_plus in Hx, Hy.
        rewrite <- Zlt_Qlt in Hx, Hy. lia. }
      rewrite Ek, Nat2Z.id. exact Hc.
Qed.

Lemma random_category_defined_witness :
  exists c, randomCat (999 # 1000) = Some c /\ c ∈ CATEGORIES.
Proof.
  destruct (random_category_defined (999 # 1000)) as [H _]; [lra | lra |].
  exact H.
Defined.

(** ** Every state the page reaches *)

Lemma init_Sound : Sound init.
Proof.
  constructor; simpl.
  - apply initialScores_keys.
  - intros c entry Hc.
    assert (Hin : c ∈ CATEGORIES) by (apply initialScores_keys; eauto).
    rewrite (AppFacts.initialScores_lookup c Hin) in Hc.
    injection Hc as <-. simpl. lia.
  - discriminate.
  - discriminate.
  - congruence.
  - discriminate.
  - auto.
  - discriminate.
Qed.

Lemma select_Sound (category : option string) (view : ModalView) (s : State) :
  (forall c, category = Some c -> c ∈ CATEGORIES) ->
  Sound s -> Sound (handleCategorySelect category view s).
Proof.
  intros Hcat [Hk Hn Hc Hl Hq Ho Hs Ha].
  assert (Hscores : App.scores (board (handleCategorySelect category view s))
                    = App.scores (board s))
    by (destruct category; reflexivity).
  constructor; rewrite ?Hscores; simpl; try assumption.
  - destruct category as [c'|]; simpl; [|discriminate].
    intros c [= <-]. apply Hcat. reflexivity.
  - auto.
  - congruence.
  - discriminate.
  - auto.
  - discriminate.
Qed.

Lemma content_Sound (category : option string) (content : option TopicContent)
    (s : State) :
  Sound s -> Sound (contentArrived category content s).
Proof.
  intros [Hk Hn Hc Hl Hq Ho Hs Ha].
  destruct content as [c|]; constructor; simpl; try assumption;
    try discriminate; try congruence; auto; lia.
Qed.

Lemma answer_Sound (isCorrect : bool) (s : State) :
  Sound s ->
  exists s', handleQuizAnswer isCorrect s = Normal s' /\ Sound s'.
Proof.
  intros Hs. destruct Hs as [Hk Hn Hc Hl Hq Ho Hs Ha].
  unfold handleQuizAnswer, App.handleQuizAnswer.
  destruct (App.currentCategory (board s)) as [c|] eqn:Ecur.
  2: { exists (withBoard (board s) s). split; [reflexivity|].
       constructor; simpl; try assumption. rewrite Ecur. discriminate. }
  pose proof (Hc c eq_refl) as Hin.
  pose proof (CATEGORIES_nonempty c Hin) as Hne.
  apply String.eqb_neq in Hne. rewrite Hne.
  destruct (proj2 (Hk c) Hin) as [entry He].
  unfold App.recordAnswer. rewrite He.
  eexists. split; [reflexivity|].
  constructor; simpl; try assumption.
  - intros c'. destruct (decide (c = c')) as [<-|Hd].
    + rewrite lookup_insert_eq. split; [auto | eauto].
    + rewrite lookup_insert_ne by exact Hd. apply Hk.
  - intros c' entry'. destruct (decide (c = c')) as [<-|Hd].
    + rewrite lookup_insert_eq. intros [= <-]. simpl.
      destruct (Hn c entry He). destruct isCorrect; lia.
    + rewrite lookup_insert_ne by exact Hd. apply Hn.
Qed.

Lemma step_Sound (e : Event) (s : State) :
  fromPage e -> Sound s -> exists s', step e s = Normal s' /\ Sound s'.
Proof.
  intros He Hs. destruct e as [c v | u | i content | img audio | b | | b];
    simpl in He; simpl.
  - eexists. split; [reflexivity|]. apply select_Sound; [|exact Hs].
    intros c' [= <-]. exact He.
  - eexists. split; [reflexivity|]. apply select_Sound; [|exact Hs].
    intros c Hc. destruct He as [Hlo Hhi].
    destruct (randomCat_defined u Hlo Hhi) as (c' & Hc' & Hin).
    congruence.
  - destruct (fetches s !! i) as [category|].
    + eexists. split; [reflexivity|]. apply content_Sound.
      destruct Hs. constructor; assumption.
    + eauto.
  - destruct (assetLoads s) as [|n] eqn:En; [eauto|].
    eexists. split; [reflexivity|].
    destruct Hs as [Hk Hn Hc Hl Hq Ho Hs Ha].
    constructor; simpl; try assumption. discriminate.
  - apply answer_Sound, Hs.
  - eexists. split; [reflexivity|].
    destruct Hs as [Hk Hn Hc Hl Hq Ho Hs Ha].
    constructor; simpl; try assumption; try discriminate. auto.
  - eexists. split; [reflexivity|].
    destruct Hs as [Hk Hn Hc Hl Hq Ho Hs Ha].
    constructor; simpl; assumption.
Qed.

Lemma run_Sound (evs : list Event) (s : State) :
  Forall fromPage evs -> Sound s ->
  exists s', run evs s = Normal s' /\ Sound s'.
Proof.
  intros Hev. revert s. induction Hev as [|e evs He _ IH]; intros s Hs.
  - exists s. split; [reflexivity | exact Hs].
  - simpl. destruct (step_Sound e s He Hs) as (s1 & -> & Hs1).
    apply IH, Hs1.
Qed.

(** X17: whatever the user does and in whatever order the pending
    fetches resolve, no handler of the page throws, and in every state the
    page reaches the score board has an entry for exactly the eight
    categories, every count is at least 0, and the current category, when
    set, is one of the eight; so recording a quiz answer never reads a
    missing entry. *)
Theorem page_never_throws (evs : list Event) :
  Forall fromPage evs ->
  exists s,
    run evs init = Normal s /\
    (forall c, is_Some (App.scores (board s) !! c) <-> c ∈ CATEGORIES) /\
    (forall c entry, App.scores (board s) !! c = Some entry ->
       (0 <= correct entry /\ 0 <= wrong entry)%Z) /\
    (forall c, App.currentCategory (board s) = Some c -> c ∈ CATEGORIES) /\
    (forall isCorrect, exists s', handleQuizAnswer isCorrect s = Normal s').
Proof.
  intros Hev. destruct (run_Sound evs init Hev init_Sound) as (s & Hrun & Hs).
  exists s. split; [exact Hrun|].
  split; [apply Hs|]. split; [apply Hs|]. split; [apply Hs|].
  intros b. destruct (answer_Sound b s Hs) as (s' & Hs' & _). eauto.
Qed.

Lemma page_never_throws_witness :
  exists s,
    run [EvAnswer true; EvSelect SCIENCE QuizView; EvAnswer false;
         EvRandom (1 # 2); EvAnswer true] init = Normal s /\
    App.currentCategory (board s) = Some ART.
Proof.
  assert (Hev : Forall fromPage
                  [EvAnswer true; EvSelect SCIENCE QuizView; EvAnswer false;
                   EvRandom (1 # 2); EvAnswer true]).
  { repeat constructor; simpl; try discriminate;
      try (apply CATEGORIES_elem; auto 10). }
  destruct (page_never_throws _ Hev) as (s & Hrun & _).
  exists s. split; [exact Hrun|].
  assert (E : exists s0,
             run [EvAnswer true; EvSelect SCIENCE QuizView; EvAnswer false;
                  EvRandom (1 # 2); EvAnswer true] init = Normal s0 /\
             App.currentCategory (board s0) = Some ART)
    by (vm_compute; eauto).
  destruct E as (s0 & E0 & Hc). rewrite Hrun in E0. injection E0 as <-. exact Hc.
Defined.

(** X18: in every state the page reaches, while the state is [FETCHING] the
    modal is open and there is neither a fact nor a quiz to show, so nothing
    of a previous topic appears under the loading header; a quiz is never
    present without a fact; an open modal never coincides with the idle
    state; the page never enters the spinning or thrown states of the
    dartboard; and the assets are marked as loading only while a pair of
    assets is pending. *)
Theorem loading_shows_no_content (evs : list Event) :
  Forall fromPage evs ->
  exists s,
    run evs init = Normal s /\
    (gameState s = FETCHING ->
       currentFact s = None /\ currentQuiz s = None /\ modalOpen s = true) /\
    (currentQuiz s <> None -> currentFact s <> None) /\
    (modalOpen s = true -> gameState s <> IDLE) /\
    (gameState s <> SPINNING /\ gameState s <> THROWN) /\
    (isAssetsLoading s = true -> (0 < assetLoads s)%nat).
Proof.
  intros Hev. destruct (run_Sound evs init Hev init_Sound) as (s & Hrun & Hs).
  exists s. split; [exact Hrun|].
  split; [apply Hs|]. split; [apply Hs|]. split; [apply Hs|].
  split; [|apply Hs].
  destruct (sound_states s Hs) as [E | [E | E]]; rewrite E; split; discriminate.
Qed.

Lemma loading_shows_no_content_witness :
  exists s,
    run [EvSelect SCIENCE FactView;
         EvContent 0 (Some {| fact := "f"; quiz := {| question := "q";
            options := ["a"; "b"]; correctAnswer := "a"; explanation := "e" |} |});
         EvClose; EvSelect ART FactView] init = Normal s /\
    currentFact s = None /\ currentQuiz s = None /\ modalOpen s = true.
Proof.
  set (evs := [EvSelect SCIENCE FactView;
         EvContent 0 (Some {| fact := "f"; quiz := {| question := "q";
            options := ["a"; "b"]; correctAnswer := "a"; explanation := "e" |} |});
         EvClose; EvSelect ART FactView]).
  assert (Hev : Forall fromPage evs)
    by (repeat constructor; simpl; try discriminate;
        try (apply CATEGORIES_elem; auto 10)).
  destruct (loading_shows_no_content evs Hev) as (s & Hrun & Hl & _).
  exists s. split; [exact Hrun|]. apply Hl.
  assert (E : exists s0, run evs init = Normal s0 /\ gameState s0 = FETCHING)
    by (vm_compute; eauto).
  destruct E as (s0 & E0 & Hg). rewrite Hrun in E0. injection E0 as <-. exact Hg.
Defined.

(** X19: only a quiz answer changes the score board: selecting a topic,
    the shuffle button, closing the modal, the ambient mode and the arrival
    of content or assets leave every count as it was.  An answer leaves the
    entries of all categories but the current one as they were, and raises
    the total of the current category by exactly one. *)
Theorem scores_change_only_by_answers :
  (forall e s s',
     step e s = Normal s' -> (forall b, e <> EvAnswer b) ->
     App.scores (board s') = App.scores (board s)) /\
  (forall b s s' c,
     step (EvAnswer b) s = Normal s' ->
     App.currentCategory (board s) <> Some c ->
     App.scores (board s') !! c = App.scores (board s) !! c) /\
  (forall b s s' c entry,
     step (EvAnswer b) s = Normal s' ->
     App.currentCategory (board s) = Some c -> c <> "" ->
     App.scores (board s) !! c = Some entry ->
     exists entry',
       App.scores (board s') !! c = Some entry' /\
       total entry' = (total entry + 1)%Z).
Proof.
  split; [|split].
  - intros e s s' Hstep Hne.
    destruct e as [c v | u | i content | img audio | b | | b]; simpl in Hstep.
    + injection Hstep as <-. reflexivity.
    + injection Hstep as <-. unfold handleRandom, handleCategorySelect. simpl.
      destruct (randomCat u); reflexivity.
    + destruct (fetches s !! i); injection Hstep as <-; [|reflexivity].
      destruct content; reflexivity.
    + destruct (assetLoads s); injection Hstep as <-; reflexivity.
    + destruct (Hne b eq_refl).
    + injection Hstep as <-. reflexivity.
    + injection Hstep as <-. reflexivity.
  - intros b s s' c Hstep Hcur. simpl in Hstep.
    unfold handleQuizAnswer, App.handleQuizAnswer in Hstep.
    destruct (App.currentCategory (board s)) as [c0|];
      [|injection Hstep as <-; reflexivity].
    destruct (String.eqb c0 ""); [injection Hstep as <-; reflexivity|].
    unfold App.recordAnswer in Hstep.
    destruct (App.scores (board s) !! c0); [|discriminate].
    injection Hstep as <-. simpl. apply lookup_insert_ne. congruence.
  - intros b s s' c entry Hstep Hcur Hne He. simpl in Hstep.
    unfold handleQuizAnswer, App.handleQuizAnswer in Hstep.
    rewrite Hcur in Hstep. apply String.eqb_neq in Hne. rewrite Hne in Hstep.
    unfold App.recordAnswer in Hstep. rewrite He in Hstep.
    injection Hstep as <-. simpl. rewrite lookup_insert_eq.
    eexists. split; [reflexivity|]. unfold total. simpl.
    destruct b; lia.
Qed.

Lemma scores_change_only_by_answers_witness :
  App.scores (board (handleCloseModal
                       (handleCategorySelect (Some SPORTS) QuizView init)))
  = App.scores (board init).
Proof.
  destruct scores_change_only_by_answers as [H _].
  transitivity (App.scores (board (handleCategorySelect (Some SPORTS) QuizView init))).
  - apply (H EvClose); [reflexivity | discriminate].
  - apply (H (EvSelect SPORTS QuizView)); [reflexivity | discriminate].
Defined.

(** ** The score display *)

Lemma noScoresYet_spec (scores : gmap string Score) :
  noScoresYet scores = true <->
  forall c entry, scores !! c = Some entry ->
    correct entry = 0%Z /\ wrong entry = 0%Z.
Proof.
  unfold noScoresYet. rewrite forallb_forall. split.
  - intros H c entry Hc.
    assert (Hin : In entry (snd <$> map_to_list scores)).
    { apply list_elem_of_In, list_elem_of_fmap. exists (c, entry).
      split; [reflexivity|]. apply elem_of_map_to_list. exact Hc. }
    apply H in Hin. apply andb_true_iff in Hin as [H1 H2].
    apply Z.eqb_eq in H1, H2. auto.
  - intros H entry Hin.
    apply list_elem_of_In, list_elem_of_fmap in Hin as ([c e] & -> & Hin).
    apply elem_of_map_to_list in Hin. destruct (H c e Hin) as [E1 E2].
    simpl. rewrite E1, E2. reflexivity.
Qed.

Lemma card_spec (entry : Score) :
  (0 <= correct entry)%Z -> (0 <= wrong entry)%Z ->
  (card entry = false <-> correct entry = 0%Z /\ wrong entry = 0%Z) /\
  badge entry = card entry.
Proof.
  intros Hc Hw. unfold card, badge, total.
  destruct (Z.eqb_spec (correct entry + wrong entry) 0) as [E|E];
    destruct (Z.ltb_spec 0 (correct entry));
    destruct (Z.ltb_spec 0 (wrong entry)); simpl;
    (split; [split; [intros ?; try discriminate; lia
                    | intros [? ?]; try reflexivity; lia]
            | try reflexivity; lia]).
Qed.

(** X20: in every state the page reaches the three views of the scores
    agree.  Reading the entry of any of the eight categories succeeds; a
    category carries a score badge in the grid exactly when it has a card in
    the summary, which is exactly when one of its counts is positive; and
    the hint that there are no scores yet is shown exactly when no category
    has a card. *)
Theorem score_display_consistent (evs : list Event) :
  Forall fromPage evs ->
  exists s,
    run evs init = Normal s /\
    (forall cat, cat ∈ CATEGORIES ->
       exists entry,
         App.scores (board s) !! cat = Some entry /\
         badge entry = card entry /\
         (card entry = true <-> (0 < total entry)%Z)) /\
    (noScoresYet (App.scores (board s)) = true <->
     forall cat entry, App.scores (board s) !! cat = Some entry ->
       card entry = false).
Proof.
  intros Hev. destruct (run_Sound evs init Hev init_Sound) as (s & Hrun & Hs).
  exists s. split; [exact Hrun|]. split.
  - intros cat Hin. destruct (proj2 (sound_keys s Hs cat) Hin) as [entry He].
    exists entry. split; [exact He|].
    destruct (sound_counts s Hs cat entry He) as [Hc Hw].
    destruct (card_spec entry Hc Hw) as [_ Hb]. split; [exact Hb|].
    unfold card, total. rewrite negb_true_iff, Z.eqb_neq. lia.
  - rewrite noScoresYet_spec. split.
    + intros H cat entry He.
      destruct (sound_counts s Hs cat entry He) as [Hc Hw].
      apply (card_spec entry Hc Hw). eauto.
    + intros H cat entry He.
      destruct (sound_counts s Hs cat entry He) as [Hc Hw].
      apply (card_spec entry Hc Hw). eauto.
Qed.

Lemma score_display_consistent_witness :
  exists s,
    run [EvSelect NATURE QuizView; EvAnswer true; EvAnswer false] init
      = Normal s /\
    noScoresYet (App.scores (board s)) = false /\
    exists entry,
      App.scores (board s) !! NATURE = Some entry /\ badge entry = card entry.
Proof.
  set (evs := [EvSelect NATURE QuizView; EvAnswer true; EvAnswer false]).
  assert (Hev : Forall fromPage evs)
    by (repeat constructor; simpl; try discriminate;
        try (apply CATEGORIES_elem; auto 10)).
  destruct (score_display_consistent evs Hev) as (s & Hrun & Hcat & _).
  exists s. split; [exact Hrun|].
  assert (E : exists s0, run evs init = Normal s0 /\
                         noScoresYet (App.scores (board s0)) = false)
    by (vm_compute; eauto).
  destruct E as (s0 & E0 & Hn). rewrite Hrun in E0. injection E0 as <-.
  split; [exact Hn|].
  destruct (Hcat NATURE) as (entry & He & Hb & _);
    [apply CATEGORIES_elem; auto 10|].
  exists entry. split; [exact He | exact Hb].
Defined.

(** ** Results that arrive late *)

(** X21: the results of a fetch are applied to whatever topic is current
    when they arrive.  If topic [a] is closed and topic [b] selected before
    the assets of [a] have arrived, those assets become the image and the
    audio shown with the fact of [b] until the assets of [b] arrive; and if
    the content of [a] itself arrives after [b] was selected, the fact and
    the quiz of [a] are shown under [b], and an answer to that quiz counts
    for [b]. *)
Theorem late_results_overwrite (a b : string) (v v' : ModalView)
    (contentA contentB : TopicContent) (img audio : option string) :
  (exists s,
     run [EvSelect a v; EvContent 0 (Some contentA); EvClose; EvSelect b v';
          EvAssets img audio; EvContent 0 (Some contentB)] init = Normal s /\
     App.currentCategory (board s) = Some b /\
     gameState s = SHOWING_CONTENT /\ modalOpen s = true /\
     currentFact s = Some (fact contentB) /\
     currentImage s = img /\ currentAudio s = audio /\
     isAssetsLoading s = true /\ assetLoads s = 1%nat) /\
  (exists s,
     run [EvSelect a v; EvClose; EvSelect b v';
          EvContent 0 (Some contentA)] init = Normal s /\
     App.currentCategory (board s) = Some b /\
     gameState s = SHOWING_CONTENT /\ modalOpen s = true /\
     currentFact s = Some (fact contentA) /\
     currentQuiz s = Some (quiz contentA) /\
     fetches s = [Some b] /\
     forall isCorrect entry,
       b <> "" -> App.initialScores !! b = Some entry ->
       exists s',
         step (EvAnswer isCorrect) s = Normal s' /\
         App.scores (board s') !! b
         = Some {| correct := correct entry + (if isCorrect then 1 else 0);
                   wrong := wrong entry + (if isCorrect then 0 else 1) |}).
Proof.
  split.
  - eexists. split; [reflexivity|]. repeat split.
  - eexists. split; [reflexivity|]. repeat split.
    intros isCorrect entry Hb He. simpl.
    unfold handleQuizAnswer, App.handleQuizAnswer. simpl.
    apply String.eqb_neq in Hb. rewrite Hb.
    unfold App.recordAnswer. simpl. rewrite He.
    eexists. split; [reflexivity|]. simpl. apply lookup_insert_eq.
Qed.

Lemma late_results_overwrite_witness :
  exists s,
    run [EvSelect HISTORY FactView; EvClose; EvSelect ART QuizView;
         EvContent 0 (Some {| fact := "f"; quiz := {| question := "q";
            options := ["a"; "b"]; correctAnswer := "a";
            explanation := "e" |} |})] init = Normal s /\
    App.currentCategory (board s) = Some ART /\
    currentFact s = Some "f".
Proof.
  destruct (late_results_overwrite HISTORY ART FactView QuizView
              {| fact := "f"; quiz := {| question := "q";
                 options := ["a"; "b"]; correctAnswer := "a";
                 explanation := "e" |} |}
              {| fact := "g"; quiz := {| question := "q";
                 options := ["a"; "b"]; correctAnswer := "a";
                 explanation := "e" |} |} None None)
    as [_ (s & Hrun & Hc & _ & _ & Hf & _)].
  exists s. split; [exact Hrun|]. split; [exact Hc | exact Hf].
Defined.

(** ** From the modal to the score board *)

(** X22: the modal is wired to the score board by
    [onAnswerQuiz={handleQuizAnswer}].  With a category selected and the
    quiz not yet answered, the first click on an option adds one to the
    correct count of that category when the option is the correct answer
    and one to its wrong count otherwise, and changes no other entry; any
    further click on an option changes nothing. *)
Theorem answer_reaches_scoreboard (opt : string) (q : QuizData)
    (m : FactModal.State) (s : State) (c : string) (entry : Score) :
  FactModal.quizResult m = None ->
  App.currentCategory (board s) = Some c -> c <> "" ->
  App.scores (board s) !! c = Some entry ->
  let m' := fst (FactModal.handleOptionClick opt (Some q) m) in
  let calls := snd (FactModal.handleOptionClick opt (Some q) m) in
  exists s',
    run (EvAnswer <$> calls) s = Normal s' /\
    App.scores (board s') !! c
    = Some (if String.eqb opt (correctAnswer q)
            then {| correct := correct entry + 1; wrong := wrong entry + 0 |}
            else {| correct := correct entry + 0; wrong := wrong entry + 1 |}) /\
    (forall c', c' <> c ->
       App.scores (board s') !! c' = App.scores (board s) !! c') /\
    (forall opt',
       run (EvAnswer <$> snd (FactModal.handleOptionClick opt' (Some q) m')) s'
       = Normal s').
Proof.
  intros Hq Hcur Hne He m' calls. subst m' calls.
  unfold FactModal.handleOptionClick. rewrite Hq. cbn [fst snd fmap list_fmap].
  cbn [run step]. unfold handleQuizAnswer, App.handleQuizAnswer.
  rewrite Hcur. apply String.eqb_neq in Hne. rewrite Hne.
  unfold App.recordAnswer. rewrite He.
  eexists. split; [reflexivity|]. cbn [board withBoard App.scores].
  split; [|split].
  - rewrite lookup_insert_eq. destruct (String.eqb opt (correctAnswer q)); reflexivity.
  - intros c' Hc'. apply lookup_insert_ne. congruence.
  - intros opt'. reflexivity.
Qed.

Lemma answer_reaches_scoreboard_witness :
  exists s',
    run (EvAnswer <$> snd (FactModal.handleOptionClick "a"
           (Some {| question := "q"; options := ["a"; "b"];
                    correctAnswer := "a"; explanation := "e" |})
           FactModal.init))
        (handleCategorySelect (Some ART) QuizView init) = Normal s' /\
    App.scores (board s') !! ART = Some {| correct := 0 + 1; wrong := 0 + 0 |}.
Proof.
  assert (Hne : ART <> "") by discriminate.
  assert (He : App.scores (board (handleCategorySelect (Some ART) QuizView init))
               !! ART = Some {| correct := 0; wrong := 0 |})
    by (vm_compute; reflexivity).
  destruct (answer_reaches_scoreboard "a"
              {| question := "q"; options := ["a"; "b"];
                 correctAnswer := "a"; explanation := "e" |}
              FactModal.init (handleCategorySelect (Some ART) QuizView init)
              ART {| correct := 0; wrong := 0 |} eq_refl eq_refl Hne He)
    as (s' & Hrun & Hs & _).
  exists s'. split; [exact Hrun | exact Hs].
Defined.

End AppFlowFacts.
